(** * Site audit tool: crawl engine, robots gate, fetcher, content hash, scorer

    A shallow embedding of the parts of the site audit tool that the
    specification makes claims about:

    - [scoring/scorer.py]   : [compute_health_score]
    - [crawler/robots.py]   : [_parse_robots], [is_url_allowed]
    - [crawler/fetcher.py]  : [_follow_redirects], [fetch_page]
    - [crawler/parser.py]   : [_parse_content]
    - [crawler/crawler.py]  : [_normalize_url], the seed list of [crawl],
                              [_fetch_and_parse], [_crawl_internal]

    and of the code around them:

    - [scoring/scorer.py]   : [score_label], [score_color]
    - [crawler/robots.py]   : [fetch_and_parse_robots], [_build_robots_url]
    - [crawler/fetcher.py]  : [check_url_status]
    - [crawler/sitemap.py]  : [fetch_sitemap], [_fetch_recursive],
                              [_decompress_if_gzip], [_local_tag],
                              [guess_sitemap_url]
    - [crawler/crawler.py]  : [_check_external_links], [_get_sitemap]

    Conventions.  A Python [str] is a [string]; its characters are read as
    code points below 256.  A Python [int] is a [Z].  A Python [float] is
    a binary64 value ([Float64.t]): a rational, an infinity or NaN, every
    operation rounding its exact result to the nearest double, ties to
    even; [Scorer64] is the scorer over these values.  [Scorer] is the
    same code read over exact rationals ([Q]), with [round] as
    round-half-to-even on the rational; it is used for the properties
    that only rest on the order of the numbers.  A [dict] whose iteration order matters is an
    insertion-ordered association list; the page map and the visited set,
    whose order is never observed, are a [gmap] and a [gset].  Library
    calls whose code is not part of the repository ([urlparse], [urljoin],
    [md5], the HTTP session, BeautifulSoup) are parameters of the sections
    that use them. *)

From Stdlib Require Import ZArith QArith Qround Qminmax Qabs Qpower Lqa Lia.
From Stdlib Require Import Ascii String.
From stdpp Require Import gmap strings list.
From stdpp Require Import pretty.

Local Open Scope string_scope.
Local Open Scope list_scope.

#[local] Set Warnings "-clear-no-such-hyp".
#[local] Set Default Proof Using "All".

(** ** Insertion-ordered dictionaries *)

Module ODict.
Section odict.
Context {V : Type}.

Definition t := list (string * V).

(** [d.get(k)] *)
Fixpoint get (k : string) (d : t) : option V :=
  match d with
  | [] => None
  | (k', v) :: d' => if decide (k' = k) then Some v else get k d'
  end.

(** [d.get(k, dflt)] *)
Definition get_default (k : string) (dflt : V) (d : t) : V :=
  default dflt (get k d).

(** [f(d.setdefault(k, dflt))] where [f] mutates the stored value in
    place: an existing entry keeps its position, a new key goes last. *)
Fixpoint setdefault_with (k : string) (dflt : V) (f : V -> V) (d : t) : t :=
  match d with
  | [] => [(k, f dflt)]
  | (k', v) :: d' =>
      if decide (k' = k) then (k', f v) :: d'
      else (k', v) :: setdefault_with k dflt f d'
  end.

(** [d[k] = v] *)
Definition set (k : string) (v : V) (d : t) : t :=
  setdefault_with k v (fun _ => v) d.

Definition keys (d : t) : list string := map fst d.
End odict.
Arguments t : clear implicits.
End ODict.

(** ** Python numbers *)

Module PyNum.

(** Round-half-to-even of a rational to an integer. *)
Definition round_half_even (y : Q) : Z :=
  let f := Qfloor y in
  match Qcompare (y - inject_Z f) (1 # 2) with
  | Lt => f
  | Gt => (f + 1)%Z
  | Eq => if Z.even f then f else (f + 1)%Z
  end.

Fixpoint pow10 (n : nat) : positive :=
  match n with
  | O => 1%positive
  | S n' => (10 * pow10 n')%positive
  end.

(** [round(x, ndigits)] for [ndigits >= 0]. *)
Definition round (x : Q) (ndigits : nat) : Q :=
  let scale := pow10 ndigits in
  Qred (round_half_even (x * inject_Z (Z.pos scale)) # scale).

End PyNum.

(** ** Python floats

    A [float] is an IEEE 754 binary64 value: 53 bits of precision, the
    least positive value [2^-1074], every finite value below [2^1024].
    A finite value is kept as the rational it stands for, in lowest
    terms; the sign of a zero is not kept (the scorer never looks at
    it).  Every operation returns its exact result rounded to the
    nearest double, ties to the even significand, as IEEE 754 defines
    it. *)

Module Float64.
Local Open Scope Q_scope.

Inductive t :=
| Finite (x : Q)
| Infinity (negative : bool)
| NaN.

Definition prec : Z := 53.
Definition emin : Z := (-1074)%Z.
Definition emax : Z := 1024.

Definition pow2 (e : Z) : Q := 2 ^ e.

(** [floor (log2 x)] for [0 < x]. *)
Definition log2_floor (x : Q) : Z :=
  let d := (Z.log2 (Qnum x) - Z.log2 (Z.pos (Qden x)))%Z in
  if Qle_bool (pow2 d) x then d else (d - 1)%Z.

(** The exponent of the unit in the last place of the doubles around
    [x]: 52 below the exponent of [x], and [emin] for the subnormal
    numbers. *)
Definition ulp_exp (x : Q) : Z := Z.max (log2_floor (Qabs x) - (prec - 1)) emin.

(** Rounding to the nearest multiple of [2 ^ ulp_exp x], ties to the
    even multiple. *)
Definition rnd (x : Q) : Q :=
  let e := ulp_exp x in
  Qred (inject_Z (PyNum.round_half_even (x / pow2 e)) * pow2 e).

(** The double nearest to a rational; an infinity from [2^1024] on. *)
Definition of_Q (x : Q) : t :=
  let y := rnd x in
  if Qle_bool (pow2 emax) (Qabs y) then Infinity (negb (Qle_bool 0 y)) else Finite y.

(** [float(n)] for an [int]; Python raises [OverflowError] where this
    is an infinity. *)
Definition of_int (n : Z) : t := of_Q (inject_Z n).

(** [a / b] for two [int]s, [b] not zero: the quotient, correctly
    rounded.  Python raises [OverflowError] where this is an
    infinity. *)
Definition truediv (a b : Z) : t := of_Q (inject_Z a / inject_Z b).

Definition add (a b : t) : t :=
  match a, b with
  | Finite x, Finite y => of_Q (x + y)
  | Infinity n, Infinity m => if Bool.eqb n m then a else NaN
  | Infinity _, Finite _ => a
  | Finite _, Infinity _ => b
  | _, _ => NaN
  end.

Definition opp (a : t) : t :=
  match a with
  | Finite x => Finite (Qred (- x))
  | Infinity n => Infinity (negb n)
  | NaN => NaN
  end.

Definition sub (a b : t) : t := add a (opp b).

Definition mul (a b : t) : t :=
  match a, b with
  | Finite x, Finite y => of_Q (x * y)
  | Infinity n, Infinity m => Infinity (xorb n m)
  | Infinity n, Finite y | Finite y, Infinity n =>
      if Qeq_bool y 0 then NaN else Infinity (xorb n (negb (Qle_bool 0 y)))
  | _, _ => NaN
  end.

(** [a < b] *)
Definition ltb (a b : t) : bool :=
  match a, b with
  | Finite x, Finite y => negb (Qle_bool y x)
  | Finite _, Infinity m => negb m
  | Infinity n, Finite _ => n
  | Infinity n, Infinity m => n && negb m
  | _, _ => false
  end.

(** [a <= b] *)
Definition leb (a b : t) : bool :=
  match a, b with
  | Finite x, Finite y => Qle_bool x y
  | Finite _, Infinity m => negb m
  | Infinity n, Finite _ => n
  | Infinity n, Infinity m => n || negb m
  | _, _ => false
  end.

(** [min(a, b)] and [max(a, b)]: the first argument unless the second
    is smaller (greater). *)
Definition min (a b : t) : t := if ltb b a then b else a.
Definition max (a b : t) : t := if ltb a b then b else a.

(** [round(a, ndigits)] for [ndigits >= 0]: the decimal nearest to the
    exact value of [a], ties to the even digit, and then the double
    nearest to that decimal. *)
Definition round (a : t) (ndigits : nat) : t :=
  match a with
  | Finite x => of_Q (PyNum.round x ndigits)
  | _ => a
  end.

(** The number that a finite value stands for. *)
Definition to_Q (a : t) : Q :=
  match a with
  | Finite x => x
  | _ => 0
  end.

(** A finite value within two integer bounds. *)
Definition within (lo hi : Z) (a : t) : Prop :=
  exists y, a = Finite y /\ inject_Z lo <= y <= inject_Z hi.

(** Not negative and not NaN. *)
Definition nonneg (a : t) : Prop :=
  match a with
  | Finite y => 0 <= y
  | Infinity n => n = false
  | NaN => False
  end.

(** A value as the operations return it: a finite one is a double,
    kept in lowest terms. *)
Definition double (a : t) : Prop :=
  match a with
  | Finite x => of_Q x = Finite x
  | _ => True
  end.

(** [a <= b] among the values that are not negative, [inf] included. *)
Definition leq (a b : t) : Prop :=
  match a, b with
  | Finite x, Finite y => 0 <= x <= y
  | Finite x, Infinity false => 0 <= x
  | Infinity false, Infinity false => True
  | _, _ => False
  end.
End Float64.

(** ** models.py: Issue, Severity *)

Module Severity.
Definition CRITICAL := "critical".
Definition WARNING := "warning".
Definition INFO := "info".
End Severity.

Record Issue := mkIssue {
  issue_url : string;
  category : string;
  issue_type : string;
  severity : string;
  description : string;
  recommendation : string;
  detail : string;
  affected_element : string
}.

(** ** config.py and scoring/scorer.py *)

Module Scorer.

Definition SCORING_WEIGHTS : ODict.t Q :=
  [ ("HTTP Issues", 18); ("Links", 15); ("Meta", 15); ("Technical SEO", 14);
    ("Content", 12); ("Performance", 10); ("Security", 8); ("Images", 5);
    ("Sitemap", 2); ("Robots", 1) ]%Q.

Definition _TYPE_WEIGHT : ODict.t Q :=
  [ (Severity.CRITICAL, 12); (Severity.WARNING, 4); (Severity.INFO, 8 # 10) ]%Q.

(** [by_cat.setdefault(issue.category, {}).setdefault(issue.issue_type, []).append(issue)] *)
Definition group_step (by_cat : ODict.t (ODict.t (list Issue))) (issue : Issue)
  : ODict.t (ODict.t (list Issue)) :=
  ODict.setdefault_with (category issue) []
    (ODict.setdefault_with (issue_type issue) [] (fun l => l ++ [issue]))
    by_cat.

Definition group_issues (issues : list Issue) : ODict.t (ODict.t (list Issue)) :=
  fold_left group_step issues [].

(** [type_issues[0].severity]; the lists stored by [group_issues] are
    never empty (lemma [group_issues_nonempty]). *)
Definition first_severity (type_issues : list Issue) : string :=
  match type_issues with
  | i :: _ => severity i
  | [] => ""
  end.

(** [len({i.url for i in type_issues})] *)
Definition affected_pages (type_issues : list Issue) : nat :=
  size (list_to_set (issue_url <$> type_issues) : gset string).

(** One pass of the inner loop body: [base * ratio]. *)
Definition type_deduction (n_pages : Z) (type_issues : list Issue) : Q :=
  let base := ODict.get_default (first_severity type_issues) 0%Q _TYPE_WEIGHT in
  let ratio := Qmin 1 (inject_Z (Z.of_nat (affected_pages type_issues)) / inject_Z n_pages) in
  (base * ratio)%Q.

Definition cat_deduction (n_pages : Z) (type_map : ODict.t (list Issue)) : Q :=
  fold_left (fun ded '(_, type_issues) => (ded + type_deduction n_pages type_issues)%Q)
    type_map 0%Q.

(** The loop over [SCORING_WEIGHTS.items()], threading [total] and
    [category_scores]. *)
Definition score_step (n_pages : Z) (by_cat : ODict.t (ODict.t (list Issue)))
    (st : Q * ODict.t Q) (cw : string * Q) : Q * ODict.t Q :=
  let '(total, category_scores) := st in
  let '(cat, weight) := cw in
  let type_map := ODict.get_default cat [] by_cat in
  let capped := Qmin (cat_deduction n_pages type_map) weight in
  ((total - capped)%Q, ODict.set cat (PyNum.round (weight - capped) 2) category_scores).

Definition score_loop (issues : list Issue) (total_pages : Z) : Q * ODict.t Q :=
  fold_left (score_step (Z.max total_pages 1) (group_issues issues))
    SCORING_WEIGHTS (100%Q, []).

Definition compute_health_score (issues : list Issue) (total_pages : Z)
  : Q * ODict.t Q :=
  match issues with
  | [] => (100%Q, map (fun '(cat, w) => (cat, w)) SCORING_WEIGHTS)
  | _ =>
      let '(total, category_scores) := score_loop issues total_pages in
      (PyNum.round (Qmax 0 (Qmin 100 total)) 1, category_scores)
  end.

(** [score_label(score)] *)
Definition score_label (score : Q) : string :=
  if Qle_bool 90 score then "Excellent"
  else if Qle_bool 75 score then "Good"
  else if Qle_bool 50 score then "Needs Work"
  else "Poor".

(** [score_color(score)] *)
Definition score_color (score : Q) : string :=
  if Qle_bool 90 score then "#00C851"
  else if Qle_bool 75 score then "#FFD700"
  else if Qle_bool 50 score then "#FF8800"
  else "#FF4444".

End Scorer.


(** ** The scoring rule in the words of the specification

    Used only to state what [Scorer.compute_health_score] computes; the
    definitions above are the ones taken from the code. *)

Module ScorerSpec.

(** The elements of [l], each once, in order of first occurrence. *)
Fixpoint first_occurrences (l : list string) : list string :=
  match l with
  | [] => []
  | x :: l' => x :: filter (fun y => y <> x) (first_occurrences l')
  end.

Definition base_deduction (sev : string) : Q :=
  if decide (sev = "critical") then 12%Q
  else if decide (sev = "warning") then 4%Q
  else if decide (sev = "info") then (8 # 10)%Q
  else 0%Q.

(** The issues of one issue type within one category. *)
Definition issues_of (cat ty : string) (issues : list Issue) : list Issue :=
  filter (fun i => issue_type i = ty)
    (filter (fun i => category i = cat) issues).

(** The unique issue types within a category. *)
Definition types_of (cat : string) (issues : list Issue) : list string :=
  first_occurrences (issue_type <$> filter (fun i => category i = cat) issues).

(** Number of distinct pages among the issues. *)
Definition distinct_pages (l : list Issue) : nat :=
  length (remove_dups (issue_url <$> l)).

(** Base deduction of the type's severity times the fraction of pages
    it affects, the fraction capped at 1. *)
Definition type_cost (n_pages : Z) (l : list Issue) : Q :=
  (base_deduction (Scorer.first_severity l)
   * Qmin 1 (inject_Z (Z.of_nat (distinct_pages l)) / inject_Z n_pages))%Q.

Definition Qsum (l : list Q) : Q := fold_right Qplus 0%Q l.

(** Sum over the unique issue types of the category. *)
Definition deduction (n_pages : Z) (cat : string) (issues : list Issue) : Q :=
  Qsum ((fun ty => type_cost n_pages (issues_of cat ty issues)) <$> types_of cat issues).

(** The category's deduction capped at its weight. *)
Definition capped (n_pages : Z) (issues : list Issue) (cw : string * Q) : Q :=
  Qmin (deduction n_pages (fst cw) issues) (snd cw).

Definition category_score (n_pages : Z) (issues : list Issue) (cw : string * Q)
  : string * Q :=
  (fst cw, PyNum.round (snd cw - capped n_pages issues cw) 2).

(** 100 minus the capped deductions, before clamping and rounding. *)
Definition raw_total (n_pages : Z) (issues : list Issue) : Q :=
  (100 - Qsum (capped n_pages issues <$> Scorer.SCORING_WEIGHTS))%Q.

Definition clamp (x : Q) : Q := Qmax 0 (Qmin 100 x).


(** The inner dictionary that the grouping loop builds from the issues
    of a single category. *)
Definition inner_group (l : list Issue) : ODict.t (list Issue) :=
  fold_left
    (fun m i => ODict.setdefault_with (issue_type i) [] (fun l => l ++ [i]) m)
    l [].

(** The four labels, from worst to best. *)
Definition label_rank (label : string) : nat :=
  if decide (label = "Excellent") then 3
  else if decide (label = "Good") then 2
  else if decide (label = "Needs Work") then 1
  else 0.

(** The colour shown with each label. *)
Definition label_colors : list (string * string) :=
  [ ("Excellent", "#00C851"); ("Good", "#FFD700");
    ("Needs Work", "#FF8800"); ("Poor", "#FF4444") ].

End ScorerSpec.

(** ** scoring/scorer.py over binary64 *)

Module Scorer64.
Import Float64.

(** [SCORING_WEIGHTS] of config.py: the weights are [int]s. *)
Definition SCORING_WEIGHTS : ODict.t Z :=
  [ ("HTTP Issues", 18); ("Links", 15); ("Meta", 15); ("Technical SEO", 14);
    ("Content", 12); ("Performance", 10); ("Security", 8); ("Images", 5);
    ("Sitemap", 2); ("Robots", 1) ]%Z.

(** The literals [12.0], [4.0] and [0.8]. *)
Definition _TYPE_WEIGHT : ODict.t Float64.t :=
  [ (Severity.CRITICAL, of_Q 12); (Severity.WARNING, of_Q 4);
    (Severity.INFO, of_Q (8 # 10)) ].

(** One pass of the inner loop body: [base * ratio]. *)
Definition type_deduction (n_pages : Z) (type_issues : list Issue) : Float64.t :=
  let base := ODict.get_default (Scorer.first_severity type_issues) (of_Q 0) _TYPE_WEIGHT in
  let ratio :=
    min (of_Q 1) (truediv (Z.of_nat (Scorer.affected_pages type_issues)) n_pages) in
  mul base ratio.

Definition cat_deduction (n_pages : Z) (type_map : ODict.t (list Issue)) : Float64.t :=
  fold_left (fun ded '(_, type_issues) => add ded (type_deduction n_pages type_issues))
    type_map (of_Q 0).

(** The loop over [SCORING_WEIGHTS.items()], threading [total] and
    [category_scores].  Where the deduction is above the weight,
    [capped] is the [int] weight itself and the category score the
    [int] 0; they are kept as the doubles of the same value. *)
Definition score_step (n_pages : Z) (by_cat : ODict.t (ODict.t (list Issue)))
    (st : Float64.t * ODict.t Float64.t) (cw : string * Z)
  : Float64.t * ODict.t Float64.t :=
  let '(total, category_scores) := st in
  let '(cat, weight) := cw in
  let type_map := ODict.get_default cat [] by_cat in
  let capped := min (cat_deduction n_pages type_map) (of_int weight) in
  (sub total capped,
   ODict.set cat (round (sub (of_int weight) capped) 2) category_scores).

Definition score_loop (issues : list Issue) (total_pages : Z)
  : Float64.t * ODict.t Float64.t :=
  fold_left (score_step (Z.max total_pages 1) (Scorer.group_issues issues))
    SCORING_WEIGHTS (of_Q 100, []).

Definition compute_health_score (issues : list Issue) (total_pages : Z)
  : Float64.t * ODict.t Float64.t :=
  match issues with
  | [] => (of_Q 100, map (fun '(cat, w) => (cat, of_int w)) SCORING_WEIGHTS)
  | _ =>
      let '(total, category_scores) := score_loop issues total_pages in
      (round (max (of_Q 0) (min (of_Q 100) total)) 1, category_scores)
  end.
End Scorer64.

(** ** The scoring rule in the words of the specification, over binary64

    The sums are taken as the code takes them: from the left, one
    double-precision addition or subtraction after the other, the
    issue types of a category in the order of their first
    occurrence. *)

Module Scorer64Spec.
Import Float64.

Definition base_deduction (sev : string) : Float64.t :=
  if decide (sev = "critical") then of_Q 12
  else if decide (sev = "warning") then of_Q 4
  else if decide (sev = "info") then of_Q (8 # 10)
  else of_Q 0.

(** Base deduction of the type's severity times the fraction of pages
    it affects, the fraction capped at 1. *)
Definition type_cost (n_pages : Z) (l : list Issue) : Float64.t :=
  mul (base_deduction (Scorer.first_severity l))
    (min (of_Q 1) (truediv (Z.of_nat (ScorerSpec.distinct_pages l)) n_pages)).

(** The sum of a list of doubles, from the left, starting at [0.0]. *)
Definition fsum (l : list Float64.t) : Float64.t := fold_left add l (of_Q 0).

(** Sum over the unique issue types of the category. *)
Definition deduction (n_pages : Z) (cat : string) (issues : list Issue) : Float64.t :=
  fsum ((fun ty => type_cost n_pages (ScorerSpec.issues_of cat ty issues))
          <$> ScorerSpec.types_of cat issues).

(** The category's deduction capped at its weight. *)
Definition capped (n_pages : Z) (issues : list Issue) (cw : string * Z) : Float64.t :=
  min (deduction n_pages (fst cw) issues) (of_int (snd cw)).

Definition category_score (n_pages : Z) (issues : list Issue) (cw : string * Z)
  : string * Float64.t :=
  (fst cw, round (sub (of_int (snd cw)) (capped n_pages issues cw)) 2).

(** 100 minus the capped deductions, one after the other, before
    clamping and rounding. *)
Definition raw_total (n_pages : Z) (issues : list Issue) : Float64.t :=
  fold_left (fun total cw => sub total (capped n_pages issues cw))
    Scorer64.SCORING_WEIGHTS (of_Q 100).

Definition clamp (x : Float64.t) : Float64.t := max (of_Q 0) (min (of_Q 100) x).
End Scorer64Spec.

(** ** Sample data for the scorer *)

Module ScorerSamples.
Definition issue (u c t s : string) : Issue := mkIssue u c t s "" "" "" "".

Definition broken_a : Issue := issue "https://site.test/a" "Links" "broken_link" "critical".
End ScorerSamples.

(** ** Python string methods

    Characters are the code points below 256. *)

Module PyStr.

Definition code (c : ascii) : N := N_of_ascii c.

(** [str.isspace] on one character: TAB..CR, FS..US, SPACE, NEL, NBSP.
    The regular expression class [\s] matches the same characters. *)
Definition is_space (c : ascii) : bool :=
  let n := code c in
  ((9 <=? n) && (n <=? 13) || (28 <=? n) && (n <=? 32)
   || (n =? 133) || (n =? 160))%N.

(** [str.lower] on one character: A-Z and the Latin-1 capitals. *)
Definition lower_char (c : ascii) : ascii :=
  let n := code c in
  if ((65 <=? n) && (n <=? 90)
      || (192 <=? n) && (n <=? 222) && negb (n =? 215))%N
  then ascii_of_N (n + 32) else c.

Fixpoint lower (s : string) : string :=
  match s with
  | EmptyString => EmptyString
  | String c s' => String (lower_char c) (lower s')
  end.

Fixpoint lstrip (s : string) : string :=
  match s with
  | EmptyString => EmptyString
  | String c s' => if is_space c then lstrip s' else s
  end.

Fixpoint rstrip (s : string) : string :=
  match s with
  | EmptyString => EmptyString
  | String c s' =>
      match rstrip s' with
      | EmptyString => if is_space c then EmptyString else String c EmptyString
      | r => String c r
      end
  end.

(** [s.strip()] *)
Definition strip (s : string) : string := rstrip (lstrip s).

(** [s.rstrip(ch)] for a single character [ch]. *)
Fixpoint rstrip_char (ch : ascii) (s : string) : string :=
  match s with
  | EmptyString => EmptyString
  | String c s' =>
      match rstrip_char ch s' with
      | EmptyString => if Ascii.eqb c ch then EmptyString else String c EmptyString
      | r => String c r
      end
  end.

(** [s.startswith(p)] *)
Definition startswith (s p : string) : bool := String.prefix p s.

(** [s.endswith(p)] *)
Definition endswith (s p : string) : bool :=
  let n := String.length s in
  let m := String.length p in
  (m <=? n)%nat && String.eqb (String.substring (n - m) m s) p.

(** [s[:-k]] for [0 < k] *)
Definition drop_last (k : nat) (s : string) : string :=
  String.substring 0 (String.length s - k) s.

(** [ch in s] for a single character *)
Fixpoint contains_char (ch : ascii) (s : string) : bool :=
  match s with
  | EmptyString => false
  | String c s' => Ascii.eqb c ch || contains_char ch s'
  end.

(** [sub in s] *)
Fixpoint contains (sub s : string) : bool :=
  String.prefix sub s ||
  match s with
  | EmptyString => false
  | String _ s' => contains sub s'
  end.

(** [s.partition(ch)] for a single character that occurs in [s]:
    the text before the first [ch], and the text after it. *)
Fixpoint partition (ch : ascii) (s : string) : string * string :=
  match s with
  | EmptyString => (EmptyString, EmptyString)
  | String c s' =>
      if Ascii.eqb c ch then (EmptyString, s')
      else let '(b, a) := partition ch s' in (String c b, a)
  end.

(** Line boundaries of [str.splitlines] other than CR and LF:
    VT, FF, FS, GS, RS, NEL. *)
Definition is_linebreak (c : ascii) : bool :=
  let n := code c in
  ((n =? 11) || (n =? 12) || (n =? 28) || (n =? 29) || (n =? 30) || (n =? 133))%N.

Fixpoint splitlines_from (after_cr : bool) (cur : string) (s : string) : list string :=
  match s with
  | EmptyString => if decide (cur = EmptyString) then [] else [cur]
  | String c s' =>
      if Ascii.eqb c "010" then
        if after_cr then splitlines_from false cur s'
        else cur :: splitlines_from false EmptyString s'
      else if Ascii.eqb c "013" then cur :: splitlines_from true EmptyString s'
      else if is_linebreak c then cur :: splitlines_from false EmptyString s'
      else splitlines_from false (cur ++ String c EmptyString) s'
  end.

(** [s.splitlines()] *)
Definition splitlines (s : string) : list string :=
  splitlines_from false EmptyString s.

(** [re.sub(r"\s+", " ", s)]; [in_run] tells that the previous character
    was whitespace. *)
Fixpoint sub_ws_from (in_run : bool) (s : string) : string :=
  match s with
  | EmptyString => EmptyString
  | String c s' =>
      if is_space c then
        if in_run then sub_ws_from true s'
        else String " " (sub_ws_from true s')
      else String c (sub_ws_from false s')
  end.

Definition sub_ws (s : string) : string := sub_ws_from false s.

(** [s.split()]: the maximal runs of non-whitespace characters. *)
Fixpoint split_from (cur : string) (s : string) : list string :=
  match s with
  | EmptyString => if decide (cur = EmptyString) then [] else [cur]
  | String c s' =>
      if is_space c then
        if decide (cur = EmptyString) then split_from EmptyString s'
        else cur :: split_from EmptyString s'
      else split_from (cur ++ String c EmptyString) s'
  end.

Definition split (s : string) : list string := split_from EmptyString s.

End PyStr.

(** ** urllib.parse results *)

Record ParseResult := mkParseResult {
  pr_scheme : string;
  pr_netloc : string;
  pr_path : string;
  pr_params : string;
  pr_query : string;
  pr_fragment : string
}.

(** ** models.py: RobotsData *)

Record Rule := mkRule { agent : string; path : string }.

Record RobotsData := mkRobotsData {
  robots_url : string;
  robots_exists : bool;
  robots_status_code : Z;
  raw_text : string;
  sitemap_urls : list string;
  disallow_rules : list Rule;
  allow_rules : list Rule;
  crawl_delay : option Q;
  parse_errors : list string
}.

(** ** crawler/robots.py *)

Module Robots.
Section robots.
(** [float(value)], [None] where Python raises [ValueError]. *)
Variable pyfloat : string -> option Q.
(** [repr] of a string, as it appears in formatted messages. *)
Variable repr : string -> string.
(** [urllib.parse.urlparse], [None] where it raises [ValueError]. *)
Variable urlparse : string -> option ParseResult.

(** The local variables of the loop of [_parse_robots] together with
    the record it mutates. *)
Record ParseState := mkParseState {
  current_agents : list string;
  in_agent_block : bool;
  data : RobotsData
}.

Definition add_parse_error (msg : string) (d : RobotsData) : RobotsData :=
  mkRobotsData (robots_url d) (robots_exists d) (robots_status_code d) (raw_text d)
    (sitemap_urls d) (disallow_rules d) (allow_rules d) (crawl_delay d)
    (parse_errors d ++ [msg]).

Definition add_disallow (rs : list Rule) (d : RobotsData) : RobotsData :=
  mkRobotsData (robots_url d) (robots_exists d) (robots_status_code d) (raw_text d)
    (sitemap_urls d) (disallow_rules d ++ rs) (allow_rules d) (crawl_delay d)
    (parse_errors d).

Definition add_allow (rs : list Rule) (d : RobotsData) : RobotsData :=
  mkRobotsData (robots_url d) (robots_exists d) (robots_status_code d) (raw_text d)
    (sitemap_urls d) (disallow_rules d) (allow_rules d ++ rs) (crawl_delay d)
    (parse_errors d).

Definition set_crawl_delay (q : Q) (d : RobotsData) : RobotsData :=
  mkRobotsData (robots_url d) (robots_exists d) (robots_status_code d) (raw_text d)
    (sitemap_urls d) (disallow_rules d) (allow_rules d) (Some q)
    (parse_errors d).

Definition add_sitemap (u : string) (d : RobotsData) : RobotsData :=
  mkRobotsData (robots_url d) (robots_exists d) (robots_status_code d) (raw_text d)
    (sitemap_urls d ++ [u]) (disallow_rules d) (allow_rules d) (crawl_delay d)
    (parse_errors d).

(** The body of [for raw_line in data.raw_text.splitlines()]. *)
Definition parse_line (st : ParseState) (raw_line : string) : ParseState :=
  let line := PyStr.strip raw_line in
  if bool_decide (line = "") || PyStr.startswith line "#" then
    if bool_decide (line = "") && in_agent_block st
    then mkParseState [] false (data st)
    else st
  else if negb (PyStr.contains_char ":" line) then
    mkParseState (current_agents st) (in_agent_block st)
      (add_parse_error ("Invalid line (no colon): " ++ repr line) (data st))
  else
    let '(directive, value) := PyStr.partition ":" line in
    let directive := PyStr.lower (PyStr.strip directive) in
    let value := PyStr.strip value in
    if decide (directive = "user-agent") then
      let agents := if in_agent_block st then current_agents st else [] in
      mkParseState (agents ++ [value]) true (data st)
    else if decide (directive = "disallow") then
      mkParseState (current_agents st) true
        (add_disallow ((fun a => mkRule a value) <$> current_agents st) (data st))
    else if decide (directive = "allow") then
      mkParseState (current_agents st) true
        (add_allow ((fun a => mkRule a value) <$> current_agents st) (data st))
    else if decide (directive = "crawl-delay") then
      match pyfloat value with
      | Some q =>
          mkParseState (current_agents st) (in_agent_block st)
            (set_crawl_delay q (data st))
      | None =>
          mkParseState (current_agents st) (in_agent_block st)
            (add_parse_error ("Invalid crawl-delay value: " ++ repr value) (data st))
      end
    else if decide (directive = "sitemap") then
      if decide (value = "") then st
      else mkParseState (current_agents st) (in_agent_block st)
             (add_sitemap value (data st))
    else st.

Definition parse_lines (st : ParseState) (lines : list string) : ParseState :=
  fold_left parse_line lines st.

Definition _parse_robots (d : RobotsData) : RobotsData :=
  data (parse_lines (mkParseState [] false d) (PyStr.splitlines (raw_text d))).

(** One of the two rule-matching loops of [is_url_allowed];
    [skip_empty] is the [if not rule_path: continue] of the second. *)
Definition best_len (skip_empty : bool) (url_path : string) (rule_paths : list string) : Z :=
  fold_left
    (fun best rule_path =>
       if skip_empty && bool_decide (rule_path = "") then best
       else if PyStr.startswith url_path rule_path
               && (best <? Z.of_nat (String.length rule_path))%Z
            then Z.of_nat (String.length rule_path)
            else best)
    rule_paths (-1)%Z.

Definition rules_for (agents_to_check : list string) (rules : list Rule) : list string :=
  path <$> filter (fun r => PyStr.lower (agent r) ∈ agents_to_check) rules.

(** [None] where the call raises (in [urlparse]). *)
Definition is_url_allowed (url : string) (robots_data : RobotsData) (user_agent : string)
  : option bool :=
  if negb (robots_exists robots_data) then Some true
  else
    parsed ← urlparse url;
    let url_path := if decide (pr_path parsed = "") then "/" else pr_path parsed in
    let agents_to_check := [PyStr.lower user_agent; "*"] in
    let allows := rules_for agents_to_check (allow_rules robots_data) in
    let disallows := rules_for agents_to_check (disallow_rules robots_data) in
    let best_allow_len := best_len false url_path allows in
    let best_disallow_len := best_len true url_path disallows in
    if (best_disallow_len <? 0)%Z then Some true
    else Some (best_disallow_len <=? best_allow_len)%Z.

End robots.
End Robots.

(** ** The robots rules in the words of the specification *)

Module RobotsSpec.

(** The rule is declared for the agent's lowercase name or for [*]. *)
Definition relevant (user_agent : string) (r : Rule) : Prop :=
  PyStr.lower (agent r) = PyStr.lower user_agent \/ PyStr.lower (agent r) = "*".

(** The paths of the relevant rules that are prefixes of the URL's
    path; with [nonempty_only], empty paths are left out. *)
Definition matching (nonempty_only : bool) (user_agent url_path : string)
    (rules : list Rule) : list string :=
  filter (fun rp => String.prefix rp url_path = true
                    /\ (nonempty_only = true -> rp <> ""))
    (path <$> filter (relevant user_agent) rules).

(** Length of the longest path of the list, [-1] for the empty list. *)
Definition longest (paths : list string) : Z :=
  fold_right Z.max (-1)%Z ((fun rp => Z.of_nat (String.length rp)) <$> paths).

(** The path component the rules are matched against. *)
Definition path_of (parsed : ParseResult) : string :=
  if decide (pr_path parsed = "") then "/" else pr_path parsed.

(** The lowercased directive name of a robots.txt line, if the line is
    a [Field: value] line. *)
Definition directive_of (raw_line : string) : option string :=
  let line := PyStr.strip raw_line in
  if bool_decide (line = "") || PyStr.startswith line "#" then None
  else if negb (PyStr.contains_char ":" line) then None
  else Some (PyStr.lower (PyStr.strip (fst (PyStr.partition ":" line)))).

(** Outside an agent block there are no current agents. *)
Definition agents_closed (st : Robots.ParseState) : Prop :=
  Robots.in_agent_block st = false -> Robots.current_agents st = [].

(** [d'] is [d] with further entries appended to its lists, and
    possibly another crawl delay. *)
Definition extends (d d' : RobotsData) : Prop :=
  robots_url d' = robots_url d
  /\ robots_exists d' = robots_exists d
  /\ robots_status_code d' = robots_status_code d
  /\ raw_text d' = raw_text d
  /\ sitemap_urls d `prefix_of` sitemap_urls d'
  /\ disallow_rules d `prefix_of` disallow_rules d'
  /\ allow_rules d `prefix_of` allow_rules d'
  /\ parse_errors d `prefix_of` parse_errors d'.

(** A line that is blank or a comment. *)
Definition skipped (raw_line : string) : Prop :=
  PyStr.strip raw_line = "" \/ PyStr.startswith (PyStr.strip raw_line) "#" = true.

End RobotsSpec.

(** ** Sample URLs *)

Module UrlSamples.
(** The values of [urllib.parse.urlparse] on the URLs of the examples
    (the only URLs it is applied to). *)
Definition urlparse (url : string) : option ParseResult :=
  if decide (url = "http://example.com/private/public/page")
  then Some (mkParseResult "http" "example.com" "/private/public/page" "" "" "")
  else if decide (url = "http://example.com/private/secret")
  then Some (mkParseResult "http" "example.com" "/private/secret" "" "" "")
  else if decide (url = "http://example.com/public")
  then Some (mkParseResult "http" "example.com" "/public" "" "" "")
  else if decide (url = "http://h/")
  then Some (mkParseResult "http" "h" "/" "" "" "")
  else if decide (url = "http://h/a;x/")
  then Some (mkParseResult "http" "h" "/a;x/" "" "" "")
  else if decide (url = "http://h/a;x")
  then Some (mkParseResult "http" "h" "/a" "x" "" "")
  else if decide (url = "http://h/a")
  then Some (mkParseResult "http" "h" "/a" "" "" "")
  else if decide (url = "http://h/b")
  then Some (mkParseResult "http" "h" "/b" "" "" "")
  else if decide (url = "http://h/c")
  then Some (mkParseResult "http" "h" "/c" "" "" "")
  else if decide (url = "http://h/d")
  then Some (mkParseResult "http" "h" "/d" "" "" "")
  else if decide (url = "http://h/e")
  then Some (mkParseResult "http" "h" "/e" "" "" "")
  else None.

(** [urllib.parse.urlunparse] on components with a scheme and a host. *)
Definition urlunparse (p : ParseResult) : string :=
  pr_scheme p +:+ "://" +:+ pr_netloc p +:+ pr_path p
  +:+ (if decide (pr_params p = "") then "" else ";" +:+ pr_params p)
  +:+ (if decide (pr_query p = "") then "" else "?" +:+ pr_query p)
  +:+ (if decide (pr_fragment p = "") then "" else "#" +:+ pr_fragment p).
End UrlSamples.

(** ** Sample data for the robots gate *)

Module RobotsSamples.
Definition nl : string := String "010" EmptyString.

(** [Disallow: /private] and [Allow: /private/public] for agent [*]. *)
Definition private_public : RobotsData :=
  mkRobotsData "http://example.com/robots.txt" true 200 "" []
    [mkRule "*" "/private"] [mkRule "*" "/private/public"] None [].

(** A group, a blank line, a directive with no group, a new group. *)
Definition orphan_text : string :=
  "User-agent: *" +:+ nl +:+ "Disallow: /a" +:+ nl +:+ nl
  +:+ "Disallow: /b" +:+ nl +:+ "User-agent: x" +:+ nl +:+ "Allow: /c" +:+ nl.

Definition orphan_data : RobotsData :=
  mkRobotsData "http://example.com/robots.txt" true 200 orphan_text [] [] [] None [].

Definition no_float (s : string) : option Q := None.
Definition quote (s : string) : string := "'" +:+ s +:+ "'".

(** Only comments and blank lines. *)
Definition comments_text : string :=
  "# robots.txt" +:+ nl +:+ nl +:+ "   # nothing to see" +:+ nl.

Definition comments_data : RobotsData :=
  mkRobotsData "http://example.com/robots.txt" true 200 comments_text [] [] [] None [].

(** [Disallow:] with no path, for every agent. *)
Definition allow_all : RobotsData :=
  mkRobotsData "http://example.com/robots.txt" true 200 "" []
    [mkRule "*" ""] [] None [].
End RobotsSamples.

(** ** models.py: LinkData, PageData

    Of [PageData], the fields that the modelled code reads or writes;
    [response_time_ms] (wall-clock time) and the fields filled by the
    other parser steps are left out. *)

Module LinkData.
Record t := mk {
  url : string;
  anchor_text : string;
  rel : string;
  nofollow : bool;
  status_code : Z;
  is_broken : bool;
  redirect_chain : list string
}.
End LinkData.

Module PageData.
Record t := mk {
  url : string;
  status_code : Z;
  content_type : string;
  page_size_bytes : Z;
  redirect_chain : list string;
  final_url : string;
  response_headers : list (string * string);
  crawl_error : option string;
  is_html : bool;
  html : string;
  text_content : string;
  word_count : Z;
  content_hash : string;
  internal_links : list LinkData.t;
  external_links : list LinkData.t;
  is_indexable : bool;
  x_robots_tag : option string;
  depth : Z
}.

(** [PageData(url=..., final_url=..., depth=...)]: the dataclass
    defaults for everything else. *)
Definition new (u final : string) (d : Z) : t :=
  mk u 0 "" 0 [] final [] None true "" "" 0 "" [] [] true None d.

Definition set_status_code (v : Z) (p : t) : t :=
  let '(mk a0 a1 a2 a3 a4 a5 a6 a7 a8 a9 a10 a11 a12 a13 a14 a15 a16 a17) := p in
  mk a0 v a2 a3 a4 a5 a6 a7 a8 a9 a10 a11 a12 a13 a14 a15 a16 a17.

Definition set_content_type (v : string) (p : t) : t :=
  let '(mk a0 a1 a2 a3 a4 a5 a6 a7 a8 a9 a10 a11 a12 a13 a14 a15 a16 a17) := p in
  mk a0 a1 v a3 a4 a5 a6 a7 a8 a9 a10 a11 a12 a13 a14 a15 a16 a17.

Definition set_page_size_bytes (v : Z) (p : t) : t :=
  let '(mk a0 a1 a2 a3 a4 a5 a6 a7 a8 a9 a10 a11 a12 a13 a14 a15 a16 a17) := p in
  mk a0 a1 a2 v a4 a5 a6 a7 a8 a9 a10 a11 a12 a13 a14 a15 a16 a17.

Definition set_redirect_chain (v : list string) (p : t) : t :=
  let '(mk a0 a1 a2 a3 a4 a5 a6 a7 a8 a9 a10 a11 a12 a13 a14 a15 a16 a17) := p in
  mk a0 a1 a2 a3 v a5 a6 a7 a8 a9 a10 a11 a12 a13 a14 a15 a16 a17.

Definition set_final_url (v : string) (p : t) : t :=
  let '(mk a0 a1 a2 a3 a4 a5 a6 a7 a8 a9 a10 a11 a12 a13 a14 a15 a16 a17) := p in
  mk a0 a1 a2 a3 a4 v a6 a7 a8 a9 a10 a11 a12 a13 a14 a15 a16 a17.

Definition set_response_headers (v : list (string * string)) (p : t) : t :=
  let '(mk a0 a1 a2 a3 a4 a5 a6 a7 a8 a9 a10 a11 a12 a13 a14 a15 a16 a17) := p in
  mk a0 a1 a2 a3 a4 a5 v a7 a8 a9 a10 a11 a12 a13 a14 a15 a16 a17.

Definition set_crawl_error (v : option string) (p : t) : t :=
  let '(mk a0 a1 a2 a3 a4 a5 a6 a7 a8 a9 a10 a11 a12 a13 a14 a15 a16 a17) := p in
  mk a0 a1 a2 a3 a4 a5 a6 v a8 a9 a10 a11 a12 a13 a14 a15 a16 a17.

Definition set_is_html (v : bool) (p : t) : t :=
  let '(mk a0 a1 a2 a3 a4 a5 a6 a7 a8 a9 a10 a11 a12 a13 a14 a15 a16 a17) := p in
  mk a0 a1 a2 a3 a4 a5 a6 a7 v a9 a10 a11 a12 a13 a14 a15 a16 a17.

Definition set_html (v : string) (p : t) : t :=
  let '(mk a0 a1 a2 a3 a4 a5 a6 a7 a8 a9 a10 a11 a12 a13 a14 a15 a16 a17) := p in
  mk a0 a1 a2 a3 a4 a5 a6 a7 a8 v a10 a11 a12 a13 a14 a15 a16 a17.

Definition set_text_content (v : string) (p : t) : t :=
  let '(mk a0 a1 a2 a3 a4 a5 a6 a7 a8 a9 a10 a11 a12 a13 a14 a15 a16 a17) := p in
  mk a0 a1 a2 a3 a4 a5 a6 a7 a8 a9 v a11 a12 a13 a14 a15 a16 a17.

Definition set_word_count (v : Z) (p : t) : t :=
  let '(mk a0 a1 a2 a3 a4 a5 a6 a7 a8 a9 a10 a11 a12 a13 a14 a15 a16 a17) := p in
  mk a0 a1 a2 a3 a4 a5 a6 a7 a8 a9 a10 v a12 a13 a14 a15 a16 a17.

Definition set_content_hash (v : string) (p : t) : t :=
  let '(mk a0 a1 a2 a3 a4 a5 a6 a7 a8 a9 a10 a11 a12 a13 a14 a15 a16 a17) := p in
  mk a0 a1 a2 a3 a4 a5 a6 a7 a8 a9 a10 a11 v a13 a14 a15 a16 a17.

Definition set_is_indexable (v : bool) (p : t) : t :=
  let '(mk a0 a1 a2 a3 a4 a5 a6 a7 a8 a9 a10 a11 a12 a13 a14 a15 a16 a17) := p in
  mk a0 a1 a2 a3 a4 a5 a6 a7 a8 a9 a10 a11 a12 a13 a14 v a16 a17.

Definition set_x_robots_tag (v : option string) (p : t) : t :=
  let '(mk a0 a1 a2 a3 a4 a5 a6 a7 a8 a9 a10 a11 a12 a13 a14 a15 a16 a17) := p in
  mk a0 a1 a2 a3 a4 a5 a6 a7 a8 a9 a10 a11 a12 a13 a14 a15 v a17.

Definition set_internal_links (v : list LinkData.t) (p : t) : t :=
  let '(mk a0 a1 a2 a3 a4 a5 a6 a7 a8 a9 a10 a11 a12 a13 a14 a15 a16 a17) := p in
  mk a0 a1 a2 a3 a4 a5 a6 a7 a8 a9 a10 a11 a12 v a14 a15 a16 a17.

Definition set_external_links (v : list LinkData.t) (p : t) : t :=
  let '(mk a0 a1 a2 a3 a4 a5 a6 a7 a8 a9 a10 a11 a12 a13 a14 a15 a16 a17) := p in
  mk a0 a1 a2 a3 a4 a5 a6 a7 a8 a9 a10 a11 a12 a13 v a15 a16 a17.
End PageData.

(** ** The exceptions the modelled code distinguishes *)

Inductive PyExc :=
| SSLError (msg : string)
| ConnectionError (msg : string)
| Timeout (msg : string)
| TooManyRedirects (msg : string)
| ValueError (msg : string)
| OtherError (msg : string).

(** [str(exc)] *)
Definition exc_str (e : PyExc) : string :=
  match e with
  | SSLError m | ConnectionError m | Timeout m | TooManyRedirects m
  | ValueError m | OtherError m => m
  end.

(** ** [int(s)] for a string argument *)

Module PyInt.
Definition digit (c : ascii) : option Z :=
  let n := PyStr.code c in
  if ((48 <=? n) && (n <=? 57))%N then Some (Z.of_N n - 48)%Z else None.

(** The white space that [int()] skips around a literal, among the
    code points below 256: tab to carriage return, the space, U+0085
    and U+00A0.  The separators U+001C to U+001F, which [str.strip]
    removes, are not skipped. *)
Definition is_space (c : ascii) : bool :=
  let n := PyStr.code c in
  ((9 <=? n) && (n <=? 13) || (n =? 32) || (n =? 133) || (n =? 160))%N.

Fixpoint skip_space (s : string) : string :=
  match s with
  | String c s' => if is_space c then skip_space s' else s
  | EmptyString => s
  end.

(** [sys.get_int_max_str_digits()], as CPython sets it. *)
Definition _MAX_STR_DIGITS : Z := 4300.

(** The run of decimal digits at the start of [s], single underscores
    allowed between digits: its value, the number of its digits, and
    what follows it.  [None] for a run that is empty, or that starts or
    ends with an underscore, or that holds two underscores in a row. *)
Fixpoint digits (acc count : Z) (after_digit : bool) (s : string)
  : option (Z * Z * string) :=
  match s with
  | EmptyString => if after_digit then Some (acc, count, s) else None
  | String c s' =>
      match digit c with
      | Some d => digits (10 * acc + d)%Z (count + 1)%Z true s'
      | None =>
          if Ascii.eqb c "_"
          then if after_digit then digits acc count false s' else None
          else if after_digit then Some (acc, count, s) else None
      end
  end.

(** What [int(s)] comes to: a value, or one of its two [ValueError]s. *)
Inductive parsed :=
| Value (n : Z)
| Invalid
| TooLong (count : Z).

(** White space, an optional sign, the digits, white space.  The
    number of digits is checked against the limit before what follows
    the digits is looked at. *)
Definition parse (s : string) : parsed :=
  let s := skip_space s in
  let '(negative, body) :=
    match s with
    | String "+" r => (false, r)
    | String "-" r => (true, r)
    | _ => (false, s)
    end in
  match digits 0 0 false body with
  | None => Invalid
  | Some (n, count, rest) =>
      if (_MAX_STR_DIGITS <? count)%Z then TooLong count
      else if bool_decide (skip_space rest = "")
           then Value (if negative then - n else n)%Z
           else Invalid
  end.

(** [int(s)]; [None] where Python raises [ValueError]. *)
Definition of_str (s : string) : option Z :=
  match parse s with
  | Value n => Some n
  | _ => None
  end.

(** The message of the [ValueError] that [int(s)] raises. *)
Definition error (repr : string -> string) (s : string) : string :=
  match parse s with
  | TooLong count =>
      "Exceeds the limit (4300 digits) for integer string conversion: value has "
      +:+ pretty count
      +:+ " digits; use sys.set_int_max_str_digits() to increase the limit"
  | _ => "invalid literal for int() with base 10: " +:+ repr s
  end.
End PyInt.

(** ** requests: the response object *)

Module Response.
Record t := mk {
  status_code : Z;
  url : string;
  headers : list (string * string);
  text : string;
  content : string
}.

(** [resp.headers.get(name)]: header names compare case-insensitively. *)
Fixpoint header (name : string) (hs : list (string * string)) : option string :=
  match hs with
  | [] => None
  | (k, v) :: hs' =>
      if decide (PyStr.lower k = PyStr.lower name) then Some v else header name hs'
  end.

(** [resp.headers.get(name, "")] *)
Definition header_or_empty (name : string) (r : t) : string :=
  default "" (header name (headers r)).

Definition REDIRECT_STATI : list Z := [301; 302; 303; 307; 308]%Z.

(** [resp.is_redirect] *)
Definition is_redirect (r : t) : bool :=
  bool_decide (is_Some (header "location" (headers r)))
  && bool_decide (status_code r ∈ REDIRECT_STATI).
End Response.

(** ** crawler/fetcher.py *)

Module Fetcher.

Definition _MAX_REDIRECTS : nat := 10.

Section fetcher.
(** [session.get(url, headers=..., timeout=..., allow_redirects=False)]:
    the response, or the exception it raises. *)
Variable session_get : string -> PyExc + Response.t.
Variable urljoin : string -> string -> string.
Variable repr : string -> string.

(** The loop of [_follow_redirects], [fuel] iterations left: the
    returned response ([None] for the function's [return None]), the
    mutated page, and the URLs requested, in order. *)
Fixpoint follow (fuel : nat) (current_url : string) (seen_urls : gset string)
    (page : PageData.t) (requested : list string)
  : option Response.t * PageData.t * list string :=
  match fuel with
  | O => (None, page, requested)
  | S fuel' =>
      match session_get current_url with
      | inl exc =>
          (None,
           PageData.set_status_code 0 (PageData.set_crawl_error (Some (exc_str exc)) page),
           requested ++ [current_url])
      | inr resp =>
          let requested := requested ++ [current_url] in
          if Response.is_redirect resp
             || bool_decide (Response.status_code resp ∈ [301; 302; 303; 307; 308]%Z)
          then
            let location := Response.header_or_empty "location" resp in
            if decide (location = "") then (None, page, requested)
            else
              let next_url := urljoin current_url location in
              let page :=
                PageData.set_redirect_chain
                  (PageData.redirect_chain page ++ [current_url]) page in
              if bool_decide (next_url ∈ seen_urls) || bool_decide (next_url = current_url)
              then
                (Some resp,
                 PageData.set_status_code (Response.status_code resp)
                   (PageData.set_crawl_error (Some "Redirect loop detected") page),
                 requested)
              else follow fuel' next_url (seen_urls ∪ {[current_url]}) page requested
          else (Some resp, page, requested)
      end
  end.

Definition _follow_redirects (url : string) (page : PageData.t)
  : option Response.t * PageData.t * list string :=
  follow _MAX_REDIRECTS url ∅ page [].

(** The [except] clauses of [fetch_page]. *)
Definition handle (exc : PyExc) (page : PageData.t) : PageData.t :=
  let msg :=
    match exc with
    | SSLError m => "SSL Error: " +:+ m
    | ConnectionError m => "Connection Error: " +:+ m
    | Timeout _ => "Request timed out"
    | TooManyRedirects _ => "Too many redirects"
    | ValueError m | OtherError m => "Unexpected error: " +:+ m
    end in
  PageData.set_status_code 0 (PageData.set_crawl_error (Some msg) page).

(** The statements of the [try] block after a response was obtained. *)
Definition record_response (resp : Response.t) (head_only : bool) (page : PageData.t)
  : PageData.t :=
  let page := PageData.set_status_code (Response.status_code resp) page in
  let page := PageData.set_final_url (Response.url resp) page in
  let page := PageData.set_response_headers (Response.headers resp) page in
  let content_type := PyStr.lower (Response.header_or_empty "content-type" resp) in
  let page := PageData.set_content_type content_type page in
  let x_robots := Response.header_or_empty "x-robots-tag" resp in
  let page :=
    if decide (x_robots = "") then page
    else
      let page := PageData.set_x_robots_tag (Some x_robots) page in
      if PyStr.contains "noindex" (PyStr.lower x_robots)
      then PageData.set_is_indexable false page else page in
  if PyStr.contains "text/html" content_type then
    PageData.set_page_size_bytes (Z.of_nat (String.length (Response.content resp)))
      (PageData.set_html (Response.text resp) (PageData.set_is_html true page))
  else if negb head_only then
    let page := PageData.set_is_html false page in
    match Response.header "content-length" (Response.headers resp) with
    | None => PageData.set_page_size_bytes 0 page
    | Some v =>
        if decide (v = "") then PageData.set_page_size_bytes 0 page
        else
          match PyInt.of_str v with
          | Some n => PageData.set_page_size_bytes n page
          | None =>
              handle (ValueError (PyInt.error repr v)) page
          end
    end
  else page.

(** [fetch_page]: the page and the URLs requested for it. *)
Definition fetch_page (url : string) (depth : Z) (head_only : bool)
  : PageData.t * list string :=
  let page := PageData.new url url depth in
  let '(resp, page, requested) := _follow_redirects url page in
  match resp with
  | None => (page, requested)
  | Some resp => (record_response resp head_only page, requested)
  end.

(** [session.head(url, headers=..., timeout=..., allow_redirects=False)] *)
Variable session_head : string -> PyExc + Response.t.
(** [session.get(url, ..., allow_redirects=False, stream=True)] *)
Variable session_get_stream : string -> PyExc + Response.t.

(** The request of one pass of the loop of [check_url_status]: HEAD,
    and GET instead when HEAD is answered with 405. *)
Definition probe (current_url : string) : PyExc + Response.t :=
  match session_head current_url with
  | inl exc => inl exc
  | inr resp =>
      if decide (Response.status_code resp = 405%Z)
      then session_get_stream current_url
      else inr resp
  end.

(** The loop of [check_url_status], [fuel] passes left. *)
Fixpoint check (fuel : nat) (current_url : string) (redirect_chain : list string)
  : Z * list string :=
  match fuel with
  | O => (0%Z, redirect_chain)
  | S fuel' =>
      match probe current_url with
      | inl _ => (0%Z, redirect_chain)
      | inr resp =>
          if Response.is_redirect resp
             || bool_decide (Response.status_code resp ∈ [301; 302; 303; 307; 308]%Z)
          then
            let location := Response.header_or_empty "location" resp in
            if decide (location = "") then (Response.status_code resp, redirect_chain)
            else
              let next_url := urljoin current_url location in
              check fuel' next_url (redirect_chain ++ [current_url])
          else (Response.status_code resp, redirect_chain)
      end
  end.

Definition check_url_status (url : string) : Z * list string :=
  check _MAX_REDIRECTS url [].

End fetcher.
End Fetcher.

(** ** requests: a GET that follows redirects *)

Module Requests.
(** What [session.get(url, timeout=..., allow_redirects=True)] comes
    to: a response, a [requests.RequestException] (with its message), or
    an exception of another class. *)
Inductive reply :=
| Answer (resp : Response.t)
| RequestException (msg : string)
| OtherException (exc : PyExc).
End Requests.

(** ** crawler/robots.py: fetching the file *)

Module RobotsFetch.
Import Requests.

Section fetch.
Variable pyfloat : string -> option Q.
Variable repr : string -> string.
Variable urlparse : string -> option ParseResult.
Variable urlparse_error : string -> string.
Variable session_get_follow : string -> reply.

(** [None] where [urlparse] raises. *)
Definition _build_robots_url (domain_url : string) : option string :=
  parsed ← urlparse domain_url;
  Some (pr_scheme parsed +:+ "://" +:+ pr_netloc parsed +:+ "/robots.txt").

(** The record, or the exception that leaves the function. *)
Definition fetch_and_parse_robots (domain_url : string) : PyExc + RobotsData :=
  match _build_robots_url domain_url with
  | None => inl (ValueError (urlparse_error domain_url))
  | Some robots_url =>
      match session_get_follow robots_url with
      | Answer resp =>
          let status := Response.status_code resp in
          if decide (status = 200%Z) then
            inr (Robots._parse_robots pyfloat repr
                   (mkRobotsData robots_url true status (Response.text resp)
                      [] [] [] None []))
          else if decide (status = 404%Z) then
            inr (mkRobotsData robots_url false status "" [] [] [] None [])
          else
            inr (mkRobotsData robots_url false status "" [] [] [] None
                   ["robots.txt returned HTTP " +:+ pretty status])
      | RequestException msg =>
          inr (mkRobotsData robots_url false 0 "" [] [] [] None
                 ["Failed to fetch robots.txt: " +:+ msg])
      | OtherException exc => inl exc
      end
  end.
End fetch.
End RobotsFetch.

(** ** Redirect chains, in the words of the specification *)

Module FetcherSpec.
Section spec.
Variable session_get : string -> PyExc + Response.t.
Variable urljoin : string -> string -> string.

(** Requesting [u] answers with the redirect [resp], whose [Location]
    header resolves to [next]. *)
Definition redirects_to (u : string) (resp : Response.t) (next : string) : Prop :=
  session_get u = inr resp
  /\ Response.status_code resp ∈ Response.REDIRECT_STATI
  /\ Response.header_or_empty "location" resp <> ""
  /\ urljoin u (Response.header_or_empty "location" resp) = next.

(** The hops [chain i -> chain (i + 1)] for [i] in [idx] are redirects
    with a Location header. *)
Definition redirect_hops (chain : nat -> string) (idx : list nat) : Prop :=
  Forall (fun i => exists resp, redirects_to (chain i) resp (chain (S i))) idx.

End spec.

Section status.
Variable session_head : string -> PyExc + Response.t.
Variable session_get_stream : string -> PyExc + Response.t.
Variable urljoin : string -> string -> string.

(** The status check of [u] (HEAD, or GET after a 405) is answered with
    a redirect whose [Location] header resolves to [next]. *)
Definition probe_redirects_to (u next : string) : Prop :=
  exists resp,
    Fetcher.probe session_head session_get_stream u = inr resp
    /\ Response.status_code resp ∈ Response.REDIRECT_STATI
    /\ Response.header_or_empty "location" resp <> ""
    /\ urljoin u (Response.header_or_empty "location" resp) = next.

(** The status check of [u] ends at [u] with the response [resp]: no
    redirect status. *)
Definition probe_answers (u : string) (resp : Response.t) : Prop :=
  Fetcher.probe session_head session_get_stream u = inr resp
  /\ Response.status_code resp ∉ Response.REDIRECT_STATI.
End status.
End FetcherSpec.

(** ** Sample servers *)

Module FetcherSamples.
Definition quote (s : string) : string := "'" +:+ s +:+ "'".

(** Every URL redirects to a longer one: an endless chain, no loop. *)
Definition endless (u : string) : PyExc + Response.t :=
  inr (Response.mk 302 u [("Location", u +:+ "x")] "" "").

(** [urljoin] on an absolute second argument. *)
Definition join_absolute (base loc : string) : string := loc.

Definition endless_chain (i : nat) : string :=
  Nat.iter i (fun u => u +:+ "x") "http://site.test/".

Definition A : string := "http://site.test/a".
Definition B : string := "http://site.test/b".

(** [A] redirects to [B] and [B] back to [A]; [B]'s response carries
    the given [Content-Length]. *)
Definition ping_pong (content_length : string) (u : string) : PyExc + Response.t :=
  if decide (u = A) then
    inr (Response.mk 302 A [("Location", B); ("Content-Length", "0")] "" "")
  else if decide (u = B) then
    inr (Response.mk 302 B [("Location", A); ("Content-Length", content_length)] "" "")
  else inl (ConnectionError "unknown host").

(** [A], [B], [A], [B], ... *)
Definition cycle (i : nat) : string := if Nat.even i then A else B.

(** A server that refuses HEAD and answers GET. *)
Definition head_refused (u : string) : PyExc + Response.t :=
  inr (Response.mk 405 u [("Allow", "GET")] "" "").

Definition get_ok (u : string) : PyExc + Response.t :=
  inr (Response.mk 200 u [("Content-Type", "text/html")] "" "").

(** A page that may not be indexed, by its response header. *)
Definition hidden (u : string) : PyExc + Response.t :=
  inr (Response.mk 200 u
         [("Content-Type", "text/html"); ("X-Robots-Tag", "NoIndex, nofollow")]
         "<html></html>" "<html></html>").

(** [n] times the digit 1. *)
Definition ones (n : nat) : string := Nat.iter n (String "1") "".
End FetcherSamples.

(** ** crawler/parser.py: the content step *)

Module Parser.
Section parser.
(** The parsed document. *)
Variable Soup : Type.
(** The text of [body] (of the whole document when there is no body)
    after the [script], [style], [nav], [footer] and [header] elements
    were removed: [get_text(separator=" ", strip=True)]. *)
Variable visible_text : Soup -> string.
(** [hashlib.md5(s.encode("utf-8")).hexdigest()] *)
Variable md5_hexdigest : string -> string.

Definition _parse_content (soup : Soup) (page : PageData.t) : PageData.t :=
  let text := visible_text soup in
  let text := PyStr.strip (PyStr.sub_ws text) in
  let page := PageData.set_text_content text page in
  let page :=
    PageData.set_word_count
      (if decide (text = "") then 0%Z else Z.of_nat (length (PyStr.split text))) page in
  let normalized := PyStr.lower text in
  PageData.set_content_hash (md5_hexdigest normalized) page.

End parser.
End Parser.

(** ** Text normalisation, in the words of the specification *)

Module ParserSpec.

(** Whitespace collapsed to single spaces, and lower-cased. *)
Definition normalize_text (t : string) : string := PyStr.lower (PyStr.sub_ws t).

(** No whitespace character other than the space, no two spaces in a
    row and, when [after_space], no leading space. *)
Fixpoint collapsed (after_space : bool) (s : string) : bool :=
  match s with
  | EmptyString => true
  | String c s' =>
      if PyStr.is_space c
      then Ascii.eqb c " " && negb after_space && collapsed true s'
      else collapsed false s'
  end.

End ParserSpec.

(** ** Sample documents: a document is its visible text *)

Module ParserSamples.
Definition doc1 : string := "Hello   World".
Definition doc2 : string := " hello" +:+ String "010" "WORLD ".
(** Stands for the digest function. *)
Definition digest (s : string) : string := "md5:" +:+ s.
End ParserSamples.

(** ** models.py: AuditConfig *)

Module AuditConfig.
Record t := mk {
  domain : string;
  start_url : string;
  sitemap_url : string;
  max_pages : Z;
  max_workers : Z;
  request_timeout : Z;
  user_agent : string;
  respect_robots : bool;
  check_external_links : bool;
  follow_subdomains : bool;
  advanced_mode : bool
}.
End AuditConfig.

(** ** models.py: SitemapData *)

Module SitemapData.
Record t := mk {
  url : string;
  exists_ : bool;
  status_code : Z;
  is_index : bool;
  child_sitemaps : list string;
  urls : list string;
  url_count : Z;
  parse_errors : list string;
  raw_xml : string
}.

(** [SitemapData(url=..., exists=False)] *)
Definition new (u : string) : t := mk u false 0 false [] [] 0 [] "".

Definition set_exists (v : bool) (d : t) : t :=
  mk (url d) v (status_code d) (is_index d) (child_sitemaps d) (urls d)
    (url_count d) (parse_errors d) (raw_xml d).

Definition set_status_code (v : Z) (d : t) : t :=
  mk (url d) (exists_ d) v (is_index d) (child_sitemaps d) (urls d)
    (url_count d) (parse_errors d) (raw_xml d).

Definition set_is_index (v : bool) (d : t) : t :=
  mk (url d) (exists_ d) (status_code d) v (child_sitemaps d) (urls d)
    (url_count d) (parse_errors d) (raw_xml d).

Definition add_child (u : string) (d : t) : t :=
  mk (url d) (exists_ d) (status_code d) (is_index d) (child_sitemaps d ++ [u]) (urls d)
    (url_count d) (parse_errors d) (raw_xml d).

Definition add_url (u : string) (d : t) : t :=
  mk (url d) (exists_ d) (status_code d) (is_index d) (child_sitemaps d) (urls d ++ [u])
    (url_count d) (parse_errors d) (raw_xml d).

Definition set_url_count (v : Z) (d : t) : t :=
  mk (url d) (exists_ d) (status_code d) (is_index d) (child_sitemaps d) (urls d)
    v (parse_errors d) (raw_xml d).

Definition add_parse_error (msg : string) (d : t) : t :=
  mk (url d) (exists_ d) (status_code d) (is_index d) (child_sitemaps d) (urls d)
    (url_count d) (parse_errors d ++ [msg]) (raw_xml d).

Definition add_raw_xml (snippet : string) (d : t) : t :=
  mk (url d) (exists_ d) (status_code d) (is_index d) (child_sitemaps d) (urls d)
    (url_count d) (parse_errors d) (raw_xml d +:+ snippet).
End SitemapData.

(** ** crawler/sitemap.py *)

Module Sitemap.
Import Requests.

Definition _MAX_RECURSION : nat := 5.
Definition _MAX_URLS : Z := 10000.

(** What [etree.fromstring] makes of a document, as far as the code
    looks at it: the tag of the root element, then, in document order,
    the text of the [loc] child of every [sitemap] element and of every
    [url] element of the sitemap namespace that has a [loc] child with
    a non-empty text; or the syntax error it raises. *)
Inductive Xml :=
| Root (tag : string) (sitemap_locs url_locs : list string)
| XMLSyntaxError (msg : string).

(** [_local_tag]: [tag.split("}")[1]] when the tag holds a brace. *)
Definition _local_tag (tag : string) : string :=
  if PyStr.contains_char "}" tag
  then fst (PyStr.partition "}" (snd (PyStr.partition "}" tag)))
  else tag.

Section sitemap.
Variable session_get_follow : string -> reply.
Variable repr : string -> string.
(** [gzip.decompress(content).decode("utf-8", errors="replace")],
    [None] where it raises. *)
Variable gzip_decompress : string -> option string.
Variable parse_xml : string -> Xml.
(** [urllib.parse.urlparse], [None] where it raises. *)
Variable urlparse : string -> option ParseResult.
Variable urlparse_error : string -> string.

Definition _decompress_if_gzip (resp : Response.t) : string :=
  let content_type := Response.header_or_empty "content-type" resp in
  let content_encoding := Response.header_or_empty "content-encoding" resp in
  if PyStr.endswith (Response.url resp) ".gz"
     || PyStr.contains "gzip" content_type
     || PyStr.contains "gzip" content_encoding
  then
    match gzip_decompress (Response.content resp) with
    | Some raw => raw
    | None => Response.text resp
    end
  else Response.text resp.

(** The loop over the [url] elements of a URL set. *)
Definition collect_urls (url_locs : list string) (data : SitemapData.t) : SitemapData.t :=
  fold_left
    (fun data loc =>
       let page_url := PyStr.strip loc in
       if (Z.of_nat (length (SitemapData.urls data)) <? _MAX_URLS)%Z
       then SitemapData.add_url page_url data else data)
    url_locs data.

(** The state that a call works on: the record, the set
    [seen_sitemaps], and the URLs requested so far, in order. *)
Definition Walk : Type := SitemapData.t * gset string * list string.

(** [_fetch_recursive].  [levels] counts the nesting levels that are
    left: a call at depth [d] has [levels = _MAX_RECURSION + 1 - d],
    and [levels = 0] is the test [depth > _MAX_RECURSION]. *)
Fixpoint _fetch_recursive (levels : nat) (url : string) (w : Walk) : Walk :=
  match levels with
  | O => w
  | S levels' =>
      let '(data, seen_sitemaps, requested) := w in
      if bool_decide (url ∈ seen_sitemaps) then w
      else
        let seen_sitemaps := seen_sitemaps ∪ {[url]} in
        let requested := requested ++ [url] in
        match session_get_follow url with
        | RequestException msg =>
            (SitemapData.add_parse_error
               ("Could not fetch sitemap " +:+ repr url +:+ ": " +:+ msg) data,
             seen_sitemaps, requested)
        | OtherException exc =>
            (SitemapData.add_parse_error
               ("Error processing sitemap " +:+ repr url +:+ ": " +:+ exc_str exc) data,
             seen_sitemaps, requested)
        | Answer resp =>
            let data := SitemapData.set_status_code (Response.status_code resp) data in
            if negb (bool_decide (Response.status_code resp = 200%Z)) then
              (SitemapData.add_parse_error
                 ("Sitemap " +:+ repr url +:+ " returned HTTP "
                  +:+ pretty (Response.status_code resp)) data,
               seen_sitemaps, requested)
            else
              let data := SitemapData.set_exists true data in
              let raw := _decompress_if_gzip resp in
              let data :=
                SitemapData.add_raw_xml (String.substring 0 (Z.to_nat 4096) raw) data in
              match parse_xml raw with
              | XMLSyntaxError msg =>
                  (SitemapData.add_parse_error ("XML parse error: " +:+ msg) data,
                   seen_sitemaps, requested)
              | Root root_tag sitemap_locs url_locs =>
                  let tag := _local_tag root_tag in
                  if decide (tag = "sitemapindex") then
                    fold_left
                      (fun (w : Walk) loc =>
                         let '(data, seen_sitemaps, requested) := w in
                         let child_url := PyStr.strip loc in
                         _fetch_recursive levels' child_url
                           (SitemapData.add_child child_url data, seen_sitemaps, requested))
                      sitemap_locs
                      (SitemapData.set_is_index true data, seen_sitemaps, requested)
                  else if decide (tag = "urlset") then
                    (collect_urls url_locs data, seen_sitemaps, requested)
                  else
                    (SitemapData.add_parse_error
                       ("Unexpected root element <" +:+ tag +:+ "> in sitemap "
                        +:+ repr url) data,
                     seen_sitemaps, requested)
              end
        end
  end.

(** [fetch_sitemap]: the record, and the URLs requested for it. *)
Definition fetch_sitemap (url : string) : SitemapData.t * list string :=
  let '(data, _, requested) :=
    _fetch_recursive (S _MAX_RECURSION) url (SitemapData.new url, ∅, []) in
  (SitemapData.set_url_count (Z.of_nat (length (SitemapData.urls data))) data, requested).

(** [guess_sitemap_url]; [None] where [urlparse] raises. *)
Definition guess_sitemap_url (domain_url : string) : option (list string) :=
  parsed ← urlparse domain_url;
  let base := pr_scheme parsed +:+ "://" +:+ pr_netloc parsed in
  Some [ base +:+ "/sitemap.xml"; base +:+ "/sitemap_index.xml";
         base +:+ "/sitemap-index.xml"; base +:+ "/sitemaps/sitemap.xml" ].

(** The loop of [_get_sitemap] over the candidates. *)
Fixpoint first_existing (candidates : list string) : SitemapData.t :=
  match candidates with
  | [] => SitemapData.mk "" false 0 false [] [] 0 ["No sitemap found"] ""
  | candidate :: rest =>
      let data := fst (fetch_sitemap candidate) in
      if SitemapData.exists_ data then data else first_existing rest
  end.

(** [_get_sitemap] of crawler/crawler.py. *)
Definition _get_sitemap (config : AuditConfig.t) : PyExc + SitemapData.t :=
  if negb (bool_decide (AuditConfig.sitemap_url config = ""))
  then inr (fst (fetch_sitemap (AuditConfig.sitemap_url config)))
  else
    match guess_sitemap_url (AuditConfig.start_url config) with
    | None => inl (ValueError (urlparse_error (AuditConfig.start_url config)))
    | Some candidates => inr (first_existing candidates)
    end.
End sitemap.
End Sitemap.

(** ** crawler/crawler.py *)

Module Crawler.

(** The variables of [_crawl_internal]; a pending future is the
    [(url, depth)] it was submitted with. *)
Record State := mkState {
  visited : gset string;
  todo : list (string * Z);
  pages : gmap string PageData.t;
  external_urls : gset string;
  pending_futures : list (string * Z);
  done_count : Z
}.

Definition set_pending (pending : list (string * Z)) (st : State) : State :=
  mkState (visited st) (todo st) (pages st) (external_urls st) pending (done_count st).

(** What a call of the function comes to. *)
Inductive outcome (A : Type) :=
| Returned (a : A)
| Raised (exc : PyExc)
| Unfinished.
Arguments Returned {A} a.
Arguments Raised {A} exc.
Arguments Unfinished {A}.

Section crawler.
(** [urllib.parse.urlparse], [None] where it raises. *)
Variable urlparse : string -> option ParseResult.
(** The message of the exception [urlparse] raises on a URL. *)
Variable urlparse_error : string -> string.
Variable urlunparse : ParseResult -> string.
Variable session_get : string -> PyExc + Response.t.
Variable urljoin : string -> string -> string.
Variable repr : string -> string.
(** [parse_page(page, audit_domain)], or the exception it raises. *)
Variable parse_page : PageData.t -> string -> PyExc + PageData.t.

Definition _normalize_url (url : string) : string :=
  match urlparse (PyStr.strip url) with
  | None => ""
  | Some p =>
      if negb (bool_decide (pr_scheme p ∈ ["http"; "https"])) then ""
      else if bool_decide (pr_netloc p = "") then ""
      else
        let host := PyStr.lower (pr_netloc p) in
        let host :=
          if PyStr.endswith host ":80" && bool_decide (pr_scheme p = "http")
          then PyStr.drop_last 3 host else host in
        let host :=
          if PyStr.endswith host ":443" && bool_decide (pr_scheme p = "https")
          then PyStr.drop_last 4 host else host in
        let path := pr_path p in
        let path :=
          if negb (bool_decide (path = "/")) && PyStr.endswith path "/"
          then PyStr.rstrip_char "/" path else path in
        urlunparse (mkParseResult (pr_scheme p) host path "" (pr_query p) "")
  end.

(** The seed list built by [crawl]: the start URL, then the first
    10000 sitemap URLs that normalise to something new. *)
Definition seed_urls (config : AuditConfig.t) (sitemap_urls : list string) : list string :=
  fold_left
    (fun seeds u =>
       let n := _normalize_url u in
       if negb (bool_decide (n = "")) && negb (bool_decide (n ∈ seeds))
       then seeds ++ [n] else seeds)
    (take (Z.to_nat 10000) sitemap_urls)
    [_normalize_url (AuditConfig.start_url config)].

Definition _fetch_and_parse (url : string) (depth : Z) (config : AuditConfig.t)
    (robots_data : RobotsData) : PyExc + PageData.t :=
  let fetch (_ : unit) :=
    let page :=
      fst (Fetcher.fetch_page session_get urljoin repr url depth false) in
    if PageData.is_html page && negb (bool_decide (PageData.html page = ""))
    then parse_page page (AuditConfig.domain config)
    else inr page in
  if AuditConfig.respect_robots config then
    match Robots.is_url_allowed urlparse url robots_data (AuditConfig.user_agent config) with
    | None => inl (ValueError (urlparse_error url))
    | Some false =>
        inr (PageData.set_is_indexable false
               (PageData.set_crawl_error (Some "Blocked by robots.txt")
                  (PageData.new url "" depth)))
    | Some true => fetch tt
    end
  else fetch tt.

(** [future.result()] with the [except Exception] around it. *)
Definition future_result (url : string) (depth : Z) (config : AuditConfig.t)
    (robots_data : RobotsData) : PageData.t :=
  match _fetch_and_parse url depth config robots_data with
  | inr page => page
  | inl exc => PageData.set_crawl_error (Some (exc_str exc)) (PageData.new url "" 0)
  end.

Section run.
Variable config : AuditConfig.t.
Variable robots_data : RobotsData.

(** The seeding loop. *)
Definition seed_step (st : State) (url : string) : State :=
  let norm := _normalize_url url in
  if bool_decide (norm = "") then st
  else mkState (visited st ∪ {[norm]}) (todo st ++ [(norm, 0%Z)]) (pages st)
         (external_urls st) (pending_futures st) (done_count st).

Definition seed (seeds : list string) : State :=
  fold_left seed_step seeds (mkState ∅ [] ∅ ∅ [] 0).

Definition in_flight (st : State) : Z :=
  (Z.of_nat (size (pages st)) + Z.of_nat (length (pending_futures st)))%Z.

(** The submission loop: [while todo and len(pending_futures) < ...]. *)
Fixpoint submit_work (todo : list (string * Z)) (st : State) : State :=
  match todo with
  | [] => st
  | future :: todo' =>
      if (Z.of_nat (length (pending_futures st)) <? AuditConfig.max_workers config * 2)%Z
      then
        if (AuditConfig.max_pages config <=? in_flight st)%Z then st
        else
          submit_work todo'
            (mkState (visited st) todo' (pages st) (external_urls st)
               (pending_futures st ++ [future]) (done_count st))
      else st
  end.

Definition submit (st : State) : State := submit_work (todo st) st.

(** The body of [for link in page.internal_links]. *)
Definition harvest_link (depth : Z) (st : State) (link : LinkData.t) : State :=
  let norm := _normalize_url (LinkData.url link) in
  if bool_decide (norm = "") then st
  else if bool_decide (norm ∉ visited st)
          && (in_flight st <? AuditConfig.max_pages config)%Z
       then mkState (visited st ∪ {[norm]}) (todo st ++ [(norm, (depth + 1)%Z)])
              (pages st) (external_urls st) (pending_futures st) (done_count st)
       else st.

(** The body of [for future in completed], after
    [pending_futures.pop(future)]. *)
Definition complete (future : string * Z) (st : State) : State :=
  let page := future_result (fst future) (snd future) config robots_data in
  let st := mkState (visited st) (todo st) (<[PageData.url page := page]> (pages st))
              (external_urls st) (pending_futures st) (done_count st + 1)%Z in
  let st := fold_left (harvest_link (PageData.depth page))
              (PageData.internal_links page) st in
  mkState (visited st) (todo st) (pages st)
    (external_urls st ∪ list_to_set (LinkData.url <$> PageData.external_links page))
    (pending_futures st) (done_count st).

(** Collecting the completed futures.  [done] tells, for each pending
    future in order, whether [f.done()] held when [completed] was
    computed (missing entries: not done); [kept] are the futures
    already passed over, [rest] those still to be looked at. *)
Fixpoint collect (done : list bool) (kept rest : list (string * Z)) (st : State) : State :=
  match rest with
  | [] => set_pending kept st
  | future :: rest' =>
      match done with
      | true :: done' =>
          collect done' kept rest' (complete future (set_pending (kept ++ rest') st))
      | _ :: done' => collect done' (kept ++ [future]) rest' st
      | [] => collect [] (kept ++ [future]) rest' st
      end
  end.

(** One pass of [while True]: the state after it, and whether the
    loop was left. *)
Definition iteration (done : list bool) (st : State) : State * bool :=
  let st := submit st in
  if bool_decide (pending_futures st = []) then (st, true)
  else
    let st := collect done [] (pending_futures st) st in
    if bool_decide (todo st = []) && bool_decide (pending_futures st = [])
    then (st, true) else (st, false).

(** The main loop under a schedule: one [done] list per pass.
    [None]: the schedule ended before the loop did. *)
Fixpoint run (schedule : list (list bool)) (st : State) : option State :=
  match schedule with
  | [] => None
  | done :: schedule' =>
      let '(st', finished) := iteration done st in
      if finished then Some st' else run schedule' st'
  end.

(** [ThreadPoolExecutor(max_workers=...)] raises for a width below 1. *)
Definition _crawl_internal (seeds : list string) (schedule : list (list bool))
  : outcome (gmap string PageData.t * gset string) :=
  if (AuditConfig.max_workers config <=? 0)%Z
  then Raised (ValueError "max_workers must be greater than 0")
  else
    match run schedule (seed seeds) with
    | Some st => Returned (pages st, external_urls st)
    | None => Unfinished
    end.
End run.

End crawler.

Section external.
Variable session_head : string -> PyExc + Response.t.
Variable session_get_stream : string -> PyExc + Response.t.
Variable urljoin : string -> string -> string.

(** The table [url_status]: one [check_url_status] result per sampled
    URL.  The sampled URLs come from a set, so the order in which the
    futures complete does not show in the table. *)
Definition url_status_of (sampled : list string) : gmap string (Z * list string) :=
  fold_left
    (fun url_status url =>
       <[url := Fetcher.check_url_status urljoin session_head session_get_stream url]>
         url_status)
    sampled ∅.

(** The body of [for link in page.external_links]. *)
Definition update_link (url_status : gmap string (Z * list string)) (link : LinkData.t)
  : LinkData.t :=
  match url_status !! LinkData.url link with
  | Some (status, chain) =>
      LinkData.mk (LinkData.url link) (LinkData.anchor_text link) (LinkData.rel link)
        (LinkData.nofollow link) status
        (bool_decide (400 <= status < 600)%Z || bool_decide (status = 0%Z))
        chain
  | None => link
  end.

Definition update_page (url_status : gmap string (Z * list string)) (page : PageData.t)
  : PageData.t :=
  PageData.set_external_links
    (update_link url_status <$> PageData.external_links page) page.

(** [_check_external_links]; [listed] is [list(external_urls)], the
    elements of the set in the order Python iterates over it.  The
    result is the page map after the update, or the exception of
    [ThreadPoolExecutor] for a width below 1.  [check_url_status]
    catches every exception itself, so [future.result()] does not
    raise. *)
Definition _check_external_links (listed : list string) (pages : gmap string PageData.t)
    (config : AuditConfig.t) : PyExc + gmap string PageData.t :=
  let sampled := take 500 listed in
  if (Z.min 20 (AuditConfig.max_workers config * 2) <=? 0)%Z
  then inl (ValueError "max_workers must be greater than 0")
  else inr (update_page (url_status_of sampled) <$> pages).
End external.

End Crawler.

(** ** The crawl as a transition system *)

Module CrawlerSpec.
Import Crawler.

Section spec.
Variable urlparse : string -> option ParseResult.
Variable urlparse_error : string -> string.
Variable urlunparse : ParseResult -> string.
Variable session_get : string -> PyExc + Response.t.
Variable urljoin : string -> string -> string.
Variable repr : string -> string.
Variable parse_page : PageData.t -> string -> PyExc + PageData.t.
Variable config : AuditConfig.t.
Variable robots_data : RobotsData.

(** The single steps of the main loop: one submission (the guards of
    the submission loop hold), or the harvest of one pending future. *)
Inductive step : State -> State -> Prop :=
| step_submit (st : State) (future : string * Z) (todo' : list (string * Z)) :
    todo st = future :: todo' ->
    (Z.of_nat (length (pending_futures st)) < AuditConfig.max_workers config * 2)%Z ->
    (in_flight st < AuditConfig.max_pages config)%Z ->
    step st (mkState (visited st) todo' (pages st) (external_urls st)
               (pending_futures st ++ [future]) (done_count st))
| step_complete (st : State) (kept rest : list (string * Z)) (future : string * Z) :
    pending_futures st = kept ++ future :: rest ->
    step st (complete urlparse urlparse_error urlunparse session_get urljoin repr
               parse_page config robots_data future (set_pending (kept ++ rest) st)).

(** The states the loop can be in, from a seed list. *)
Definition reachable (seeds : list string) (st : State) : Prop :=
  rtc step (seed urlparse urlunparse seeds) st.

(** The URLs waiting in the frontier or being fetched. *)
Definition frontier_urls (st : State) : list string :=
  (fst <$> todo st) ++ (fst <$> pending_futures st).

(** No URL is queued or in flight twice, none that has a page is queued
    or in flight, and the visited set is exactly the URLs queued, in
    flight or completed. *)
Definition at_most_once (st : State) : Prop :=
  NoDup (frontier_urls st)
  /\ visited st = list_to_set (frontier_urls st) ∪ dom (pages st)
  /\ (forall u, u ∈ frontier_urls st -> u ∉ dom (pages st)).

(** Completed plus in-flight pages within the cap. *)
Definition cap_ok (st : State) : Prop :=
  (in_flight st <= AuditConfig.max_pages config)%Z.

(** At a poll one of the fetches that are pending after the
    submission loop has finished: [done] marks one of them. *)
Definition finds_done (done : list bool) (st : State) : bool :=
  bool_decide (true ∈ take (length (pending_futures (submit config st))) done).

(** The idle polls of a run: the passes that do not leave the loop and
    at whose poll none of the pending fetches has finished. *)
Fixpoint idle_polls (schedule : list (list bool)) (st : State) : nat :=
  match schedule with
  | [] => 0
  | done :: schedule' =>
      let '(st', finished) :=
        iteration urlparse urlparse_error urlunparse session_get urljoin repr
          parse_page config robots_data done st in
      if finished then 0
      else (if finds_done done st then 0 else 1)
           + idle_polls schedule' st'
  end.

(** The polls of a schedule at which the oldest pending fetch has
    finished. *)
Definition oldest_done_polls (schedule : list (list bool)) : nat :=
  length (filter (fun done => head done = Some true) schedule).

(** [parse_page] never assigns [page.url]. *)
Definition keeps_url : Prop :=
  forall page d page', parse_page page d = inr page' ->
                       PageData.url page' = PageData.url page.

(** The normalised seeds that the seeding loop puts on the frontier. *)
Definition seeded (seeds : list string) : list string :=
  filter (fun u => u <> "") (_normalize_url urlparse urlunparse <$> seeds).

(** The internal links of the page fetched for [u], normalised. *)
Definition links_of (u : string) (depth : Z) : list string :=
  (fun l => _normalize_url urlparse urlunparse (LinkData.url l))
    <$> PageData.internal_links
          (future_result urlparse urlparse_error session_get urljoin repr
             parse_page u depth config robots_data).

(** A crawl from the single seed [start], whose normal form is [s0]:
    before the start page is harvested ... *)
Definition waiting (start : string) (st : State) : Prop :=
  let s0 := _normalize_url urlparse urlunparse start in
  pages st = ∅
  /\ s0 ∈ visited st
  /\ ((todo st = [(s0, 0%Z)] /\ pending_futures st = [])
      \/ (todo st = [] /\ pending_futures st = [(s0, 0%Z)])).

(** ... and after it: the start page and its links are all visited. *)
Definition discovered (start : string) (st : State) : Prop :=
  let s0 := _normalize_url urlparse urlunparse start in
  list_to_set (s0 :: links_of s0 0) ⊆ visited st.

(** Every page is stored under its own URL. *)
Definition keyed (st : State) : Prop :=
  forall k p, pages st !! k = Some p -> PageData.url p = k.

(** The external links of the stored pages are all in [external_urls]. *)
Definition externals_kept (st : State) : Prop :=
  forall k p l,
    pages st !! k = Some p -> l ∈ PageData.external_links p ->
    LinkData.url l ∈ external_urls st.

(** A non-empty URL normal form. *)
Definition normal (u : string) : Prop :=
  u <> "" /\ exists v, _normalize_url urlparse urlunparse v = u.

(** The frontier, the pending fetches and the page map hold normal
    forms only. *)
Definition all_normal (st : State) : Prop :=
  (forall u, u ∈ frontier_urls st -> normal u)
  /\ (forall k, k ∈ dom (pages st) -> normal k).

(** The page recorded for a URL that robots.txt disallows. *)
Definition blocked_page (url : string) (depth : Z) : PageData.t :=
  PageData.set_is_indexable false
    (PageData.set_crawl_error (Some "Blocked by robots.txt")
       (PageData.new url "" depth)).
End spec.
End CrawlerSpec.

(** ** A sample site *)

Module CrawlerSamples.
Definition home : string := "http://h/".
Definition link (u : string) : LinkData.t := LinkData.mk u "" "" false 0 false [].
Definition five : list string :=
  ["http://h/a"; "http://h/b"; "http://h/c"; "http://h/d"; "http://h/e"].

(** Every URL answers 200 with an HTML body. *)
Definition session_get (u : string) : PyExc + Response.t :=
  inr (Response.mk 200 u [("Content-Type", "text/html")] "<html></html>" "<html></html>").

(** The home page links to the five pages, the others to nothing. *)
Definition parse_page (page : PageData.t) (domain : string) : PyExc + PageData.t :=
  if decide (PageData.url page = home)
  then inr (PageData.set_internal_links (link <$> five) page)
  else inr page.

Definition no_message (u : string) : string := "".
Definition quote (s : string) : string := "'" +:+ s +:+ "'".
Definition join_absolute (base loc : string) : string := loc.

Definition config (cap : Z) : AuditConfig.t :=
  AuditConfig.mk "h" home "" cap 10 15 "SiteAuditBot/1.0" true true false false.

Definition no_robots : RobotsData :=
  mkRobotsData "http://h/robots.txt" false 404 "" [] [] [] None [].

(** A sitemap with two spellings that normalise, in two rounds, to the
    same URL. *)
Definition sitemap : list string := ["http://h/a;x/"; "http://h/a"].

Definition _normalize_url := Crawler._normalize_url UrlSamples.urlparse UrlSamples.urlunparse.
Definition seed_urls := Crawler.seed_urls UrlSamples.urlparse UrlSamples.urlunparse.
Definition seed := Crawler.seed UrlSamples.urlparse UrlSamples.urlunparse.
Definition run (cap : Z) :=
  Crawler.run UrlSamples.urlparse no_message UrlSamples.urlunparse session_get
    join_absolute quote parse_page (config cap) no_robots.
Definition submit (cap : Z) :=
  Crawler.submit (config cap).
Definition _crawl_internal (cap : Z) :=
  Crawler._crawl_internal UrlSamples.urlparse no_message UrlSamples.urlunparse session_get
    join_absolute quote parse_page (config cap) no_robots.
End CrawlerSamples.

(** ** Sample crawls *)

Module CrawlSamples.
(** Ten polls, at each of which every pending fetch has finished. *)
Definition patient : list (list bool) := replicate 10 (replicate 20 true).

(** The state in which the crawl of the sample site ends when the cap
    is 100 pages. *)
Definition whole_site : Crawler.State :=
  default (CrawlerSamples.seed [CrawlerSamples.home])
    (CrawlerSamples.run 100 patient (CrawlerSamples.seed [CrawlerSamples.home])).

(** A robots.txt that closes the whole site. *)
Definition closed : RobotsData :=
  mkRobotsData "http://h/robots.txt" true 200 "" [] [mkRule "*" "/"] [] None [].

Definition outward : LinkData.t := CrawlerSamples.link "http://elsewhere.test/".

(** As [CrawlerSamples.parse_page]; the home page also has an external
    link. *)
Definition parse_outward (page : PageData.t) (domain : string) : PyExc + PageData.t :=
  if decide (PageData.url page = CrawlerSamples.home)
  then inr (PageData.set_external_links [outward]
              (PageData.set_internal_links
                 (CrawlerSamples.link <$> CrawlerSamples.five) page))
  else inr page.

Definition crawl_outward :=
  Crawler._crawl_internal UrlSamples.urlparse CrawlerSamples.no_message
    UrlSamples.urlunparse CrawlerSamples.session_get CrawlerSamples.join_absolute
    CrawlerSamples.quote parse_outward (CrawlerSamples.config 100)
    CrawlerSamples.no_robots [CrawlerSamples.home] patient.

(** What that crawl returns. *)
Definition outward_pages : gmap string PageData.t :=
  match crawl_outward with Crawler.Returned (ps, _) => ps | _ => ∅ end.

Definition outward_urls : gset string :=
  match crawl_outward with Crawler.Returned (_, ext) => ext | _ => ∅ end.

Definition home_page : PageData.t :=
  default (PageData.new "" "" 0) (outward_pages !! CrawlerSamples.home).
End CrawlSamples.

(** ** Default ports *)

Module UrlSpec.
(** The default port of a scheme, as it is written after the host. *)
Definition default_port (scheme : string) : string :=
  if decide (scheme = "http") then ":80" else ":443".
End UrlSpec.

Module PortSamples.
(** The value of [urllib.parse.urlparse] on a URL with a port. *)
Definition urlparse (url : string) : option ParseResult :=
  if decide (url = "http://Example.COM:80/a/")
  then Some (mkParseResult "http" "Example.COM:80" "/a/" "" "" "")
  else UrlSamples.urlparse url.
End PortSamples.

(** ** Sample pages with external links *)

Module LinkSamples.
Definition dead : string := "http://gone.test/".
Definition alive : string := "http://ok.test/".
Definition unchecked : string := "http://later.test/".

(** HEAD: [dead] answers 404, every other host refuses HEAD. *)
Definition session_head (u : string) : PyExc + Response.t :=
  if decide (u = dead) then inr (Response.mk 404 u [] "" "")
  else FetcherSamples.head_refused u.

Definition page_with (u : string) (links : list string) : PageData.t :=
  PageData.set_external_links (CrawlerSamples.link <$> links) (PageData.new u u 0).

Definition pages : gmap string PageData.t :=
  {[ "http://h/" := page_with "http://h/" [dead; alive; unchecked] ]}.

(** The page map after the check of [dead] and [alive]. *)
Definition checked : PyExc + gmap string PageData.t :=
  Crawler._check_external_links session_head FetcherSamples.get_ok
    FetcherSamples.join_absolute [dead; alive] pages (CrawlerSamples.config 100).

Definition checked_pages : gmap string PageData.t :=
  match checked with inr m => m | inl _ => ∅ end.

Definition dead_link : LinkData.t := LinkData.mk dead "" "" false 404 true [].
Definition alive_link : LinkData.t := LinkData.mk alive "" "" false 200 false [].

Definition checked_page : PageData.t :=
  PageData.set_external_links [dead_link; alive_link; CrawlerSamples.link unchecked]
    (PageData.new "http://h/" "http://h/" 0).
End LinkSamples.

(** ** Sitemap walks, in words *)

Module SitemapSpec.
Import Requests.
Section spec.
Variable session_get_follow : string -> reply.
Variable gzip_decompress : string -> option string.
Variable parse_xml : string -> Sitemap.Xml.

(** The record holds no more URLs than the maximum, no URL was
    requested twice, and every requested URL is in [seen_sitemaps]. *)
Definition walk_ok (w : Sitemap.Walk) : Prop :=
  (Z.of_nat (length (SitemapData.urls (fst (fst w)))) <= Sitemap._MAX_URLS)%Z
  /\ NoDup (snd w)
  /\ (forall u, u ∈ snd w -> u ∈ snd (fst w)).

(** The request of [u] was answered with status 200. *)
Definition found (u : string) : Prop :=
  exists resp,
    session_get_follow u = Answer resp /\ Response.status_code resp = 200%Z.

(** The record says that a sitemap exists exactly when one of the
    requests so far was answered with status 200. *)
Definition exists_iff_found (w : Sitemap.Walk) : Prop :=
  SitemapData.exists_ (fst (fst w)) = true <-> exists u, u ∈ snd w /\ found u.

(** [u] is answered with a sitemap index whose only entry is [child]. *)
Definition index_of (u child : string) : Prop :=
  exists resp tag loc,
    session_get_follow u = Answer resp
    /\ Response.status_code resp = 200%Z
    /\ parse_xml (Sitemap._decompress_if_gzip gzip_decompress resp)
       = Sitemap.Root tag [loc] []
    /\ Sitemap._local_tag tag = "sitemapindex"
    /\ PyStr.strip loc = child.
End spec.
End SitemapSpec.

(** ** Sample sitemap servers *)

Module SitemapSamples.
Import Requests.
Definition no_gzip (content : string) : option string := None.

(** Every URL is answered with the URL followed by an [x]. *)
Definition nested (u : string) : reply :=
  Answer (Response.mk 200 u [("Content-Type", "application/xml")] (u +:+ "x") "").

(** Every document is a sitemap index whose only entry is its text,
    with white space around it. *)
Definition as_index (raw : string) : Sitemap.Xml :=
  Sitemap.Root "{http://www.sitemaps.org/schemas/sitemap/0.9}sitemapindex"
    [" " +:+ raw +:+ " "] [].

Definition chain (i : nat) : string :=
  Nat.iter i (fun u => u +:+ "x") "http://h/s".

Definition fetched : SitemapData.t * list string :=
  Sitemap.fetch_sitemap nested CrawlerSamples.quote no_gzip as_index (chain 0).

(** No sitemap anywhere. *)
Definition missing (u : string) : reply := Answer (Response.mk 404 u [] "" "").

(** A site whose only sitemap is at the third of the conventional
    locations. *)
Definition third_only (u : string) : reply :=
  if decide (u = "http://h/sitemap-index.xml")
  then Answer (Response.mk 200 u [("Content-Type", "application/xml")] "" "")
  else missing u.

(** Every document is a URL set with one page. *)
Definition as_urlset (raw : string) : Sitemap.Xml :=
  Sitemap.Root "{http://www.sitemaps.org/schemas/sitemap/0.9}urlset" [] ["http://h/a"].

Definition discovered : PyExc + SitemapData.t :=
  Sitemap._get_sitemap third_only CrawlerSamples.quote no_gzip as_urlset
    UrlSamples.urlparse CrawlerSamples.no_message (CrawlerSamples.config 100).
End SitemapSamples.

(** ** Sample robots.txt servers *)

Module RobotsFetchSamples.
(** The server is down for maintenance. *)
Definition unavailable (u : string) : Requests.reply :=
  Requests.Answer (Response.mk 503 u [] "Disallow: /" "Disallow: /").

Definition fetched : PyExc + RobotsData :=
  RobotsFetch.fetch_and_parse_robots RobotsSamples.no_float RobotsSamples.quote
    UrlSamples.urlparse CrawlerSamples.no_message unavailable "http://h/".

Definition fetched_data : RobotsData :=
  mkRobotsData "http://h/robots.txt" false 503 "" [] [] [] None
    ["robots.txt returned HTTP 503"].
End RobotsFetchSamples.

(** * Properties *)

(** ** Rounding *)

Module PyNumFacts.
Import PyNum.
Local Open Scope Q_scope.

Ltac cmp_to_rel :=
  repeat match goal with
    | H : (_ ?= _) = Eq |- _ => apply Qeq_alt in H
    | H : (_ ?= _) = Lt |- _ => apply Qlt_alt in H
    | H : (_ ?= _) = Gt |- _ => apply Qgt_alt in H
    end.

Lemma round_half_even_proper (x y : Q) :
  x == y -> round_half_even x = round_half_even y.
Proof.
  intros E. unfold round_half_even.
  assert (Ef : Qfloor x = Qfloor y) by (now rewrite E).
  rewrite Ef.
  assert (Ec : (x - inject_Z (Qfloor y) ?= 1 # 2) = (y - inject_Z (Qfloor y) ?= 1 # 2))
    by (now rewrite E).
  now rewrite Ec.
Qed.

Lemma round_half_even_bounds (y : Q) :
  (Qfloor y <= round_half_even y <= Qfloor y + 1)%Z.
Proof.
  unfold round_half_even.
  destruct (y - inject_Z (Qfloor y) ?= 1 # 2); try destruct (Z.even _); lia.
Qed.

Lemma round_half_even_le (x y : Q) :
  x <= y -> (round_half_even x <= round_half_even y)%Z.
Proof.
  intros L.
  pose proof (Qfloor_resp_le _ _ L) as Hf.
  destruct (Z.eq_dec (Qfloor x) (Qfloor y)) as [E | N].
  - unfold round_half_even. rewrite E.
    destruct (y - inject_Z (Qfloor y) ?= 1 # 2) eqn:Cy;
      destruct (x - inject_Z (Qfloor y) ?= 1 # 2) eqn:Cx;
      try destruct (Z.even (Qfloor y)); try lia;
      exfalso; cmp_to_rel; lra.
  - pose proof (round_half_even_bounds x). pose proof (round_half_even_bounds y). lia.
Qed.


Lemma round_le (x y : Q) (n : nat) : x <= y -> round x n <= round y n.
Proof.
  intros L. unfold round. rewrite !Qred_correct.
  unfold Qle; simpl.
  apply Z.mul_le_mono_nonneg_r; [lia |].
  apply round_half_even_le.
  apply Qmult_le_compat_r; [assumption |].
  unfold Qle; simpl; lia.
Qed.

Lemma round_zero (n : nat) : round 0 n == 0.
Proof.
  unfold round. rewrite Qred_correct.
  rewrite (round_half_even_proper _ 0) by ring.
  reflexivity.
Qed.

Lemma round_nonneg (x : Q) (n : nat) : 0 <= x -> 0 <= round x n.
Proof. intros L. rewrite <- (round_zero n). now apply round_le. Qed.

End PyNumFacts.

(** ** Rounding error *)

Module PyNumNear.
Import PyNum.
Local Open Scope Q_scope.

Lemma round_half_even_near (y : Q) :
  y - (1 # 2) <= inject_Z (round_half_even y) <= y + (1 # 2).
Proof.
  unfold round_half_even.
  pose proof (Qfloor_le y) as L. pose proof (Qlt_floor y) as U.
  rewrite inject_Z_plus in U.
  destruct (y - inject_Z (Qfloor y) ?= 1 # 2) eqn:C; PyNumFacts.cmp_to_rel.
  - destruct (Z.even _); rewrite ?inject_Z_plus; change (inject_Z 1) with 1 in *; lra.
  - change (inject_Z 1) with 1 in *. lra.
  - rewrite inject_Z_plus. change (inject_Z 1) with 1 in *. lra.
Qed.

Lemma round_scaled (x : Q) (n : nat) :
  round x n * inject_Z (Z.pos (pow10 n))
  == inject_Z (round_half_even (x * inject_Z (Z.pos (pow10 n)))).
Proof.
  unfold round. rewrite Qred_correct.
  unfold Qeq, Qmult, inject_Z. simpl. lia.
Qed.

(** Rounding to one decimal moves a number by at most 0.05, rounding to
    two decimals by at most 0.005. *)
Lemma round_1_near (x : Q) : x - (1 # 20) <= round x 1 <= x + (1 # 20).
Proof.
  pose proof (round_scaled x 1) as S.
  pose proof (round_half_even_near (x * inject_Z (Z.pos (pow10 1)))) as N.
  rewrite <- S in N. change (inject_Z (Z.pos (pow10 1))) with 10 in N. lra.
Qed.

Lemma round_2_near (x : Q) : x - (1 # 200) <= round x 2 <= x + (1 # 200).
Proof.
  pose proof (round_scaled x 2) as S.
  pose proof (round_half_even_near (x * inject_Z (Z.pos (pow10 2)))) as N.
  rewrite <- S in N. change (inject_Z (Z.pos (pow10 2))) with 100 in N. lra.
Qed.

End PyNumNear.

(** ** Python floats: rounding to the nearest double *)

Module Float64Facts.
Import Float64.
Local Open Scope Q_scope.

Lemma two_nonzero : ~ 2 == 0.
Proof. intros E. discriminate E. Qed.

Lemma pow2_pos (e : Z) : 0 < pow2 e.
Proof. apply Qpower_0_lt. reflexivity. Qed.

Lemma pow2_add (a b : Z) : pow2 (a + b) == pow2 a * pow2 b.
Proof. apply Qpower_plus, two_nonzero. Qed.

Lemma pow2_sub (a b : Z) : pow2 (a - b) == pow2 a / pow2 b.
Proof. apply Qpower_minus, two_nonzero. Qed.

Lemma pow2_le (a b : Z) : (a <= b)%Z -> pow2 a <= pow2 b.
Proof. intros L. apply Qpower_le_compat_l; [exact L | discriminate]. Qed.

Lemma pow2_lt (a b : Z) : (a < b)%Z -> pow2 a < pow2 b.
Proof. intros L. apply Qpower_lt_compat_l; [exact L | reflexivity]. Qed.

Lemma pow2_lt_inv (a b : Z) : pow2 a < pow2 b -> (a < b)%Z.
Proof.
  intros L. destruct (Z.lt_ge_cases a b) as [H | H]; [exact H |].
  apply pow2_le in H. lra.
Qed.

Lemma pow2_int (e : Z) : (0 <= e)%Z -> pow2 e == inject_Z (2 ^ e).
Proof. intros H. symmetry. now apply (Zpower_Qpower 2). Qed.

(** [log2_floor] is the exponent of the binade of [x]. *)
Lemma log2_floor_spec (x : Q) :
  0 < x -> pow2 (log2_floor x) <= x < pow2 (log2_floor x + 1).
Proof.
  intros Hx. destruct x as [p q].
  assert (Hp : (0 < p)%Z) by (unfold Qlt in Hx; simpl in Hx; lia).
  unfold log2_floor. cbn [Qnum Qden].
  set (a := Z.log2 p). set (b := Z.log2 (Z.pos q)).
  assert (Ha : (0 <= a)%Z) by apply Z.log2_nonneg.
  assert (Hb : (0 <= b)%Z) by apply Z.log2_nonneg.
  pose proof (Z.log2_spec p Hp) as [Pl Pu]. fold a in Pl, Pu.
  pose proof (Z.log2_spec (Z.pos q) eq_refl) as [Ql Qu]. fold b in Ql, Qu.
  rewrite Zle_Qle in Pl, Ql. rewrite Zlt_Qlt in Pu, Qu.
  rewrite <- pow2_int in Pl, Ql, Pu, Qu by lia.
  unfold Z.succ in Pu, Qu.
  assert (Hq : 0 < inject_Z (Z.pos q)) by reflexivity.
  pose proof (Qmake_Qdiv p q) as Ex.
  set (x := p # q) in *.
  set (P := inject_Z p) in *. set (D := inject_Z (Z.pos q)) in *.
  pose proof (pow2_pos a) as A0. pose proof (pow2_pos b) as B0.
  assert (U : x < pow2 (a + 1 - b)).
  { rewrite Ex, pow2_sub. apply Qlt_shift_div_r; [exact Hq |].
    apply Qlt_le_trans with (pow2 (a + 1)); [exact Pu |].
    apply Qle_trans with (pow2 (a + 1) / pow2 b * pow2 b).
    - unfold Qdiv. rewrite <- Qmult_assoc, (Qmult_comm (/ _)), Qmult_inv_r by lra. lra.
    - apply Qmult_le_l; [| exact Ql].
      apply Qlt_shift_div_l; [exact B0 |]. rewrite Qmult_0_l. apply pow2_pos. }
  assert (L : pow2 (a - (b + 1)) <= x).
  { rewrite Ex, pow2_sub. apply Qle_shift_div_l; [exact Hq |].
    apply Qle_trans with (pow2 a); [| exact Pl].
    apply Qle_trans with (pow2 a / pow2 (b + 1) * pow2 (b + 1)).
    - apply Qmult_le_l; [| lra].
      apply Qlt_shift_div_l; [apply pow2_pos |]. rewrite Qmult_0_l. exact A0.
    - pose proof (pow2_pos (b + 1)).
      unfold Qdiv. rewrite <- Qmult_assoc, (Qmult_comm (/ _)), Qmult_inv_r by lra. lra. }
  destruct (Qle_bool (pow2 (a - b)) x) eqn:T.
  - apply Qle_bool_iff in T. split; [exact T |].
    now replace (a - b + 1)%Z with (a + 1 - b)%Z by lia.
  - assert (T' : x < pow2 (a - b)).
    { apply Qnot_le_lt. intros C. apply Qle_bool_iff in C. congruence. }
    replace (a - b - 1 + 1)%Z with (a - b)%Z by lia. split; [| exact T'].
    now replace (a - b - 1)%Z with (a - (b + 1))%Z by lia.
Qed.

Lemma log2_floor_unique (x : Q) (l : Z) :
  pow2 l <= x < pow2 (l + 1) -> log2_floor x = l.
Proof.
  intros [L U].
  assert (Hx : 0 < x) by (pose proof (pow2_pos l); lra).
  destruct (log2_floor_spec x Hx) as [L' U'].
  assert (H1 : (l < log2_floor x + 1)%Z) by (apply pow2_lt_inv; lra).
  assert (H2 : (log2_floor x < l + 1)%Z) by (apply pow2_lt_inv; lra).
  lia.
Qed.

Lemma log2_floor_le (x y : Q) : 0 < x -> x <= y -> (log2_floor x <= log2_floor y)%Z.
Proof.
  intros Hx L.
  destruct (log2_floor_spec x Hx) as [Lx _].
  destruct (log2_floor_spec y) as [_ Uy]; [lra |].
  assert (H : (log2_floor x < log2_floor y + 1)%Z) by (apply pow2_lt_inv; lra).
  lia.
Qed.

Lemma round_half_even_int (k : Z) : PyNum.round_half_even (inject_Z k) = k.
Proof.
  unfold PyNum.round_half_even. rewrite Qfloor_Z.
  assert (E : (inject_Z k - inject_Z k ?= 1 # 2) = Lt).
  { apply Qlt_alt. setoid_replace (inject_Z k - inject_Z k) with 0 using relation Qeq by ring.
    reflexivity. }
  now rewrite E.
Qed.

Lemma rnd_eq (x : Q) :
  rnd x == inject_Z (PyNum.round_half_even (x / pow2 (ulp_exp x))) * pow2 (ulp_exp x).
Proof. unfold rnd. apply Qred_correct. Qed.

Lemma ulp_exp_pos (x : Q) : 0 < x -> ulp_exp x = Z.max (log2_floor x - 52) (-1074).
Proof.
  intros Hx. unfold ulp_exp, prec, emin.
  assert (E : log2_floor (Qabs x) = log2_floor x).
  { apply log2_floor_unique. rewrite Qabs_pos by lra. now apply log2_floor_spec. }
  now rewrite E.
Qed.

(** Rounding is monotone on the positive numbers. *)
Lemma rnd_le_pos (x y : Q) : 0 < x -> x <= y -> rnd x <= rnd y.
Proof.
  intros Hx L. rewrite !rnd_eq.
  assert (Hy : 0 < y) by lra.
  rewrite (ulp_exp_pos x Hx), (ulp_exp_pos y Hy).
  pose proof (log2_floor_le x y Hx L) as Hl.
  set (lx := log2_floor x) in *. set (ly := log2_floor y) in *.
  set (ex := Z.max (lx - 52) (-1074)). set (ey := Z.max (ly - 52) (-1074)).
  pose proof (pow2_pos ex) as Px. pose proof (pow2_pos ey) as Py.
  destruct (Z.eq_dec ex ey) as [E | N].
  - rewrite <- E. apply Qmult_le_compat_r; [| lra].
    rewrite <- Zle_Qle. apply PyNumFacts.round_half_even_le.
    apply Qmult_le_compat_r; [exact L |]. apply Qlt_le_weak, Qinv_lt_0_compat, Px.
  - assert (Hlt : (ex < ey)%Z) by lia.
    assert (Ey : ey = (ly - 52)%Z) by lia.
    assert (Hll : (lx + 1 <= ly)%Z) by lia.
    destruct (log2_floor_spec x Hx) as [_ Ux]. fold lx in Ux.
    destruct (log2_floor_spec y Hy) as [Ly _]. fold ly in Ly.
    set (B := pow2 ly).
    assert (HxB : x <= B).
    { apply Qlt_le_weak, Qlt_le_trans with (pow2 (lx + 1)); [exact Ux |].
      now apply pow2_le. }
    apply Qle_trans with B.
    + (* rnd x <= B *)
      assert (EB : B == inject_Z (2 ^ (ly - ex)) * pow2 ex).
      { rewrite <- pow2_int by lia. rewrite <- pow2_add. unfold B.
        now replace (ly - ex + ex)%Z with ly by lia. }
      rewrite EB. apply Qmult_le_compat_r; [| lra].
      rewrite <- Zle_Qle.
      rewrite <- (round_half_even_int (2 ^ (ly - ex))).
      apply PyNumFacts.round_half_even_le.
      apply Qle_shift_div_r; [exact Px |]. now rewrite <- EB.
    + (* B <= rnd y *)
      assert (EB : B == inject_Z (2 ^ 52) * pow2 ey).
      { rewrite <- pow2_int by lia. rewrite <- pow2_add. unfold B.
        now replace (52 + ey)%Z with ly by lia. }
      rewrite EB. apply Qmult_le_compat_r; [| lra].
      rewrite <- Zle_Qle.
      rewrite <- (round_half_even_int (2 ^ 52)) at 1.
      apply PyNumFacts.round_half_even_le.
      apply Qle_shift_div_l; [exact Py |]. now rewrite <- EB.
Qed.

Lemma rnd_zero (x : Q) : x == 0 -> rnd x == 0.
Proof.
  intros E. rewrite rnd_eq.
  rewrite (PyNumFacts.round_half_even_proper _ 0).
  - change (PyNum.round_half_even 0) with 0%Z. ring.
  - unfold Qdiv. rewrite (Qmult_comp _ _ E _ _ (Qeq_refl _)). ring.
Qed.

Lemma rnd_nonneg (x : Q) : 0 <= x -> 0 <= rnd x.
Proof.
  intros H. rewrite rnd_eq.
  apply Qmult_le_0_compat; [| apply Qlt_le_weak, pow2_pos].
  change 0 with (inject_Z 0). rewrite <- Zle_Qle.
  change 0%Z with (PyNum.round_half_even 0).
  apply PyNumFacts.round_half_even_le.
  apply Qle_shift_div_l; [apply pow2_pos |]. now rewrite Qmult_0_l.
Qed.

(** Rounding is monotone on the numbers that are not negative. *)
Lemma rnd_le (x y : Q) : 0 <= x -> x <= y -> rnd x <= rnd y.
Proof.
  intros Hx L. destruct (Qlt_le_dec 0 x) as [P | Z0].
  - now apply rnd_le_pos.
  - rewrite (rnd_zero x) by lra. apply rnd_nonneg. lra.
Qed.

Lemma Qred_inject_Z (k : Z) : Qred (inject_Z k) = inject_Z k.
Proof.
  unfold Qred, inject_Z.
  pose proof (Z.ggcd_gcd k 1) as G. pose proof (Z.ggcd_correct_divisors k 1) as D.
  destruct (Z.ggcd k 1) as [g [aa bb]]. simpl in G.
  rewrite Z.gcd_1_r in G. subst g. destruct D as [D1 D2].
  rewrite Z.mul_1_l in D1, D2. now subst.
Qed.

(** The integers up to [2^53] are doubles. *)
Lemma rnd_int (k : Z) : (0 <= k <= 2 ^ 53)%Z -> rnd (inject_Z k) = inject_Z k.
Proof.
  intros [L U].
  assert (E : rnd (inject_Z k) == inject_Z k).
  { destruct (Z.eq_dec k 0%Z) as [-> | N]; [now apply rnd_zero |].
    assert (Hk : 0 < inject_Z k) by (change 0 with (inject_Z 0); rewrite <- Zlt_Qlt; lia).
    rewrite rnd_eq, (ulp_exp_pos _ Hk).
    destruct (log2_floor_spec _ Hk) as [Lk _].
    set (l := log2_floor (inject_Z k)) in *.
    assert (Hl : (l <= 53)%Z).
    { assert (H : (l < 53 + 1)%Z); [| lia].
      apply pow2_lt_inv. apply Qle_lt_trans with (inject_Z k); [exact Lk |].
      rewrite pow2_int by lia. rewrite <- Zlt_Qlt. lia. }
    set (e := Z.max (l - 52) (-1074)).
    destruct (Z.le_gt_cases e 0) as [He | He].
    - assert (Ek : inject_Z k / pow2 e == inject_Z (k * 2 ^ (- e))).
      { rewrite inject_Z_mult, <- pow2_int by lia.
        unfold pow2. rewrite Qpower_opp. reflexivity. }
      rewrite (PyNumFacts.round_half_even_proper _ _ Ek), round_half_even_int.
      rewrite inject_Z_mult, <- pow2_int by lia.
      rewrite <- Qmult_assoc, <- pow2_add.
      replace (- e + e)%Z with 0%Z by lia. change (pow2 0) with 1. ring.
    - assert (e = 1%Z) by lia. assert (l = 53%Z) by lia.
      assert (k = (2 ^ 53)%Z).
      { apply Z.le_antisymm; [exact U |].
        rewrite Zle_Qle, <- pow2_int by lia. now replace 53%Z with l. }
      subst k. replace e with 1%Z. vm_compute. reflexivity. }
  unfold rnd in *. rewrite Qred_correct in E. apply Qred_complete in E. rewrite E.
  apply Qred_inject_Z.
Qed.
(** The integers below [2^53] times a power of two from [2^-1074] on
    are doubles. *)
Lemma rnd_scaled_int (m e : Z) (y : Q) :
  (0 <= m <= 2 ^ 53)%Z -> (-1074 <= e)%Z -> y == inject_Z m * pow2 e -> rnd y == y.
Proof.
  intros [L U] He Ey.
  destruct (Z.eq_dec m 0%Z) as [-> | N].
  { assert (Y0 : y == 0) by (rewrite Ey; ring). rewrite (rnd_zero y Y0). now symmetry. }
  pose proof (pow2_pos e) as Pe.
  assert (Hm : 0 < inject_Z m) by (change 0 with (inject_Z 0); rewrite <- Zlt_Qlt; lia).
  assert (Hy : 0 < y).
  { rewrite Ey. apply Qmult_lt_0_compat; assumption. }
  rewrite rnd_eq, (ulp_exp_pos y Hy).
  destruct (log2_floor_spec y Hy) as [Ly Uy].
  set (l := log2_floor y) in *.
  assert (Hl : (l <= e + 53)%Z).
  { assert (H : (l < e + 53 + 1)%Z); [| lia].
    apply pow2_lt_inv. apply Qle_lt_trans with y; [exact Ly |].
    rewrite Ey. replace (e + 53 + 1)%Z with (54 + e)%Z by lia.
    rewrite pow2_add. apply Qmult_lt_compat_r; [exact Pe |].
    rewrite pow2_int by lia. rewrite <- Zlt_Qlt. lia. }
  set (u := Z.max (l - 52) (-1074)).
  pose proof (pow2_pos u) as Pu.
  destruct (Z.le_gt_cases u e) as [Hu | Hu].
  - assert (E : y / pow2 u == inject_Z (m * 2 ^ (e - u))).
    { rewrite Ey, inject_Z_mult, <- pow2_int by lia. rewrite pow2_sub. field. lra. }
    rewrite (PyNumFacts.round_half_even_proper _ _ E), round_half_even_int.
    rewrite Ey, inject_Z_mult, <- pow2_int by lia. rewrite pow2_sub. field. lra.
  - assert (Hu1 : u = (e + 1)%Z) by lia.
    assert (Hl1 : l = (e + 53)%Z) by lia.
    assert (Em : m = (2 ^ 53)%Z).
    { apply Z.le_antisymm; [exact U |].
      rewrite Zle_Qle, <- pow2_int by lia.
      apply Qmult_le_r with (pow2 e); [exact Pe |].
      rewrite <- pow2_add, <- Ey. now replace (53 + e)%Z with l by lia. }
    assert (E : y / pow2 u == inject_Z (2 ^ 52)).
    { rewrite Ey, Em, Hu1, <- !pow2_int by lia. rewrite pow2_add.
      change (pow2 53) with (pow2 52 * 2). change (pow2 1) with 2. field. lra. }
    rewrite (PyNumFacts.round_half_even_proper _ _ E), round_half_even_int.
    rewrite Ey, Em, Hu1, <- !pow2_int by lia. rewrite pow2_add.
    change (pow2 53) with (pow2 52 * 2). change (pow2 1) with 2. ring.
Qed.

(** Rounding a number that is not negative gives such a multiple. *)
Lemma rnd_is_scaled_int (x : Q) :
  0 <= x ->
  exists m e, (0 <= m <= 2 ^ 53)%Z /\ (-1074 <= e)%Z /\ rnd x == inject_Z m * pow2 e.
Proof.
  intros H. exists (PyNum.round_half_even (x / pow2 (ulp_exp x))), (ulp_exp x).
  pose proof (pow2_pos (ulp_exp x)) as Pu.
  split; [| split; [unfold ulp_exp, emin; lia | apply rnd_eq]].
  split.
  - change 0%Z with (PyNum.round_half_even 0).
    apply PyNumFacts.round_half_even_le.
    apply Qle_shift_div_l; [exact Pu |]. now rewrite Qmult_0_l.
  - rewrite <- (round_half_even_int (2 ^ 53)).
    apply PyNumFacts.round_half_even_le.
    apply Qle_shift_div_r; [exact Pu |].
    destruct (Qlt_le_dec 0 x) as [Hx | Hx].
    + destruct (log2_floor_spec x Hx) as [_ Ux].
      rewrite (ulp_exp_pos x Hx). set (l := log2_floor x) in *.
      apply Qlt_le_weak, Qlt_le_trans with (pow2 (l + 1)); [exact Ux |].
      rewrite <- pow2_int, <- pow2_add by lia. apply pow2_le. lia.
    + apply Qle_trans with 0; [lra |].
      apply Qmult_le_0_compat; [| lra]. rewrite <- pow2_int by lia.
      apply Qlt_le_weak, pow2_pos.
Qed.

(** Rounding twice is rounding once. *)
Lemma rnd_idem (x : Q) : 0 <= x -> rnd (rnd x) = rnd x.
Proof.
  intros H. destruct (rnd_is_scaled_int x H) as (m & e & Hm & He & E).
  pose proof (rnd_scaled_int m e (rnd x) Hm He E) as R.
  apply Qred_complete in R.
  assert (I : forall q, Qred (Qred q) = Qred q)
    by (intros q; apply Qred_complete, Qred_correct).
  unfold rnd at 1. fold (rnd (rnd x)) in R.
  transitivity (Qred (rnd x)); [| unfold rnd; apply I].
  rewrite <- R. unfold rnd at 1. symmetry. apply I.
Qed.
End Float64Facts.

(** ** Python floats: order *)

Module Float64Order.
Import Float64 Float64Facts.
Local Open Scope Q_scope.
#[local] Arguments pow2 : simpl never.
#[local] Arguments rnd : simpl never.

Lemma pow2_emax_big : inject_Z (2 ^ 53) < pow2 emax.
Proof. rewrite <- pow2_int by lia. apply pow2_lt. unfold emax. lia. Qed.

Lemma of_Q_finite (x : Q) :
  0 <= rnd x -> rnd x < pow2 emax -> of_Q x = Finite (rnd x).
Proof.
  intros H0 H1. unfold of_Q.
  destruct (Qle_bool (pow2 emax) (Qabs (rnd x))) eqn:E; [| reflexivity].
  apply Qle_bool_iff in E. rewrite Qabs_pos in E by assumption. lra.
Qed.

Lemma of_Q_within (x : Q) (lo hi : Z) :
  (0 <= lo)%Z -> (hi <= 2 ^ 53)%Z ->
  inject_Z lo <= x <= inject_Z hi -> within lo hi (of_Q x).
Proof.
  intros Hlo Hhi [L U].
  assert (H0 : 0 <= inject_Z lo) by (change 0 with (inject_Z 0); rewrite <- Zle_Qle; lia).
  assert (Hle : (lo <= hi)%Z) by (rewrite Zle_Qle; lra).
  assert (Rl : inject_Z lo <= rnd x).
  { rewrite <- (rnd_int lo) by lia. now apply rnd_le. }
  assert (Ru : rnd x <= inject_Z hi).
  { rewrite <- (rnd_int hi) by lia. apply rnd_le; lra. }
  exists (rnd x). split; [| split; assumption].
  apply of_Q_finite; [lra |].
  apply Qle_lt_trans with (inject_Z (2 ^ 53)); [| apply pow2_emax_big].
  apply Qle_trans with (inject_Z hi); [exact Ru |]. now rewrite <- Zle_Qle.
Qed.

Lemma of_Q_nonneg (x : Q) : 0 <= x -> nonneg (of_Q x).
Proof.
  intros H. pose proof (rnd_nonneg x H) as R. unfold of_Q.
  destruct (Qle_bool (pow2 emax) (Qabs (rnd x))); cbn [nonneg]; [| exact R].
  apply Qle_bool_iff in R. now rewrite R.
Qed.

Lemma of_Q_leq (x y : Q) : 0 <= x -> x <= y -> leq (of_Q x) (of_Q y).
Proof.
  intros H L. pose proof (rnd_le x y H L) as R. pose proof (rnd_nonneg x H) as R0.
  assert (Ry : Qle_bool 0 (rnd y) = true) by (apply Qle_bool_iff; lra).
  assert (Rx : Qle_bool 0 (rnd x) = true) by (apply Qle_bool_iff; lra).
  unfold of_Q. rewrite Rx, Ry. cbn [negb].
  destruct (Qle_bool (pow2 emax) (Qabs (rnd x))) eqn:Ex;
    destruct (Qle_bool (pow2 emax) (Qabs (rnd y))) eqn:Ey; cbn [leq];
    [exact I | | exact R0 | split; assumption].
  exfalso. apply Qle_bool_iff in Ex. rewrite Qabs_pos in Ex by lra.
  assert (C : pow2 emax <= Qabs (rnd y)) by (rewrite Qabs_pos by lra; lra).
  apply Qle_bool_iff in C. congruence.
Qed.

Lemma leq_nonneg_l (a b : Float64.t) : leq a b -> nonneg a.
Proof. destruct a as [x | [] |], b as [y | [] |]; simpl; tauto. Qed.

Lemma leq_nonneg_r (a b : Float64.t) : leq a b -> nonneg b.
Proof. destruct a as [x | [] |], b as [y | [] |]; simpl; try tauto. lra. Qed.

Lemma leq_refl (a : Float64.t) : nonneg a -> leq a a.
Proof. destruct a as [x | [] |]; simpl; try tauto; try discriminate. lra. Qed.


Lemma leq_trans (a b c : Float64.t) : leq a b -> leq b c -> leq a c.
Proof.
  destruct a as [x | [] |], b as [y | [] |], c as [z | [] |]; simpl; try tauto; lra.
Qed.

Lemma within_nonneg (lo hi : Z) (a : Float64.t) : (0 <= lo)%Z -> within lo hi a -> nonneg a.
Proof.
  intros H (y & -> & L & _). simpl.
  apply Qle_trans with (inject_Z lo); [| exact L].
  change 0 with (inject_Z 0). rewrite <- Zle_Qle. lia.
Qed.

(** Sums. *)
Lemma add_leq (a a' b b' : Float64.t) :
  leq a a' -> leq b b' -> leq (add a b) (add a' b').
Proof.
  destruct a as [x | [] |], a' as [x' | [] |], b as [y | [] |], b' as [y' | [] |];
    simpl; try tauto; intros Ha Hb.
  - apply of_Q_leq; lra.
  - pose proof (of_Q_nonneg (x + y) ltac:(lra)) as N.
    destruct (of_Q (x + y)) as [z | [] |]; simpl in *; try tauto; discriminate.
  - pose proof (of_Q_nonneg (x + y) ltac:(lra)) as N.
    destruct (of_Q (x + y)) as [z | [] |]; simpl in *; try tauto; discriminate.
  - pose proof (of_Q_nonneg (x + y) ltac:(lra)) as N.
    destruct (of_Q (x + y)) as [z | [] |]; simpl in *; try tauto; discriminate.
Qed.

Lemma add_nonneg (a b : Float64.t) : nonneg a -> nonneg b -> nonneg (add a b).
Proof.
  intros Ha Hb. eapply leq_nonneg_l. apply add_leq; apply leq_refl; eassumption.
Qed.

Lemma nonneg_cases (a : Float64.t) :
  nonneg a -> (exists x, a = Finite x /\ 0 <= x) \/ a = Infinity false.
Proof.
  destruct a as [x | [] |]; cbn [nonneg]; intros H; try discriminate; try tauto;
    eauto.
Qed.

Lemma of_int_small (w : Z) : (0 <= w <= 2 ^ 53)%Z -> of_int w = Finite (inject_Z w).
Proof.
  intros [L U]. unfold of_int.
  rewrite of_Q_finite; rewrite rnd_int by lia; try reflexivity.
  - change 0 with (inject_Z 0). rewrite <- Zle_Qle. lia.
  - apply Qle_lt_trans with (inject_Z (2 ^ 53)); [| apply pow2_emax_big].
    now rewrite <- Zle_Qle.
Qed.

Lemma ltb_finite (x y : Q) : ltb (Finite x) (Finite y) = true <-> x < y.
Proof.
  cbn [ltb]. rewrite negb_true_iff. split.
  - intros E. apply Qnot_le_lt. intros C. apply Qle_bool_iff in C. congruence.
  - intros L. destruct (Qle_bool y x) eqn:E; [| reflexivity].
    apply Qle_bool_iff in E. lra.
Qed.

Lemma ltb_finite_false (x y : Q) : ltb (Finite x) (Finite y) = false <-> y <= x.
Proof.
  cbn [ltb]. rewrite negb_false_iff. apply Qle_bool_iff.
Qed.


Lemma min_within (a : Float64.t) (w : Z) :
  nonneg a -> (0 <= w)%Z -> within 0 w (min a (Finite (inject_Z w))).
Proof.
  intros Ha Hw.
  assert (H0 : 0 <= inject_Z w) by (change 0 with (inject_Z 0); rewrite <- Zle_Qle; lia).
  unfold min, within. change (inject_Z 0) with 0.
  destruct (nonneg_cases a Ha) as [(x & -> & Hx) | ->].
  - destruct (ltb (Finite (inject_Z w)) (Finite x)) eqn:E.
    + eexists. split; [reflexivity | lra].
    + apply ltb_finite_false in E. eexists. split; [reflexivity | lra].
  - cbn [ltb negb]. eexists. split; [reflexivity | lra].
Qed.

Lemma sub_finite (t c : Q) : sub (Finite t) (Finite c) = of_Q (t + Qred (- c)).
Proof. reflexivity. Qed.

Lemma sub_within (a b : Float64.t) (lo hi w : Z) :
  (w <= lo)%Z -> (hi <= 2 ^ 53)%Z ->
  within lo hi a -> within 0 w b -> within (lo - w) hi (sub a b).
Proof.
  intros Hlo Hhi (t & -> & Lt & Ut) (c & -> & Lc & Uc).
  change (inject_Z 0) with 0 in Lc.
  rewrite sub_finite. apply of_Q_within; [lia | lia |].
  rewrite Qred_correct. unfold Z.sub. rewrite inject_Z_plus, inject_Z_opp. lra.
Qed.


Lemma round_int (k : Z) (n : nat) : PyNum.round (inject_Z k) n == inject_Z k.
Proof.
  unfold PyNum.round. rewrite Qred_correct.
  rewrite (PyNumFacts.round_half_even_proper _ (inject_Z (k * Z.pos (PyNum.pow10 n))))
    by (now rewrite inject_Z_mult).
  rewrite round_half_even_int. unfold Qeq, inject_Z. simpl. lia.
Qed.

Lemma round_within (a : Float64.t) (lo hi : Z) (n : nat) :
  (0 <= lo)%Z -> (hi <= 2 ^ 53)%Z ->
  within lo hi a -> within lo hi (round a n).
Proof.
  intros Hlo Hhi (x & -> & L & U). cbn [round].
  apply of_Q_within; [assumption | assumption |].
  rewrite <- (round_int lo n), <- (round_int hi n).
  split; now apply PyNumFacts.round_le.
Qed.


(** What the clamp to 0..100 makes of a finite value. *)
Lemma clamp_within (t : Q) :
  within 0 100 (max (Finite 0) (min (Finite 100) (Finite t))).
Proof.
  unfold min, max, within. change (inject_Z 0) with 0. change (inject_Z 100) with 100.
  destruct (ltb (Finite t) (Finite 100)) eqn:E1;
    [apply ltb_finite in E1 | apply ltb_finite_false in E1].
  - destruct (ltb (Finite 0) (Finite t)) eqn:E2;
      [apply ltb_finite in E2 | apply ltb_finite_false in E2];
      eexists; (split; [reflexivity | lra]).
  - destruct (ltb (Finite 0) (Finite 100)) eqn:E2;
      [apply ltb_finite in E2 | apply ltb_finite_false in E2];
      eexists; (split; [reflexivity | lra]).
Qed.

Lemma of_Q_cases (x : Q) :
  0 <= x -> of_Q x = Finite (rnd x) /\ rnd x < pow2 emax \/ of_Q x = Infinity false.
Proof.
  intros H. pose proof (rnd_nonneg x H) as R. unfold of_Q.
  destruct (Qle_bool (pow2 emax) (Qabs (rnd x))) eqn:E.
  - right. apply Qle_bool_iff in R. now rewrite R.
  - left. split; [reflexivity |]. apply Qnot_le_lt. intros C.
    rewrite <- (Qabs_pos (rnd x)) in C by exact R.
    apply Qle_bool_iff in C. congruence.
Qed.

(** What [of_Q] returns is a double. *)
Lemma of_Q_double (x : Q) : 0 <= x -> double (of_Q x).
Proof.
  intros H. destruct (of_Q_cases x H) as [[E B] | E]; rewrite E; cbn [double]; [| exact I].
  rewrite (of_Q_finite (rnd x)); rewrite rnd_idem by exact H;
    [reflexivity | now apply rnd_nonneg | exact B].
Qed.

Lemma add_double (a b : Float64.t) : nonneg a -> nonneg b -> double (add a b).
Proof.
  destruct a as [x | [] |], b as [y | [] |]; cbn [nonneg add double Bool.eqb];
    try tauto; try discriminate; intros Ha Hb.
  apply of_Q_double. lra.
Qed.

(** Adding a value that is not negative to a double does not give
    less. *)
Lemma add_leq_l (a b : Float64.t) : nonneg a -> double a -> nonneg b -> leq a (add a b).
Proof.
  destruct a as [x | [] |], b as [y | [] |]; cbn [nonneg add double Bool.eqb];
    try tauto; try discriminate; intros Ha Da Hb; try exact I; try exact Ha.
  rewrite <- Da at 1. apply of_Q_leq; lra.
Qed.

Lemma leq_leb (a b : Float64.t) : leq a b -> leb a b = true.
Proof.
  destruct a as [x | [] |], b as [y | [] |]; cbn [leq leb negb orb]; try tauto.
  intros [_ L]. now apply Qle_bool_iff.
Qed.

Lemma leb_trans (a b c : Float64.t) : leb a b = true -> leb b c = true -> leb a c = true.
Proof.
  destruct a as [x | [] |], b as [y | [] |], c as [z | [] |]; cbn [leb negb orb];
    try discriminate; try reflexivity.
  rewrite !Qle_bool_iff. intros. lra.
Qed.

(** A finite value that [of_Q] returns is in lowest terms. *)
Lemma of_Q_canonical (x y : Q) : of_Q x = Finite y -> Qred y = y.
Proof.
  unfold of_Q. destruct (Qle_bool _ _); [discriminate |]. intros [= <-].
  unfold rnd. apply Qred_complete, Qred_correct.
Qed.

Lemma double_canonical (y z : Q) : double (Finite y) -> y == z -> Qred z = z -> y = z.
Proof.
  cbn [double]. intros D E C. apply of_Q_canonical in D.
  rewrite <- D, <- C. now apply Qred_complete.
Qed.
End Float64Order.

(** ** Python floats: the rounding error *)

Module Float64Near.
Import Float64 Float64Facts Float64Order.
Local Open Scope Q_scope.
#[local] Arguments pow2 : simpl never.
#[local] Arguments rnd : simpl never.
#[local] Arguments of_Q : simpl never.

Lemma pow2_half (e : Z) : pow2 (e - 1) == pow2 e * (1 # 2).
Proof. rewrite pow2_sub. reflexivity. Qed.

(** Rounding moves a positive number below [2 ^ (e + 53)] by at most
    half a unit in the last place, [2 ^ (e - 1)]. *)
Lemma rnd_near (x : Q) (e : Z) :
  0 <= x < pow2 (e + 53) -> (-1074 <= e)%Z ->
  x - pow2 (e - 1) <= rnd x <= x + pow2 (e - 1).
Proof.
  intros [L U] He. pose proof (pow2_pos (e - 1)) as Pe.
  destruct (Qlt_le_dec 0 x) as [Hx | Hx].
  2: { rewrite (rnd_zero x) by lra. lra. }
  rewrite rnd_eq, (ulp_exp_pos x Hx).
  destruct (log2_floor_spec x Hx) as [Lx _].
  set (l := log2_floor x) in *.
  assert (Hl : (l < e + 53)%Z) by (apply pow2_lt_inv; lra).
  set (u := Z.max (l - 52) (-1074)).
  assert (Hu : (u <= e)%Z) by lia.
  pose proof (pow2_pos u) as Pu.
  pose proof (PyNumNear.round_half_even_near (x / pow2 u)) as [N1 N2].
  set (m := inject_Z (PyNum.round_half_even (x / pow2 u))) in *.
  assert (Ex : x == x / pow2 u * pow2 u).
  { unfold Qdiv. rewrite <- Qmult_assoc, (Qmult_comm (/ _)), Qmult_inv_r by lra. ring. }
  assert (Hh : pow2 u * (1 # 2) <= pow2 (e - 1)).
  { rewrite <- pow2_half. apply pow2_le. lia. }
  set (y := x / pow2 u) in *. clearbody y m.
  assert (M1 : (y - (1 # 2)) * pow2 u <= m * pow2 u)
    by (apply Qmult_le_compat_r; lra).
  assert (M2 : m * pow2 u <= (y + (1 # 2)) * pow2 u)
    by (apply Qmult_le_compat_r; lra).
  set (p := pow2 u) in *. set (q := pow2 (e - 1)) in *.
  set (mp := m * p) in *. clearbody mp.
  assert (D1 : (y - (1 # 2)) * p == y * p - p * (1 # 2)) by ring.
  assert (D2 : (y + (1 # 2)) * p == y * p + p * (1 # 2)) by ring.
  set (yp := y * p) in *. clearbody yp p q. lra.
Qed.

(** For the numbers of the scorer: up to 100, by at most [2^-47]. *)
Lemma rnd_near_100 (x : Q) :
  0 <= x <= 100 -> x - (1 # 140737488355328) <= rnd x <= x + (1 # 140737488355328).
Proof.
  intros [L U]. apply (rnd_near x (-46)); [| lia].
  split; [exact L |]. apply Qle_lt_trans with 100; [exact U |]. reflexivity.
Qed.
End Float64Near.

(** ** Ordered dictionaries *)

Module ODictFacts.
Section facts.
Context {V : Type}.
Implicit Types (d : ODict.t V) (k : string).

Lemma get_setdefault_with_eq k dflt f d :
  ODict.get k (ODict.setdefault_with k dflt f d)
  = Some (f (ODict.get_default k dflt d)).
Proof.
  unfold ODict.get_default.
  induction d as [| [k' v] d IH]; simpl.
  - now rewrite decide_True.
  - destruct (decide (k' = k)) as [-> | N]; simpl.
    + now rewrite decide_True.
    + now rewrite decide_False.
Qed.

Lemma get_setdefault_with_ne k k' dflt f d :
  k <> k' ->
  ODict.get k' (ODict.setdefault_with k dflt f d) = ODict.get k' d.
Proof.
  intros N. induction d as [| [k0 v] d IH]; simpl.
  - now rewrite decide_False.
  - destruct (decide (k0 = k)) as [-> | N0]; simpl.
    + now rewrite !decide_False.
    + now rewrite IH.
Qed.

Lemma setdefault_with_fresh k dflt f d :
  k ∉ ODict.keys d ->
  ODict.setdefault_with k dflt f d = d ++ [(k, f dflt)].
Proof.
  induction d as [| [k0 v] d IH]; simpl; intros F; [reflexivity |].
  apply not_elem_of_cons in F as [F1 F2].
  rewrite decide_False by congruence. now rewrite IH.
Qed.

Lemma keys_fmap_pair (g : string -> V) (U : list string) :
  ODict.keys ((fun ty => (ty, g ty)) <$> U) = U.
Proof.
  unfold ODict.keys.
  induction U as [| t U IH]; simpl; [reflexivity | now f_equal].
Qed.

(** Updating the entry of [t] in a dictionary tabulated from a
    duplicate-free key list. *)
Lemma setdefault_with_fmap_in (U : list string) (g g' : string -> V) t dflt f :
  NoDup U -> t ∈ U ->
  g' t = f (g t) ->
  (forall t', t' <> t -> g' t' = g t') ->
  ODict.setdefault_with t dflt f ((fun ty => (ty, g ty)) <$> U)
  = (fun ty => (ty, g' ty)) <$> U.
Proof.
  intros ND I Ht Hne.
  induction U as [| t' U IH]; [inversion I |].
  inversion ND as [| ? ? Ht' NDU]; subst. simpl.
  destruct (decide (t' = t)) as [-> | N].
  - rewrite Ht. f_equal.
    apply list_fmap_ext. intros k x Hx.
    rewrite Hne; [reflexivity |].
    intros ->. apply list_elem_of_lookup_2 in Hx. contradiction.
  - rewrite Hne by assumption. f_equal.
    apply IH; [assumption |].
    apply elem_of_cons in I as [I | I]; [congruence | assumption].
Qed.
End facts.
End ODictFacts.

(** ** Lists *)

Module ListFacts.
Lemma filter_none {A} (P : A -> Prop) `{forall x, Decision (P x)} (l : list A) :
  (forall x, x ∈ l -> ~ P x) -> filter P l = [].
Proof.
  induction l as [| a l IH]; intros Hl; [reflexivity |].
  rewrite filter_cons_False by (apply Hl; left).
  apply IH. intros x Hx. apply Hl. now right.
Qed.
End ListFacts.

(** ** Grouping of issues *)

Module GroupFacts.
Import Scorer ScorerSpec.

Lemma group_issues_snoc (l : list Issue) (j : Issue) :
  group_issues (l ++ [j]) = group_step (group_issues l) j.
Proof. unfold group_issues. now rewrite fold_left_app. Qed.

Lemma inner_group_snoc (l : list Issue) (j : Issue) :
  inner_group (l ++ [j])
  = ODict.setdefault_with (issue_type j) [] (fun l => l ++ [j]) (inner_group l).
Proof. unfold inner_group. now rewrite fold_left_app. Qed.

(** [by_cat.get(category, {})] only depends on the issues of that
    category. *)
Lemma type_map_filter (cat : string) (issues : list Issue) :
  ODict.get_default cat [] (group_issues issues)
  = inner_group (filter (fun i => category i = cat) issues).
Proof.
  induction issues as [| j l IH] using rev_ind; [reflexivity |].
  rewrite group_issues_snoc, filter_app. unfold group_step.
  destruct (decide (category j = cat)) as [E | N].
  - rewrite filter_cons_True, filter_nil, inner_group_snoc, <- IH by assumption.
    unfold ODict.get_default at 1. rewrite <- E.
    now rewrite ODictFacts.get_setdefault_with_eq.
  - rewrite filter_cons_False, filter_nil, app_nil_r, <- IH by assumption.
    unfold ODict.get_default.
    now rewrite ODictFacts.get_setdefault_with_ne.
Qed.

Lemma first_occurrences_elem (x : string) (l : list string) :
  x ∈ first_occurrences l <-> x ∈ l.
Proof.
  induction l as [| y l IH]; simpl; [reflexivity |].
  rewrite !elem_of_cons, list_elem_of_filter, IH.
  destruct (decide (x = y)); tauto.
Qed.

Lemma first_occurrences_NoDup (l : list string) : NoDup (first_occurrences l).
Proof.
  induction l as [| y l IH]; simpl; constructor.
  - rewrite list_elem_of_filter. tauto.
  - now apply NoDup_filter.
Qed.

Lemma first_occurrences_snoc (l : list string) (x : string) :
  first_occurrences (l ++ [x])
  = if decide (x ∈ l) then first_occurrences l else first_occurrences l ++ [x].
Proof.
  induction l as [| y l IH]; simpl; [reflexivity |].
  rewrite IH.
  destruct (decide (x ∈ y :: l)) as [I' | I'], (decide (x ∈ l)) as [I | I];
    try reflexivity.
  - apply elem_of_cons in I' as [-> | I']; [| contradiction].
    rewrite filter_app, filter_cons_False, filter_nil, app_nil_r; [reflexivity | tauto].
  - exfalso. apply I'. now right.
  - rewrite filter_app, filter_cons_True; [reflexivity |].
    intros ->. apply I'. now left.
Qed.

(** The inner dictionary lists the distinct issue types in order of
    first occurrence, each with its issues in their original order. *)
Lemma inner_group_spec (l : list Issue) :
  inner_group l
  = (fun ty => (ty, filter (fun i => issue_type i = ty) l))
    <$> first_occurrences (issue_type <$> l).
Proof.
  induction l as [| j l IH] using rev_ind; [reflexivity |].
  rewrite inner_group_snoc, IH, fmap_app. simpl.
  rewrite first_occurrences_snoc.
  pose proof (first_occurrences_NoDup (issue_type <$> l)) as ND.
  pose proof (first_occurrences_elem (issue_type j) (issue_type <$> l)) as EL.
  destruct (decide (issue_type j ∈ issue_type <$> l)) as [I | I].
  - apply ODictFacts.setdefault_with_fmap_in; [assumption | now apply EL | |].
    + now rewrite filter_app, filter_cons_True, filter_nil by reflexivity.
    + intros t' N.
      rewrite filter_app, filter_cons_False, filter_nil, app_nil_r; congruence.
  - rewrite ODictFacts.setdefault_with_fresh
      by (rewrite ODictFacts.keys_fmap_pair, EL; assumption).
    rewrite fmap_app. simpl. f_equal.
    + apply list_fmap_ext. intros k t' Ht. f_equal.
      rewrite filter_app, filter_cons_False, filter_nil, app_nil_r; [reflexivity |].
      intros E. apply I. rewrite E.
      apply first_occurrences_elem. eapply list_elem_of_lookup_2. exact Ht.
    + f_equal. f_equal.
      rewrite filter_app, filter_cons_True, filter_nil by reflexivity.
      rewrite ListFacts.filter_none; [reflexivity |].
      intros i Hi E. apply I. rewrite <- E. apply list_elem_of_fmap. eauto.
Qed.

End GroupFacts.

(** ** The scoring loop *)

Module ScorerFacts.
Import Scorer ScorerSpec.
Local Open Scope Q_scope.





Lemma affected_pages_distinct (l : list Issue) :
  affected_pages l = distinct_pages l.
Proof.
  unfold affected_pages, distinct_pages.
  rewrite <- (size_list_to_set (C := gset string) (remove_dups (issue_url <$> l)))
    by apply NoDup_remove_dups.
  f_equal. apply set_eq. intros x.
  now rewrite !elem_of_list_to_set, elem_of_remove_dups.
Qed.













End ScorerFacts.

(** ** Scorer: dependence on the deductions only, monotonicity *)

Module ScorerOrder.
Import Scorer ScorerSpec ScorerFacts.
Local Open Scope Q_scope.

Section sums.
Context {A : Type}.
Implicit Types (f g : A -> Q) (l : list A).



End sums.







End ScorerOrder.

(** ** Scorer: appending one issue *)

Module ScorerAppend.
Import Scorer ScorerSpec ScorerFacts ScorerOrder.
Local Open Scope Q_scope.

Lemma first_severity_snoc (l : list Issue) (j : Issue) :
  l <> [] -> first_severity (l ++ [j]) = first_severity l.
Proof. destruct l; [congruence | reflexivity]. Qed.

Lemma distinct_pages_snoc_old (l : list Issue) (j : Issue) :
  issue_url j ∈ issue_url <$> l -> distinct_pages (l ++ [j]) = distinct_pages l.
Proof.
  intros I. rewrite <- !affected_pages_distinct. unfold affected_pages.
  f_equal. rewrite fmap_app, list_to_set_app_L. simpl.
  apply (elem_of_list_to_set (C := gset string)) in I. set_solver.
Qed.



Lemma type_cost_snoc_same (n : Z) (l : list Issue) (j : Issue) :
  issue_url j ∈ issue_url <$> l -> type_cost n (l ++ [j]) = type_cost n l.
Proof.
  intros I. unfold type_cost.
  rewrite first_severity_snoc, distinct_pages_snoc_old; [reflexivity | assumption |].
  intros ->. inversion I.
Qed.









End ScorerAppend.

(** ** The scorer over binary64 *)

Module Scorer64Facts.
Import Float64 Float64Facts Float64Order Scorer64 Scorer64Spec.
Local Open Scope Q_scope.
#[local] Arguments pow2 : simpl never.
#[local] Arguments rnd : simpl never.
#[local] Arguments of_Q : simpl never.

Lemma of_Q_0 : of_Q 0 = Finite 0.
Proof. vm_compute. reflexivity. Qed.

Lemma of_Q_1 : of_Q 1 = Finite 1.
Proof. vm_compute. reflexivity. Qed.

Lemma of_Q_100 : of_Q 100 = Finite 100.
Proof. vm_compute. reflexivity. Qed.

Lemma type_weight_get (sev : string) :
  ODict.get_default sev (of_Q 0) _TYPE_WEIGHT = base_deduction sev.
Proof.
  unfold base_deduction, ODict.get_default, _TYPE_WEIGHT. cbn [ODict.get].
  unfold Severity.CRITICAL, Severity.WARNING, Severity.INFO.
  repeat match goal with
    | |- context [decide (?a = ?b)] => destruct (decide (a = b)); try congruence
    end; reflexivity.
Qed.

Lemma type_deduction_is_cost (n : Z) (l : list Issue) :
  type_deduction n l = type_cost n l.
Proof.
  unfold type_deduction, type_cost.
  now rewrite type_weight_get, ScorerFacts.affected_pages_distinct.
Qed.

Lemma cat_deduction_fold (n : Z) (U : list string) (g : string -> list Issue)
    (a : Float64.t) :
  fold_left (fun ded '(_, type_issues) => add ded (type_deduction n type_issues))
    ((fun ty => (ty, g ty)) <$> U) a
  = fold_left add ((fun ty => type_cost n (g ty)) <$> U) a.
Proof.
  revert a. induction U as [| ty U IH]; intros a; [reflexivity |].
  cbn [fmap list_fmap fold_left]. now rewrite IH, type_deduction_is_cost.
Qed.

(** The deduction the loop computes for a category is the sum the
    specification describes. *)
Lemma cat_deduction_is_deduction (n : Z) (cat : string) (issues : list Issue) :
  cat_deduction n (ODict.get_default cat [] (Scorer.group_issues issues))
  = deduction n cat issues.
Proof.
  unfold cat_deduction.
  rewrite GroupFacts.type_map_filter, GroupFacts.inner_group_spec.
  apply cat_deduction_fold.
Qed.

(** The fold over [SCORING_WEIGHTS.items()], for any list of weights
    with distinct keys. *)
Lemma weights_fold (n : Z) (issues : list Issue) (ws : ODict.t Z) (total : Float64.t)
    (cs : ODict.t Float64.t) :
  NoDup (ODict.keys cs ++ ODict.keys ws) ->
  fold_left (score_step n (Scorer.group_issues issues)) ws (total, cs)
  = (fold_left (fun total cw => sub total (capped n issues cw)) ws total,
     cs ++ (category_score n issues <$> ws)).
Proof.
  revert total cs. induction ws as [| [c w] ws IH]; intros total cs ND.
  - cbn [fold_left fmap list_fmap]. now rewrite app_nil_r.
  - assert (Hc : c ∉ ODict.keys cs).
    { apply NoDup_app in ND as (_ & ND & _).
      intros I. apply (ND c I). simpl. left. }
    cbn [fold_left fmap list_fmap]. unfold score_step at 2.
    unfold ODict.set. rewrite ODictFacts.setdefault_with_fresh by assumption.
    rewrite cat_deduction_is_deduction. rewrite IH.
    + rewrite <- app_assoc. reflexivity.
    + unfold ODict.keys in *. rewrite map_app, <- app_assoc. exact ND.
Qed.

Lemma weight_keys_NoDup : NoDup (ODict.keys SCORING_WEIGHTS).
Proof. apply (bool_decide_unpack _). vm_compute. exact I. Qed.

Lemma score_loop_is_raw_total (issues : list Issue) (total_pages : Z) :
  let n := Z.max total_pages 1 in
  score_loop issues total_pages
  = (raw_total n issues, category_score n issues <$> SCORING_WEIGHTS).
Proof.
  intros n. unfold score_loop. rewrite weights_fold by apply weight_keys_NoDup. reflexivity.
Qed.

(** The function in terms of the specification's words. *)
Lemma compute_health_score_unfold (issues : list Issue) (total_pages : Z) :
  let n := Z.max total_pages 1 in
  compute_health_score issues total_pages
  = (round (clamp (raw_total n issues)) 1,
     category_score n issues <$> SCORING_WEIGHTS).
Proof.
  intros n. destruct issues as [| i issues].
  - vm_compute. reflexivity.
  - unfold compute_health_score. rewrite score_loop_is_raw_total. reflexivity.
Qed.

(** *** Ranges *)

Lemma ratio_within (a n : Z) :
  (0 <= a)%Z -> (1 <= n)%Z -> within 0 1 (min (of_Q 1) (truediv a n)).
Proof.
  intros Ha Hn. rewrite of_Q_1. unfold truediv.
  assert (Hq : 0 <= inject_Z a / inject_Z n).
  { apply Qle_shift_div_l.
    - change 0 with (inject_Z 0). rewrite <- Zlt_Qlt. lia.
    - rewrite Qmult_0_l. change 0 with (inject_Z 0). rewrite <- Zle_Qle. lia. }
  pose proof (of_Q_nonneg _ Hq) as N.
  unfold min, within. change (inject_Z 0) with 0. change (inject_Z 1) with 1.
  destruct (nonneg_cases _ N) as [(x & -> & Hx) | ->].
  - destruct (ltb (Finite x) (Finite 1)) eqn:E;
      [apply ltb_finite in E | apply ltb_finite_false in E];
      eexists; (split; [reflexivity | lra]).
  - cbn [ltb]. eexists. split; [reflexivity | lra].
Qed.

Lemma base_deduction_within (sev : string) : within 0 12 (base_deduction sev).
Proof.
  unfold base_deduction, within.
  repeat match goal with
    | |- context [decide (?a = ?b)] => destruct (decide (a = b))
    end;
    (eexists; split; [vm_compute; reflexivity | split; unfold Qle; simpl; lia]).
Qed.

Lemma mul_within (a b : Float64.t) (ha hb : Z) :
  (0 <= ha)%Z -> (0 <= hb)%Z -> (ha * hb <= 2 ^ 53)%Z ->
  within 0 ha a -> within 0 hb b -> within 0 (ha * hb) (mul a b).
Proof.
  intros Ha Hb Hab (x & -> & Lx & Ux) (y & -> & Ly & Uy).
  change (inject_Z 0) with 0 in *. cbn [mul].
  apply of_Q_within; [lia | assumption |].
  change (inject_Z 0) with 0. rewrite inject_Z_mult. split.
  - now apply Qmult_le_0_compat.
  - apply Qle_trans with (inject_Z ha * y).
    + apply Qmult_le_compat_r; assumption.
    + rewrite !(Qmult_comm (inject_Z ha)). apply Qmult_le_compat_r; [assumption |].
      change 0 with (inject_Z 0). rewrite <- Zle_Qle. lia.
Qed.

Lemma type_cost_within (n : Z) (l : list Issue) :
  (1 <= n)%Z -> within 0 12 (type_cost n l).
Proof.
  intros Hn. unfold type_cost.
  apply (mul_within _ _ 12 1); [lia | lia | lia | apply base_deduction_within |].
  apply ratio_within; lia.
Qed.

Lemma fold_add_nonneg (l : list Float64.t) (a : Float64.t) :
  nonneg a -> Forall nonneg l -> nonneg (fold_left add l a).
Proof.
  revert a. induction l as [| b l IH]; intros a Ha Hl; [exact Ha |].
  apply Forall_cons in Hl as [Hb Hl]. cbn [fold_left].
  apply IH; [| exact Hl]. now apply add_nonneg.
Qed.

Lemma deduction_not_negative (n : Z) (cat : string) (issues : list Issue) :
  (1 <= n)%Z -> nonneg (deduction n cat issues).
Proof.
  intros Hn. unfold deduction, fsum. apply fold_add_nonneg.
  - rewrite of_Q_0. cbn [nonneg]. lra.
  - apply Forall_fmap, Forall_forall. intros ty _. cbn [compose].
    eapply within_nonneg; [| now apply type_cost_within]. lia.
Qed.

Lemma weights_small :
  Forall (fun cw : string * Z => (0 <= snd cw <= 18)%Z) SCORING_WEIGHTS.
Proof. unfold SCORING_WEIGHTS. repeat constructor; simpl; lia. Qed.

Lemma capped_within (n : Z) (issues : list Issue) (cw : string * Z) :
  (1 <= n)%Z -> (0 <= snd cw <= 2 ^ 53)%Z -> within 0 (snd cw) (capped n issues cw).
Proof.
  intros Hn Hw. unfold capped. rewrite of_int_small by assumption.
  apply min_within; [now apply deduction_not_negative | lia].
Qed.

Lemma category_score_within (n : Z) (issues : list Issue) (cw : string * Z) :
  (1 <= n)%Z -> (0 <= snd cw <= 2 ^ 53)%Z ->
  within 0 (snd cw) (snd (category_score n issues cw)).
Proof.
  intros Hn Hw. unfold category_score. cbn [snd].
  apply round_within; [lia | lia |].
  replace 0%Z with (snd cw - snd cw)%Z at 1 by lia.
  apply sub_within; [lia | lia | | now apply capped_within].
  rewrite of_int_small by assumption.
  eexists. split; [reflexivity | lra].
Qed.

(** The total stays between the sum of the weights still to come and
    100. *)
Lemma total_fold_within (n : Z) (issues : list Issue) (ws : ODict.t Z) (total : Float64.t) :
  (1 <= n)%Z ->
  Forall (fun cw : string * Z => (0 <= snd cw)%Z) ws ->
  let rest := fold_right Z.add 0%Z (snd <$> ws) in
  (rest <= 100)%Z ->
  within rest 100 total ->
  within 0 100 (fold_left (fun total cw => sub total (capped n issues cw)) ws total).
Proof.
  intros Hn. revert total. induction ws as [| cw ws IH]; intros total Hw rest Hr Ht.
  - exact Ht.
  - apply Forall_cons in Hw as [Hw0 Hw]. cbn [fold_left].
    subst rest. cbn [fmap list_fmap fold_right] in *.
    set (rest := fold_right Z.add 0%Z (snd <$> ws)) in *.
    assert (Hrest : (0 <= rest)%Z).
    { clear -Hw. subst rest. induction Hw; cbn [fmap list_fmap fold_right]; lia. }
    apply IH; [exact Hw | lia |].
    replace rest with (snd cw + rest - snd cw)%Z at 1 by lia.
    apply sub_within; [lia | lia | exact Ht |].
    apply capped_within; [exact Hn | lia].
Qed.

Lemma raw_total_within (n : Z) (issues : list Issue) :
  (1 <= n)%Z -> within 0 100 (raw_total n issues).
Proof.
  intros Hn. unfold raw_total. apply total_fold_within; [exact Hn | | |].
  - eapply Forall_impl; [apply weights_small |]. intros cw H. simpl in H. lia.
  - vm_compute. discriminate.
  - rewrite of_Q_100. eexists. split; [reflexivity |]. vm_compute. split; discriminate.
Qed.

(** The result of the function is within its ranges. *)
Lemma overall_within (n : Z) (issues : list Issue) :
  (1 <= n)%Z -> within 0 100 (round (clamp (raw_total n issues)) 1).
Proof.
  intros Hn. destruct (raw_total_within n issues Hn) as (t & E & _).
  rewrite E. unfold clamp. rewrite of_Q_0, of_Q_100.
  apply round_within; [lia | lia | apply clamp_within].
Qed.
End Scorer64Facts.

(** ** The scorer over binary64: order *)

Module Scorer64Order.
Import Float64 Float64Facts Float64Order Scorer64 Scorer64Spec Scorer64Facts.
Local Open Scope Q_scope.
#[local] Arguments pow2 : simpl never.
#[local] Arguments rnd : simpl never.
#[local] Arguments of_Q : simpl never.




(** *** Appending one issue *)













End Scorer64Order.

(** ** Scorer: the claims *)

Module Scorer64Claims.
Import Scorer64 Scorer64Spec Scorer64Facts Scorer64Order.

(** C4, as amended.  For every issue list and total-page count,
    [compute_health_score] deducts per category the sum over the unique
    issue types, in the order of their first occurrence, of the
    per-severity base (critical 12, warning 4, info 0.8, otherwise 0;
    the severity of the type's first issue) times min(1, distinct
    affected pages / max(total pages, 1)), caps the deduction at the
    category's weight, reports each category score as weight minus
    capped deduction ROUNDED TO TWO DECIMALS, and returns 100 minus the
    capped deductions, subtracted one category after the other, clamped
    to [0, 100] and ROUNDED TO ONE DECIMAL; every step is a
    double-precision operation.  Every capped deduction and every
    category score is a finite number between 0 and the category's
    weight, and the overall score one between 0 and 100. *)
Theorem compute_health_score_cap_and_clamp (issues : list Issue) (total_pages : Z) :
  let n := Z.max total_pages 1 in
  Scorer64.compute_health_score issues total_pages
  = (Float64.round (clamp (raw_total n issues)) 1,
     (fun cw =>
        (fst cw, Float64.round (Float64.sub (Float64.of_int (snd cw)) (capped n issues cw)) 2))
       <$> Scorer64.SCORING_WEIGHTS)
  /\ (forall cw, cw ∈ Scorer64.SCORING_WEIGHTS ->
        Float64.within 0 (snd cw) (capped n issues cw)
        /\ Float64.within 0 (snd cw)
             (Float64.round
                (Float64.sub (Float64.of_int (snd cw)) (capped n issues cw)) 2))
  /\ Float64.within 0 100 (fst (Scorer64.compute_health_score issues total_pages)).
Proof.
  intros n. assert (Hn : (1 <= n)%Z) by (unfold n; lia).
  split; [apply compute_health_score_unfold |]. split.
  - intros cw Hcw.
    assert (Hw : (0 <= snd cw <= 2 ^ 53)%Z).
    { pose proof weights_small as W. rewrite Forall_forall in W.
      specialize (W cw Hcw). simpl in W. lia. }
    split; [now apply capped_within |].
    now apply (category_score_within n issues cw).
  - rewrite compute_health_score_unfold. cbn [fst]. now apply overall_within.
Qed.

(** C4 as stated fails: one critical issue type on one page of seven
    costs 12/7 and leaves a total of about 98.2857, but the function
    returns 98.3; the category score is 13.29, not 15 - 12/7. *)
Lemma compute_health_score_is_rounded :
  let issues := [ScorerSamples.broken_a] in
  let r := Scorer64.compute_health_score issues 7 in
  fst r = Float64.of_Q (983 # 10)
  /\ fst r <> clamp (raw_total 7 issues)
  /\ (exists total, raw_total 7 issues = Float64.Finite total
                    /\ (total < (983 # 10) - (1 # 100))%Q)
  /\ ODict.get "Links" (snd r) = Some (Float64.of_Q (1329 # 100))
  /\ Float64.of_Q (1329 # 100)
     <> Float64.sub (Float64.of_int 15) (capped 7 issues ("Links", 15%Z)).
Proof.
  repeat split.
  - vm_compute. intros E. discriminate E.
  - eexists. split; [vm_compute; reflexivity | vm_compute; reflexivity].
  - vm_compute. intros E. discriminate E.
Qed.

(** The same on 3 pages of 80 and on 1 page of 160: the scores are
    99.5 and 14.93, the doubles nearest to the decimals that the exact
    values of the doubles 99.55 and 14.925 round to. *)
Lemma compute_health_score_samples :
  fst (Scorer64.compute_health_score
         [ ScorerSamples.issue "a" "HTTP Issues" "t" "critical";
           ScorerSamples.issue "b" "HTTP Issues" "t" "critical";
           ScorerSamples.issue "c" "HTTP Issues" "t" "critical" ] 80)
  = Float64.of_Q (995 # 10)
  /\ ODict.get "Links"
       (snd (Scorer64.compute_health_score [ScorerSamples.broken_a] 160))
     = Some (Float64.of_Q (1493 # 100)).
Proof. split; vm_compute; reflexivity. Qed.



End Scorer64Claims.

Module ScorerClaims.
Import Scorer ScorerSpec ScorerFacts ScorerOrder ScorerAppend.
Local Open Scope Q_scope.



End ScorerClaims.

(** ** Robots gate *)

Module RobotsFacts.
Import Robots RobotsSpec.
Local Open Scope Z_scope.

Lemma rules_for_relevant (user_agent : string) (rules : list Rule) :
  rules_for [PyStr.lower user_agent; "*"] rules
  = path <$> filter (relevant user_agent) rules.
Proof.
  unfold rules_for. f_equal. apply list_filter_iff. intros r.
  unfold relevant. rewrite !elem_of_cons, elem_of_nil. tauto.
Qed.

Lemma longest_cons (a : string) (l : list string) :
  longest (a :: l) = Z.max (Z.of_nat (String.length a)) (longest l).
Proof. reflexivity. Qed.

Lemma longest_ge_m1 (l : list string) : -1 <= longest l.
Proof.
  induction l as [| a l IH]; [reflexivity |]. rewrite longest_cons. lia.
Qed.

Lemma longest_nonempty (l : list string) : l <> [] -> 0 <= longest l.
Proof. destruct l; [congruence |]. rewrite longest_cons. lia. Qed.

Lemma longest_elem (l : list string) (rp : string) :
  rp ∈ l -> Z.of_nat (String.length rp) <= longest l.
Proof.
  induction 1 as [| ? ? ? _ IH]; rewrite longest_cons; lia.
Qed.

Lemma longest_attained (l : list string) :
  l <> [] -> exists rp, rp ∈ l /\ longest l = Z.of_nat (String.length rp).
Proof.
  induction l as [| a l IH]; [congruence |]. intros _.
  destruct l as [| b l].
  - exists a. split; [left |]. rewrite longest_cons. change (longest []) with (-1). lia.
  - destruct IH as (rp & Hrp & E); [congruence |].
    rewrite (longest_cons a).
    destruct (Z.le_ge_cases (longest (b :: l)) (Z.of_nat (String.length a))).
    + exists a. split; [left | lia].
    + exists rp. split; [now right | lia].
Qed.

(** Each loop of [is_url_allowed] computes the length of the longest
    matching path. *)
Lemma best_len_acc (skip : bool) (url_path : string) (paths : list string) (b : Z) :
  fold_left
    (fun best rule_path =>
       if skip && bool_decide (rule_path = "") then best
       else if PyStr.startswith url_path rule_path
               && (best <? Z.of_nat (String.length rule_path))
            then Z.of_nat (String.length rule_path)
            else best)
    paths b
  = Z.max b
      (fold_right Z.max (-1)
         ((fun rp => Z.of_nat (String.length rp))
            <$> filter (fun rp => String.prefix rp url_path = true
                                  /\ (skip = true -> rp <> "")) paths))
    \/ (b < -1).
Proof.
  destruct (Z.lt_ge_cases b (-1)) as [L | G]; [now right | left].
  revert b G. induction paths as [| rp paths IH]; intros b G.
  - simpl. lia.
  - cbn [fold_left].
    destruct (decide (String.prefix rp url_path = true /\ (skip = true -> rp <> "")))
      as [[Hp Hs] | N].
    + rewrite filter_cons_True, fmap_cons by tauto. cbn [fold_right].
      replace (skip && bool_decide (rp = "")) with false.
      2: { destruct skip; [| reflexivity]. simpl. symmetry.
           apply bool_decide_eq_false. now apply Hs. }
      change (PyStr.startswith url_path rp) with (String.prefix rp url_path).
      rewrite Hp. cbn [andb].
      destruct (b <? Z.of_nat (String.length rp)) eqn:C.
      * apply Z.ltb_lt in C. rewrite IH by lia. lia.
      * apply Z.ltb_ge in C. rewrite IH by lia. lia.
    + rewrite filter_cons_False by assumption.
      destruct (skip && bool_decide (rp = "")) eqn:S; [now apply IH |].
      change (PyStr.startswith url_path rp) with (String.prefix rp url_path).
      destruct (String.prefix rp url_path) eqn:Hp; cbn [andb]; [| now apply IH].
      exfalso. apply N. split; [reflexivity |].
      intros -> ->. vm_compute in S. discriminate S.
Qed.

Lemma best_len_longest (skip : bool) (user_agent url_path : string) (rules : list Rule) :
  best_len skip url_path (rules_for [PyStr.lower user_agent; "*"] rules)
  = longest (matching skip user_agent url_path rules).
Proof.
  unfold best_len. rewrite rules_for_relevant.
  destruct (best_len_acc skip url_path (path <$> filter (relevant user_agent) rules) (-1))
    as [E | L]; [| lia].
  rewrite E. unfold longest, matching.
  pose proof (longest_ge_m1
    (filter (fun rp => String.prefix rp url_path = true /\ (skip = true -> rp <> ""))
            (path <$> filter (relevant user_agent) rules))) as G.
  unfold longest in G. lia.
Qed.

Lemma is_url_allowed_longest urlparse (url : string) (rd : RobotsData) (ua : string)
    (parsed : ParseResult) :
  robots_exists rd = true ->
  urlparse url = Some parsed ->
  is_url_allowed urlparse url rd ua
  = Some (if (longest (matching true ua (path_of parsed) (disallow_rules rd)) <? 0)
          then true
          else (longest (matching true ua (path_of parsed) (disallow_rules rd))
                <=? longest (matching false ua (path_of parsed) (allow_rules rd)))).
Proof.
  intros E Hp. unfold is_url_allowed. rewrite E, Hp. simpl.
  fold (path_of parsed). rewrite !best_len_longest.
  now destruct (_ <? 0).
Qed.

(** *** The parser *)

Section parser.
Variable pyfloat : string -> option Q.
Variable repr : string -> string.

Lemma parse_line_closed (st : ParseState) (l : string) :
  agents_closed st -> agents_closed (parse_line pyfloat repr st l).
Proof.
  unfold agents_closed, parse_line. destruct st as [ags blk d]. simpl. intros Hst.
  repeat match goal with
    | |- context [if ?b then _ else _] => destruct b; simpl; try (discriminate || tauto)
    | |- context [let '(_, _) := ?p in _] => destruct p
    | |- context [match pyfloat ?v with _ => _ end] => destruct (pyfloat v); simpl; try tauto
    end.
Qed.

Lemma parse_lines_closed (st : ParseState) (ls : list string) :
  agents_closed st -> agents_closed (parse_lines pyfloat repr st ls).
Proof.
  revert st. induction ls as [| l ls IH]; intros st H; [exact H |].
  simpl. apply IH. now apply parse_line_closed.
Qed.

(** A blank line leaves no current agent. *)
Lemma parse_line_blank (st : ParseState) (l : string) :
  agents_closed st -> PyStr.strip l = "" ->
  current_agents (parse_line pyfloat repr st l) = [].
Proof.
  unfold agents_closed, parse_line. intros Hst ->. simpl.
  destruct (in_agent_block st); simpl; [reflexivity | now apply Hst].
Qed.

(** Lines other than [User-agent] lines do not add agents. *)
Lemma parse_line_no_agent (st : ParseState) (l : string) :
  current_agents st = [] ->
  directive_of l <> Some "user-agent" ->
  current_agents (parse_line pyfloat repr st l) = [].
Proof.
  unfold directive_of, parse_line. intros Hst Hd.
  destruct (bool_decide (PyStr.strip l = "") || PyStr.startswith (PyStr.strip l) "#").
  { destruct (_ && _); simpl; [reflexivity | assumption]. }
  destruct (negb (PyStr.contains_char ":" (PyStr.strip l))); [assumption |].
  destruct (PyStr.partition ":" (PyStr.strip l)) as [dv v]. simpl in Hd.
  destruct (decide (_ = "user-agent")) as [E | _]; [congruence |].
  repeat match goal with
    | |- context [if ?b then _ else _] => destruct b; simpl; try assumption
    | |- context [match pyfloat ?v with _ => _ end] => destruct (pyfloat v); simpl; try assumption
    end.
Qed.

Lemma parse_lines_no_agent (st : ParseState) (ls : list string) :
  current_agents st = [] ->
  Forall (fun l => directive_of l <> Some "user-agent") ls ->
  current_agents (parse_lines pyfloat repr st ls) = [].
Proof.
  intros Hst H. revert st Hst.
  induction H as [| l ls Hl _ IH]; intros st Hst; [exact Hst |].
  simpl. apply IH. now apply parse_line_no_agent.
Qed.

(** An [Allow] or [Disallow] line met with no current agent changes
    nothing in the record: no rule and no parse error. *)
Lemma parse_line_orphan (st : ParseState) (l : string) :
  current_agents st = [] ->
  directive_of l = Some "allow" \/ directive_of l = Some "disallow" ->
  data (parse_line pyfloat repr st l) = data st.
Proof.
  unfold directive_of, parse_line. intros Hst Hd.
  destruct (bool_decide (PyStr.strip l = "") || PyStr.startswith (PyStr.strip l) "#").
  { destruct Hd; discriminate. }
  destruct (negb (PyStr.contains_char ":" (PyStr.strip l))).
  { destruct Hd; discriminate. }
  destruct (PyStr.partition ":" (PyStr.strip l)) as [dv v]. simpl in Hd.
  rewrite Hst.
  destruct Hd as [[= ->] | [= ->]]; simpl;
    destruct (data st); unfold add_allow, add_disallow; simpl;
    now rewrite app_nil_r.
Qed.
End parser.

End RobotsFacts.

(** ** Robots gate: the claims *)

Module RobotsClaims.
Import Robots RobotsSpec RobotsFacts.
Local Open Scope Z_scope.

Lemma matching_all_agents (skip : bool) (ua p : string) (rules : list Rule) :
  Forall (fun r => agent r = "*") rules ->
  matching skip ua p rules
  = filter (fun rp => String.prefix rp p = true /\ (skip = true -> rp <> ""))
      (path <$> rules).
Proof.
  intros H. unfold matching. do 2 f_equal.
  induction H as [| r rules Hr _ IH]; [reflexivity |].
  rewrite filter_cons_True by (right; now rewrite Hr). now rewrite IH.
Qed.

(** C3.  For [RobotsData] with [exists = true], [is_url_allowed] takes
    the longest matching Disallow prefix and the longest matching Allow
    prefix among the rules declared for the agent's lowercase name or
    for [*], empty Disallow paths excluded.  It returns true when no
    Disallow prefix matches; when one matches, it returns true iff the
    longest Allow match is at least as long (Allow wins ties).  With
    [Disallow: /private] and [Allow: /private/public] for [*]:
    [/private/public/page] is allowed, [/private/secret] is not,
    [/public] is allowed. *)
Theorem robots_precedence (urlparse : string -> option ParseResult) :
  (forall (url : string) (parsed : ParseResult) (rd : RobotsData) (ua : string),
     robots_exists rd = true ->
     urlparse url = Some parsed ->
     let p := path_of parsed in
     let D := matching true ua p (disallow_rules rd) in
     let A := matching false ua p (allow_rules rd) in
     (D = [] -> is_url_allowed urlparse url rd ua = Some true)
     /\ (D <> [] ->
         is_url_allowed urlparse url rd ua = Some (longest D <=? longest A)
         /\ (is_url_allowed urlparse url rd ua = Some true <->
             exists a, a ∈ A /\
               forall d, d ∈ D -> (String.length d <= String.length a)%nat)))
  /\ (forall url parsed ua,
        urlparse url = Some parsed ->
        pr_path parsed = "/private/public/page" ->
        is_url_allowed urlparse url RobotsSamples.private_public ua = Some true)
  /\ (forall url parsed ua,
        urlparse url = Some parsed ->
        pr_path parsed = "/private/secret" ->
        is_url_allowed urlparse url RobotsSamples.private_public ua = Some false)
  /\ (forall url parsed ua,
        urlparse url = Some parsed ->
        pr_path parsed = "/public" ->
        is_url_allowed urlparse url RobotsSamples.private_public ua = Some true).
Proof.
  split; [| repeat split].
  - intros url parsed rd ua E Hparsed p D A.
    rewrite (is_url_allowed_longest urlparse url rd ua parsed E Hparsed). fold p D A.
    split.
    + intros ->. reflexivity.
    + intros ND. pose proof (longest_nonempty D ND) as G.
      destruct (longest D <? 0) eqn:C; [apply Z.ltb_lt in C; lia |].
      split; [reflexivity |].
      split.
      * intros [= L]. apply Z.leb_le in L.
        assert (NA : A <> []) by (intros EA; rewrite EA in L; change (longest []) with (-1) in L; lia).
        destruct (longest_attained A NA) as (a & Ha & Ea).
        exists a. split; [assumption |]. intros d Hd.
        pose proof (longest_elem D d Hd). lia.
      * intros (a & Ha & Hall). f_equal. apply Z.leb_le.
        destruct (longest_attained D ND) as (d & Hd & Ed).
        pose proof (longest_elem A a Ha). pose proof (Hall d Hd). lia.
  - intros url parsed ua Hparsed Hp.
    rewrite (is_url_allowed_longest _ _ _ _ parsed) by (reflexivity || assumption).
    unfold path_of. rewrite Hp.
    rewrite !matching_all_agents by (repeat constructor). reflexivity.
  - intros url parsed ua Hparsed Hp.
    rewrite (is_url_allowed_longest _ _ _ _ parsed) by (reflexivity || assumption).
    unfold path_of. rewrite Hp.
    rewrite !matching_all_agents by (repeat constructor). reflexivity.
  - intros url parsed ua Hparsed Hp.
    rewrite (is_url_allowed_longest _ _ _ _ parsed) by (reflexivity || assumption).
    unfold path_of. rewrite Hp.
    rewrite !matching_all_agents by (repeat constructor). reflexivity.
Qed.

Lemma robots_precedence_witness :
  is_url_allowed UrlSamples.urlparse "http://example.com/private/public/page"
    RobotsSamples.private_public "SiteAuditBot/1.0" = Some true
  /\ is_url_allowed UrlSamples.urlparse "http://example.com/private/secret"
    RobotsSamples.private_public "SiteAuditBot/1.0" = Some false
  /\ is_url_allowed UrlSamples.urlparse "http://example.com/public"
    RobotsSamples.private_public "SiteAuditBot/1.0" = Some true
  /\ is_url_allowed UrlSamples.urlparse "http://example.com/private/secret"
    RobotsSamples.private_public "SiteAuditBot/1.0"
     = Some (longest (matching true "SiteAuditBot/1.0" "/private/secret"
                       (disallow_rules RobotsSamples.private_public))
             <=? longest (matching false "SiteAuditBot/1.0" "/private/secret"
                       (allow_rules RobotsSamples.private_public))).
Proof.
  destruct (robots_precedence UrlSamples.urlparse) as (G & E1 & E2 & E3).
  split; [eapply E1; reflexivity |].
  split; [eapply E2; reflexivity |].
  split; [eapply E3; reflexivity |].
  refine (proj1 (proj2 (G "http://example.com/private/secret"
                          (mkParseResult "http" "example.com" "/private/secret" "" "" "")
                          RobotsSamples.private_public "SiteAuditBot/1.0" _ _) _)).
  - reflexivity.
  - reflexivity.
  - vm_compute. discriminate.
Defined.

(** C9, as amended.  When an [Allow] or [Disallow] directive follows a
    blank line with no intervening [User-agent] line, [_parse_robots]
    adds no rule for it, RECORDS NO PARSE ERROR for it (the record is
    left exactly as it was), and goes on to parse the remaining lines. *)
Theorem orphan_directive_skipped
    (pyfloat : string -> option Q) (repr : string -> string)
    (d : RobotsData) (pre mid post : list string) (blank dline : string) :
  PyStr.splitlines (raw_text d) = pre ++ [blank] ++ mid ++ [dline] ++ post ->
  PyStr.strip blank = "" ->
  Forall (fun l => directive_of l <> Some "user-agent") mid ->
  directive_of dline = Some "allow" \/ directive_of dline = Some "disallow" ->
  let before := parse_lines pyfloat repr (mkParseState [] false d) (pre ++ [blank] ++ mid) in
  let after := parse_line pyfloat repr before dline in
  data after = data before
  /\ _parse_robots pyfloat repr d = data (parse_lines pyfloat repr after post).
Proof.
  intros Hsplit Hblank Hmid Hdir before after. split.
  - apply parse_line_orphan; [| assumption].
    unfold before, parse_lines. rewrite !fold_left_app.
    apply parse_lines_no_agent; [| assumption].
    simpl. apply parse_line_blank; [| assumption].
    apply (parse_lines_closed pyfloat repr (mkParseState [] false d) pre).
    intros _. reflexivity.
  - unfold _parse_robots. rewrite Hsplit.
    unfold after, before, parse_lines.
    rewrite !app_assoc, fold_left_app. simpl. rewrite !fold_left_app. reflexivity.
Qed.

Lemma orphan_directive_skipped_witness :
  let d := RobotsSamples.orphan_data in
  let before := parse_lines RobotsSamples.no_float RobotsSamples.quote
                  (mkParseState [] false d) (["User-agent: *"; "Disallow: /a"] ++ [""] ++ []) in
  let after := parse_line RobotsSamples.no_float RobotsSamples.quote before "Disallow: /b" in
  data after = data before
  /\ _parse_robots RobotsSamples.no_float RobotsSamples.quote d
     = data (parse_lines RobotsSamples.no_float RobotsSamples.quote after
               ["User-agent: x"; "Allow: /c"]).
Proof.
  apply (orphan_directive_skipped RobotsSamples.no_float RobotsSamples.quote
           RobotsSamples.orphan_data ["User-agent: *"; "Disallow: /a"] []
           ["User-agent: x"; "Allow: /c"] "" "Disallow: /b").
  - vm_compute. reflexivity.
  - reflexivity.
  - constructor.
  - right. vm_compute. reflexivity.
Defined.

(** C9 as stated fails: the file below has a [Disallow] directive after
    a group-closing blank line and before any [User-agent] line, and
    parsing it records no parse error at all. *)
Lemma orphan_directive_no_parse_error :
  let d := _parse_robots RobotsSamples.no_float RobotsSamples.quote
             RobotsSamples.orphan_data in
  PyStr.splitlines RobotsSamples.orphan_text
  = ["User-agent: *"; "Disallow: /a"; ""; "Disallow: /b"; "User-agent: x"; "Allow: /c"]
  /\ parse_errors d = []
  /\ disallow_rules d = [mkRule "*" "/a"]
  /\ allow_rules d = [mkRule "x" "/c"].
Proof. vm_compute. repeat split. Qed.

End RobotsClaims.

(** ** Fetcher *)

Module FetcherFacts.
Import Fetcher FetcherSpec.

Lemma set_redirect_chain_twice (v w : list string) (p : PageData.t) :
  PageData.set_redirect_chain v (PageData.set_redirect_chain w p)
  = PageData.set_redirect_chain v p.
Proof. now destruct p. Qed.

Lemma redirect_chain_set (v : list string) (p : PageData.t) :
  PageData.redirect_chain (PageData.set_redirect_chain v p) = v.
Proof. now destruct p. Qed.

Lemma set_redirect_chain_id (p : PageData.t) :
  PageData.set_redirect_chain (PageData.redirect_chain p) p = p.
Proof. now destruct p. Qed.

Section facts.
Variable session_get : string -> PyExc + Response.t.
Variable urljoin : string -> string -> string.

Lemma redirect_status (resp : Response.t) :
  Response.status_code resp ∈ Response.REDIRECT_STATI ->
  Response.is_redirect resp
  || bool_decide (Response.status_code resp ∈ [301; 302; 303; 307; 308]%Z) = true.
Proof.
  intros H. apply orb_true_iff. right. now apply bool_decide_eq_true.
Qed.



(** One iteration that meets a redirect to a new URL goes on there. *)
Lemma follow_hop (fuel : nat) (current next : string) (seen : gset string)
    (page : PageData.t) (requested : list string) (resp : Response.t) :
  redirects_to session_get urljoin current resp next ->
  next ∉ seen -> next <> current ->
  follow session_get urljoin (S fuel) current seen page requested
  = follow session_get urljoin fuel next (seen ∪ {[current]})
      (PageData.set_redirect_chain (PageData.redirect_chain page ++ [current]) page)
      (requested ++ [current]).
Proof.
  intros (Hget & Hst & Hloc & Hnext) Hseen Hne. simpl.
  rewrite Hget, (redirect_status resp Hst).
  destruct (decide _) as [E | _]; [contradiction |].
  rewrite Hnext.
  rewrite bool_decide_eq_false_2, bool_decide_eq_false_2 by assumption.
  reflexivity.
Qed.

(** Following [fuel] redirect hops along a chain of distinct URLs
    uses up the loop and returns [None], leaving [crawl_error] and
    [status_code] as they were. *)
Lemma follow_exhausted (chain : nat -> string) (fuel i : nat)
    (page : PageData.t) (requested : list string) :
  redirect_hops session_get urljoin chain (seq i fuel) ->
  NoDup (chain <$> seq 0 (i + fuel + 1)) ->
  follow session_get urljoin fuel (chain i) (list_to_set (chain <$> seq 0 i))
    page requested
  = (None,
     PageData.set_redirect_chain
       (PageData.redirect_chain page ++ (chain <$> seq i fuel)) page,
     requested ++ (chain <$> seq i fuel)).
Proof.
  revert i page requested.
  induction fuel as [| fuel IH]; intros i page requested Hhops ND.
  - simpl. now rewrite !app_nil_r, set_redirect_chain_id.
  - apply Forall_cons in Hhops as [(resp & Hhop) Hhops].
    assert (Hlook : forall a b, a < b -> b < i + S fuel + 1 -> chain a <> chain b).
    { intros a b Hab Hb E.
      assert (Ha : (chain <$> seq 0 (i + S fuel + 1)) !! a = Some (chain a))
        by (rewrite list_lookup_fmap, lookup_seq_lt by lia; reflexivity).
      assert (Hb' : (chain <$> seq 0 (i + S fuel + 1)) !! b = Some (chain b))
        by (rewrite list_lookup_fmap, lookup_seq_lt by lia; reflexivity).
      rewrite <- E in Hb'.
      pose proof (NoDup_lookup _ _ _ _ ND Ha Hb'). lia. }
    rewrite (follow_hop fuel (chain i) (chain (S i)) _ page requested resp Hhop).
    + replace (list_to_set (chain <$> seq 0 i) ∪ {[chain i]})
        with (list_to_set (C := gset string) (chain <$> seq 0 (S i))).
      2: { rewrite seq_S, fmap_app, list_to_set_app_L. simpl. set_solver. }
      rewrite IH.
      * rewrite set_redirect_chain_twice, redirect_chain_set.
        rewrite <- !app_assoc. reflexivity.
      * exact Hhops.
      * replace (S i + fuel + 1) with (i + S fuel + 1) by lia. exact ND.
    + rewrite elem_of_list_to_set, list_elem_of_fmap.
      intros (a & E & Ha). apply elem_of_seq in Ha.
      apply (Hlook a (S i)); [lia | lia | now symmetry].
    + intros E. apply (Hlook i (S i)); [lia | lia | now symmetry].
Qed.
End facts.

End FetcherFacts.

(** ** Fetcher: the claims *)

Module FetcherClaims.
Import Fetcher FetcherSpec FetcherFacts.

(** [int()] on some header values: white space and a sign are
    accepted, the separator U+001F and a trailing letter are not, and
    4301 digits are over the limit, also with leading zeros or with
    something after them. *)
Lemma int_literals :
  PyInt.of_str " +1_000 " = Some 1000%Z
  /\ PyInt.of_str (String (ascii_of_nat 9) "-7" +:+ String (ascii_of_nat 160) "") = Some (-7)%Z
  /\ PyInt.of_str (String (ascii_of_nat 31) "7") = None
  /\ PyInt.of_str "7x" = None
  /\ PyInt.of_str "1__0" = None
  /\ PyInt.of_str "+ 7" = None
  /\ is_Some (PyInt.of_str (FetcherSamples.ones 4300))
  /\ PyInt.parse (FetcherSamples.ones 4301) = PyInt.TooLong 4301
  /\ PyInt.parse ("0" +:+ FetcherSamples.ones 4300 +:+ "x") = PyInt.TooLong 4301
  /\ PyInt.parse (FetcherSamples.ones 4300 +:+ "x") = PyInt.Invalid.
Proof.
  repeat split; try (vm_compute; reflexivity).
  vm_compute. eexists. reflexivity.
Qed.

(** C6: what the code does.  When each of the ten requests of a fetch is
    answered by a redirect with a Location header and no loop is
    detected, [fetch_page] stops after exactly 10 requests and returns a
    page with [status_code = 0] whose [crawl_error] is [None]: the
    too-many-redirects condition is NOT classified. *)
Theorem too_many_redirects_unclassified
    (session_get : string -> PyExc + Response.t)
    (urljoin : string -> string -> string) (repr : string -> string)
    (chain : nat -> string) (depth : Z) (head_only : bool) :
  redirect_hops session_get urljoin chain (seq 0 _MAX_REDIRECTS) ->
  NoDup (chain <$> seq 0 (_MAX_REDIRECTS + 1)) ->
  let '(page, requested) := fetch_page session_get urljoin repr (chain 0) depth head_only in
  requested = chain <$> seq 0 10
  /\ PageData.redirect_chain page = chain <$> seq 0 10
  /\ PageData.status_code page = 0%Z
  /\ PageData.crawl_error page = None.
Proof.
  intros Hhops ND. unfold fetch_page, _follow_redirects.
  pose proof (follow_exhausted session_get urljoin chain _MAX_REDIRECTS 0
                (PageData.new (chain 0) (chain 0) depth) [] Hhops ND) as E.
  simpl seq in E at 1. simpl list_to_set in E. rewrite E.
  repeat split.
Qed.

Lemma too_many_redirects_unclassified_witness :
  let '(page, requested) :=
    fetch_page FetcherSamples.endless FetcherSamples.join_absolute
      FetcherSamples.quote "http://site.test/" 0 false in
  length requested = 10
  /\ PageData.status_code page = 0%Z
  /\ PageData.crawl_error page = None.
Proof.
  pose proof (too_many_redirects_unclassified
                FetcherSamples.endless FetcherSamples.join_absolute
                FetcherSamples.quote FetcherSamples.endless_chain 0 false) as T.
  change (FetcherSamples.endless_chain 0) with "http://site.test/" in T.
  destruct (fetch_page _ _ _ _ _ _) as [page requested].
  destruct T as (R & _ & S & C).
  - unfold redirect_hops. simpl seq.
    repeat (constructor;
            [eexists; repeat split;
             [apply list_elem_of_In; vm_compute; tauto | vm_compute; discriminate] |]).
    constructor.
  - apply (bool_decide_unpack _). vm_compute. exact I.
  - rewrite R. repeat split; assumption.
Defined.




(** The same with a [Content-Length] of 4301 digits, or of a digit
    after the separator U+001F: [int()] raises, and the classification
    is lost. *)
Lemma redirect_loop_length_rejected :
  let crawl_error content_length :=
    PageData.crawl_error
      (fst (fetch_page (FetcherSamples.ping_pong content_length)
              FetcherSamples.join_absolute FetcherSamples.quote FetcherSamples.A 0 false)) in
  crawl_error (FetcherSamples.ones 4301)
  = Some ("Unexpected error: Exceeds the limit (4300 digits) for integer string "
          +:+ "conversion: value has 4301 digits; use sys.set_int_max_str_digits() "
          +:+ "to increase the limit")
  /\ crawl_error (String (ascii_of_nat 31) "7")
     = Some ("Unexpected error: invalid literal for int() with base 10: "
             +:+ FetcherSamples.quote (String (ascii_of_nat 31) "7")).
Proof. split; vm_compute; reflexivity. Qed.

End FetcherClaims.

(** ** Parser: text normalisation *)

Module ParserFacts.
Import PyStr ParserSpec.

Lemma sub_ws_from_collapsed (b : bool) (t : string) :
  collapsed b (sub_ws_from b t) = true.
Proof.
  revert b. induction t as [| c t IH]; intros b; simpl; [reflexivity |].
  destruct (is_space c) eqn:Hc.
  - destruct b; [apply IH |].
    simpl. change (is_space " ") with true. simpl. apply IH.
  - simpl. rewrite Hc. apply IH.
Qed.

Lemma sub_ws_from_id (b : bool) (s : string) :
  collapsed b s = true -> sub_ws_from b s = s.
Proof.
  revert b. induction s as [| c s IH]; intros b; simpl; [reflexivity |].
  destruct (is_space c) eqn:Hc.
  - intros H. apply andb_true_iff in H as [H H3].
    apply andb_true_iff in H as [H1 H2].
    apply Ascii.eqb_eq in H1. subst c.
    destruct b; [discriminate |]. now rewrite IH.
  - intros H. now rewrite IH.
Qed.

Lemma collapsed_weaken (s : string) :
  collapsed true s = true -> collapsed false s = true.
Proof.
  destruct s as [| c s]; simpl; [reflexivity |].
  destruct (is_space c); [| tauto].
  rewrite andb_false_r. discriminate.
Qed.

Lemma lstrip_collapsed (b : bool) (s : string) :
  collapsed b s = true -> collapsed false (lstrip s) = true.
Proof.
  revert b. induction s as [| c s IH]; intros b; simpl; [reflexivity |].
  destruct (is_space c) eqn:Hc.
  - intros H. apply andb_true_iff in H as [_ H]. now apply (IH true).
  - intros H. simpl. now rewrite Hc.
Qed.

Lemma rstrip_collapsed (b : bool) (s : string) :
  collapsed b s = true -> collapsed b (rstrip s) = true.
Proof.
  revert b. induction s as [| c s IH]; intros b; simpl; [reflexivity |].
  destruct (is_space c) eqn:Hc.
  - intros H. apply andb_true_iff in H as [H H3]. apply IH in H3.
    destruct (rstrip s) as [| c' r]; [reflexivity |].
    simpl. rewrite Hc. simpl in H3. now rewrite H, H3.
  - intros H. apply IH in H.
    destruct (rstrip s) as [| c' r]; simpl; now rewrite Hc.
Qed.

(** Collapsing whitespace again after [strip] changes nothing. *)
Lemma sub_ws_strip_sub_ws (t : string) :
  sub_ws (strip (sub_ws t)) = strip (sub_ws t).
Proof.
  unfold sub_ws at 1. apply sub_ws_from_id. unfold strip.
  apply rstrip_collapsed, (lstrip_collapsed false), sub_ws_from_collapsed.
Qed.

Lemma is_space_lower_char (c : ascii) : is_space (lower_char c) = is_space c.
Proof. destruct c as [[] [] [] [] [] [] [] []]; reflexivity. Qed.

Lemma lstrip_lower (s : string) : lstrip (lower s) = lower (lstrip s).
Proof.
  induction s as [| c s IH]; simpl; [reflexivity |].
  rewrite is_space_lower_char. now destruct (is_space c).
Qed.

Lemma rstrip_lower (s : string) : rstrip (lower s) = lower (rstrip s).
Proof.
  induction s as [| c s IH]; simpl; [reflexivity |].
  rewrite IH, is_space_lower_char.
  destruct (rstrip s); simpl; [now destruct (is_space c) | reflexivity].
Qed.

Lemma strip_lower (s : string) : strip (lower s) = lower (strip s).
Proof. unfold strip. now rewrite lstrip_lower, rstrip_lower. Qed.

Lemma text_content_set_content_hash v p :
  PageData.text_content (PageData.set_content_hash v p) = PageData.text_content p.
Proof. now destruct p. Qed.

Lemma text_content_set_word_count v p :
  PageData.text_content (PageData.set_word_count v p) = PageData.text_content p.
Proof. now destruct p. Qed.

Lemma text_content_set v p :
  PageData.text_content (PageData.set_text_content v p) = v.
Proof. now destruct p. Qed.

Lemma content_hash_set v p :
  PageData.content_hash (PageData.set_content_hash v p) = v.
Proof. now destruct p. Qed.

End ParserFacts.

(** ** Parser: the claim *)

Module ParserClaims.
Import Parser ParserSpec ParserFacts.

(** C8.  The content hash computed by the parser's content step is a
    function of the normalized (whitespace collapsed to single spaces,
    lower-cased) visible text only: two pages whose extracted text is
    identical after normalization get equal [content_hash] values,
    whether the texts compared are the [text_content] fields or the
    texts extracted from the documents. *)
Theorem content_hash_of_normalized_text
    (Soup : Type) (visible_text : Soup -> string) (md5_hexdigest : string -> string)
    (soup1 soup2 : Soup) (page1 page2 : PageData.t) :
  let q1 := _parse_content Soup visible_text md5_hexdigest soup1 page1 in
  let q2 := _parse_content Soup visible_text md5_hexdigest soup2 page2 in
  PageData.content_hash q1 = md5_hexdigest (normalize_text (PageData.text_content q1))
  /\ (normalize_text (PageData.text_content q1) = normalize_text (PageData.text_content q2) ->
      PageData.content_hash q1 = PageData.content_hash q2)
  /\ (normalize_text (visible_text soup1) = normalize_text (visible_text soup2) ->
      PageData.content_hash q1 = PageData.content_hash q2).
Proof.
  intros q1 q2.
  assert (T : forall soup page,
             PageData.text_content (_parse_content Soup visible_text md5_hexdigest soup page)
             = PyStr.strip (PyStr.sub_ws (visible_text soup))).
  { intros. unfold _parse_content.
    now rewrite text_content_set_content_hash, text_content_set_word_count,
      text_content_set. }
  assert (H : forall soup page,
             PageData.content_hash (_parse_content Soup visible_text md5_hexdigest soup page)
             = md5_hexdigest (PyStr.lower (PyStr.strip (PyStr.sub_ws (visible_text soup))))).
  { intros. unfold _parse_content. now rewrite content_hash_set. }
  assert (N : forall soup page,
             normalize_text
               (PageData.text_content (_parse_content Soup visible_text md5_hexdigest soup page))
             = PyStr.lower (PyStr.strip (PyStr.sub_ws (visible_text soup)))).
  { intros. rewrite T. unfold normalize_text. now rewrite sub_ws_strip_sub_ws. }
  unfold q1, q2. split; [| split].
  - now rewrite N, H.
  - rewrite !N, !H. now intros ->.
  - unfold normalize_text. intros E. rewrite !H, <- !strip_lower. now rewrite E.
Qed.

Lemma content_hash_of_normalized_text_witness :
  let parse := _parse_content string (fun d => d) ParserSamples.digest in
  PageData.content_hash (parse ParserSamples.doc1 (PageData.new "http://site.test/1" "" 0))
  = PageData.content_hash (parse ParserSamples.doc2 (PageData.new "http://site.test/2" "" 1)).
Proof.
  refine (proj1 (proj2 (content_hash_of_normalized_text string (fun d => d)
                          ParserSamples.digest ParserSamples.doc1 ParserSamples.doc2
                          (PageData.new "http://site.test/1" "" 0)
                          (PageData.new "http://site.test/2" "" 1))) _).
  vm_compute. reflexivity.
Defined.

End ParserClaims.

(** ** Crawler: the worker keeps the URL it was given *)

Module WorkerFacts.
Import Fetcher Crawler CrawlerSpec.

Ltac setter := intros; match goal with p : PageData.t |- _ => destruct p end; reflexivity.

Lemma url_set_status_code v p : PageData.url (PageData.set_status_code v p) = PageData.url p.
Proof. setter. Qed.
Lemma url_set_content_type v p : PageData.url (PageData.set_content_type v p) = PageData.url p.
Proof. setter. Qed.
Lemma url_set_page_size_bytes v p : PageData.url (PageData.set_page_size_bytes v p) = PageData.url p.
Proof. setter. Qed.
Lemma url_set_redirect_chain v p : PageData.url (PageData.set_redirect_chain v p) = PageData.url p.
Proof. setter. Qed.
Lemma url_set_final_url v p : PageData.url (PageData.set_final_url v p) = PageData.url p.
Proof. setter. Qed.
Lemma url_set_response_headers v p : PageData.url (PageData.set_response_headers v p) = PageData.url p.
Proof. setter. Qed.
Lemma url_set_crawl_error v p : PageData.url (PageData.set_crawl_error v p) = PageData.url p.
Proof. setter. Qed.
Lemma url_set_is_html v p : PageData.url (PageData.set_is_html v p) = PageData.url p.
Proof. setter. Qed.
Lemma url_set_html v p : PageData.url (PageData.set_html v p) = PageData.url p.
Proof. setter. Qed.
Lemma url_set_is_indexable v p : PageData.url (PageData.set_is_indexable v p) = PageData.url p.
Proof. setter. Qed.
Lemma url_set_x_robots_tag v p : PageData.url (PageData.set_x_robots_tag v p) = PageData.url p.
Proof. setter. Qed.

Create Rewrite HintDb page_url.
#[local] Hint Rewrite url_set_status_code url_set_content_type url_set_page_size_bytes
  url_set_redirect_chain url_set_final_url url_set_response_headers url_set_crawl_error
  url_set_is_html url_set_html url_set_is_indexable url_set_x_robots_tag : page_url.

Section worker.
Variable urlparse : string -> option ParseResult.
Variable urlparse_error : string -> string.
Variable session_get : string -> PyExc + Response.t.
Variable urljoin : string -> string -> string.
Variable repr : string -> string.
Variable parse_page : PageData.t -> string -> PyExc + PageData.t.

Lemma follow_url (fuel : nat) (current : string) (seen : gset string)
    (page : PageData.t) (requested : list string) :
  PageData.url (snd (fst (follow session_get urljoin fuel current seen page requested)))
  = PageData.url page.
Proof.
  revert current seen page requested.
  induction fuel as [| fuel IH]; intros; simpl; [reflexivity |].
  destruct (session_get current) as [exc | resp]; simpl.
  { now autorewrite with page_url. }
  destruct (_ || _); simpl; [| reflexivity].
  destruct (decide _); simpl; [reflexivity |].
  destruct (_ || _); simpl.
  - now autorewrite with page_url.
  - rewrite IH. now autorewrite with page_url.
Qed.

Lemma record_response_url (resp : Response.t) (head_only : bool) (page : PageData.t) :
  PageData.url (record_response repr resp head_only page) = PageData.url page.
Proof.
  unfold record_response, handle.
  repeat match goal with
    | |- context [if ?b then _ else _] => destruct b
    | |- context [match ?o with Some _ => _ | None => _ end] => destruct o
    end; now autorewrite with page_url.
Qed.

Lemma fetch_page_url (url : string) (depth : Z) (head_only : bool) :
  PageData.url (fst (fetch_page session_get urljoin repr url depth head_only)) = url.
Proof.
  unfold fetch_page, _follow_redirects.
  pose proof (follow_url _MAX_REDIRECTS url ∅ (PageData.new url url depth) []) as H.
  destruct (follow _ _ _ _ _ _ _) as [[resp page] requested]. simpl in H.
  destruct resp; simpl; [now rewrite record_response_url | assumption].
Qed.

(** Whatever the fetch comes to, the page handed to the main loop
    carries the URL the future was submitted with. *)
Lemma future_result_url (config : AuditConfig.t) (robots_data : RobotsData)
    (url : string) (depth : Z) :
  keeps_url parse_page ->
  PageData.url (future_result urlparse urlparse_error session_get urljoin repr
                  parse_page url depth config robots_data) = url.
Proof.
  intros Hk. unfold future_result, _fetch_and_parse.
  assert (F : forall r,
             (if PageData.is_html (fst (fetch_page session_get urljoin repr url depth false))
                 && negb (bool_decide
                            (PageData.html (fst (fetch_page session_get urljoin repr url depth false)) = ""))
              then parse_page (fst (fetch_page session_get urljoin repr url depth false))
                     (AuditConfig.domain config)
              else inr (fst (fetch_page session_get urljoin repr url depth false))) = r ->
             PageData.url
               match r with
               | inr page => page
               | inl exc => PageData.set_crawl_error (Some (exc_str exc)) (PageData.new url "" 0)
               end = url).
  { intros r <-. destruct (_ && _).
    - destruct (parse_page _ _) as [exc | page'] eqn:E; [reflexivity |].
      rewrite (Hk _ _ _ E). apply fetch_page_url.
    - apply fetch_page_url. }
  destruct (AuditConfig.respect_robots config); [| now apply F].
  destruct (Robots.is_url_allowed _ _ _ _) as [[] |]; [now apply F | |]; reflexivity.
Qed.
End worker.

End WorkerFacts.

(** ** Crawler: invariants of the main loop *)

Module CrawlerFacts.
Import Crawler CrawlerSpec.

Section facts.
Variable urlparse : string -> option ParseResult.
Variable urlparse_error : string -> string.
Variable urlunparse : ParseResult -> string.
Variable session_get : string -> PyExc + Response.t.
Variable urljoin : string -> string -> string.
Variable repr : string -> string.
Variable parse_page : PageData.t -> string -> PyExc + PageData.t.
Variable config : AuditConfig.t.
Variable robots_data : RobotsData.

Local Abbreviation normalize := (_normalize_url urlparse urlunparse).
Local Abbreviation harvest := (harvest_link urlparse urlunparse config).
Local Abbreviation result :=
  (fun f : string * Z =>
     future_result urlparse urlparse_error session_get urljoin repr parse_page
       (fst f) (snd f) config robots_data).
Local Abbreviation complete :=
  (complete urlparse urlparse_error urlunparse session_get urljoin repr parse_page
     config robots_data).
Local Abbreviation step :=
  (step urlparse urlparse_error urlunparse session_get urljoin repr parse_page
     config robots_data).
Local Abbreviation seed := (seed urlparse urlunparse).
Local Abbreviation cap_ok := (cap_ok config).

(** *** Harvesting links *)

Lemma harvest_keeps (depth : Z) (links : list LinkData.t) (st : State) :
  let st' := fold_left (harvest depth) links st in
  pages st' = pages st
  /\ pending_futures st' = pending_futures st
  /\ external_urls st' = external_urls st
  /\ done_count st' = done_count st
  /\ visited st ⊆ visited st'.
Proof.
  revert st. induction links as [| l links IH]; intros st; simpl; [done |].
  destruct (IH (harvest depth st l)) as (P & F & E & D & V).
  rewrite P, F, E, D. unfold harvest_link in *.
  destruct (bool_decide _); [done |].
  destruct (_ && _); simpl in *; [| done].
  repeat split; try reflexivity. set_solver.
Qed.

Lemma harvest_link_at_most_once (depth : Z) (st : State) (l : LinkData.t) :
  at_most_once st -> at_most_once (harvest depth st l).
Proof.
  intros (ND & V & P). unfold harvest_link.
  destruct (bool_decide (normalize (LinkData.url l) = "")); [done |].
  destruct (bool_decide (normalize (LinkData.url l) ∉ visited st)) eqn:Hv; simpl; [| done].
  destruct (_ <? _)%Z; [| done].
  apply bool_decide_eq_true in Hv.
  set (norm := normalize (LinkData.url l)) in *.
  assert (Hf : norm ∉ frontier_urls st) by (rewrite V in Hv; set_solver).
  assert (Hp : norm ∉ dom (pages st)) by (rewrite V in Hv; set_solver).
  unfold at_most_once, frontier_urls in *. simpl.
  rewrite fmap_app. simpl.
  assert (Perm : ((fst <$> todo st) ++ [norm]) ++ (fst <$> pending_futures st)
                 ≡ₚ norm :: (fst <$> todo st) ++ (fst <$> pending_futures st)).
  { rewrite <- app_assoc. simpl. symmetry. apply Permutation_middle. }
  split; [| split].
  - rewrite Perm. apply NoDup_cons. split; assumption.
  - rewrite V. rewrite !list_to_set_app_L. simpl. set_solver.
  - intros u Hu. rewrite Perm in Hu. apply elem_of_cons in Hu as [-> | Hu]; auto.
Qed.

Lemma harvest_at_most_once (depth : Z) (links : list LinkData.t) (st : State) :
  at_most_once st -> at_most_once (fold_left (harvest depth) links st).
Proof.
  revert st. induction links as [| l links IH]; intros st H; [exact H |].
  simpl. apply IH. now apply harvest_link_at_most_once.
Qed.

(** Every URL a harvest appends to the frontier was not visited before
    it, and the frontier only grows at its end. *)
Lemma harvest_appends_unvisited (depth : Z) (links : list LinkData.t) (st : State) :
  exists new,
    todo (fold_left (harvest depth) links st) = todo st ++ new
    /\ NoDup (fst <$> new)
    /\ (forall u, u ∈ fst <$> new -> u ∉ visited st)
    /\ visited (fold_left (harvest depth) links st)
       = visited st ∪ list_to_set (fst <$> new).
Proof.
  revert st. induction links as [| l links IH]; intros st; simpl.
  - exists []. rewrite app_nil_r. simpl. repeat split; [constructor | set_solver | set_solver].
  - destruct (IH (harvest depth st l)) as (new & T & ND & U & V).
    unfold harvest_link in *.
    destruct (bool_decide (normalize (LinkData.url l) = "")); [now exists new |].
    destruct (bool_decide (normalize (LinkData.url l) ∉ visited st)) eqn:Hv; simpl in *;
      [| now exists new].
    destruct (_ <? _)%Z; simpl in *; [| now exists new].
    apply bool_decide_eq_true in Hv.
    exists ((normalize (LinkData.url l), (depth + 1)%Z) :: new).
    rewrite T, V, <- app_assoc. simpl. repeat split.
    + apply NoDup_cons. split; [| assumption].
      intros I. apply U in I. set_solver.
    + intros u Hu. apply elem_of_cons in Hu as [-> | Hu]; [assumption |].
      apply U in Hu. set_solver.
    + set_solver.
Qed.

(** *** Single steps *)

Lemma size_insert_le (m : gmap string PageData.t) (k : string) (v : PageData.t) :
  size (<[k := v]> m) <= S (size m).
Proof.
  destruct (m !! k) eqn:E.
  - rewrite map_size_insert_Some by eauto. lia.
  - rewrite map_size_insert_None by assumption. lia.
Qed.

Lemma in_flight_complete (f : string * Z) (kept rest : list (string * Z)) (st : State) :
  pending_futures st = kept ++ f :: rest ->
  (in_flight (complete f (set_pending (kept ++ rest) st)) <= in_flight st)%Z.
Proof.
  intros Hp. unfold Crawler.complete. unfold in_flight at 1. simpl.
  destruct (harvest_keeps (PageData.depth (result f)) (PageData.internal_links (result f))
              (mkState (visited st) (todo st)
                 (<[PageData.url (result f) := result f]> (pages st))
                 (external_urls st) (kept ++ rest) (done_count st + 1)))
    as (P & F & _).
  simpl in *. rewrite P, F. unfold in_flight. rewrite Hp, !length_app. simpl.
  pose proof (size_insert_le (pages st) (PageData.url (result f)) (result f)). lia.
Qed.

Lemma step_cap (st st' : State) : step st st' -> cap_ok st -> cap_ok st'.
Proof.
  unfold CrawlerSpec.cap_ok.
  intros [st0 f todo' Ht Hw Hc | st0 kept rest f Hp] H.
  - unfold in_flight in *. simpl. rewrite length_app. simpl. lia.
  - pose proof (in_flight_complete f kept rest st0 Hp). lia.
Qed.

Lemma step_visited (st st' : State) : step st st' -> visited st ⊆ visited st'.
Proof.
  intros [st0 f todo' Ht Hw Hc | st0 kept rest f Hp]; [done |].
  unfold Crawler.complete. simpl.
  match goal with |- _ ⊆ visited (fold_left _ ?ls ?s) =>
    destruct (harvest_keeps (PageData.depth (result f)) ls s) as (_ & _ & _ & _ & V) end.
  exact V.
Qed.

Lemma step_at_most_once (st st' : State) :
  keeps_url parse_page -> step st st' -> at_most_once st -> at_most_once st'.
Proof.
  intros Hk [st0 f todo' Ht Hw Hc | st0 kept rest f Hp] (ND & V & P).
  - unfold at_most_once, frontier_urls in *. simpl. rewrite Ht in *.
    rewrite fmap_app, fmap_cons in *. simpl in *.
    assert (Perm : (fst <$> todo') ++ (fst <$> pending_futures st0) ++ [fst f]
                   ≡ₚ fst f :: (fst <$> todo') ++ (fst <$> pending_futures st0)).
    { rewrite app_assoc. symmetry. apply Permutation_cons_append. }
    split; [| split].
    + now rewrite Perm.
    + rewrite V. rewrite !list_to_set_app_L. simpl. set_solver.
    + intros u Hu. apply P. rewrite Perm in Hu. exact Hu.
  - unfold Crawler.complete.
    assert (Hu : PageData.url (result f) = fst f)
      by (apply WorkerFacts.future_result_url; assumption).
    rewrite Hu.
    match goal with |- at_most_once (mkState (visited ?s) (todo ?s) (pages ?s) _ _ _) =>
      assert (H : at_most_once s) end.
    { apply harvest_at_most_once.
      unfold at_most_once, frontier_urls in *. simpl. rewrite Hp in *.
      rewrite !fmap_app, fmap_cons in *.
      assert (Perm : (fst <$> todo st0) ++ (fst <$> kept) ++ fst f :: (fst <$> rest)
                     ≡ₚ fst f :: (fst <$> todo st0) ++ (fst <$> kept) ++ (fst <$> rest)).
      { rewrite !app_assoc. symmetry. apply Permutation_middle. }
      rewrite Perm in ND. apply NoDup_cons in ND as [Hf ND].
      split; [exact ND | split].
      - rewrite V, dom_insert_L.
        rewrite !list_to_set_app_L, list_to_set_cons. set_solver.
      - intros u Hu'. rewrite dom_insert_L.
        assert (u <> fst f) by (intros ->; contradiction).
        assert (u ∉ dom (pages st0)).
        { apply P. rewrite Perm. now right. }
        set_solver. }
    destruct H as (ND' & V' & P').
    unfold at_most_once, frontier_urls in *. simpl in *. auto.
Qed.

Lemma rtc_cap (st st' : State) : rtc step st st' -> cap_ok st -> cap_ok st'.
Proof. induction 1; eauto using step_cap. Qed.

Lemma rtc_at_most_once (st st' : State) :
  keeps_url parse_page -> rtc step st st' -> at_most_once st -> at_most_once st'.
Proof. intros Hk. induction 1; eauto using step_at_most_once. Qed.

Lemma rtc_visited (st st' : State) : rtc step st st' -> visited st ⊆ visited st'.
Proof.
  induction 1 as [| ? ? ? S _ IH]; [done |].
  pose proof (step_visited _ _ S). set_solver.
Qed.

End facts.
End CrawlerFacts.

(** ** Crawler: the loop as a sequence of steps, and its end *)

Module CrawlerRun.
Import Crawler CrawlerSpec CrawlerFacts.

Section facts.
Variable urlparse : string -> option ParseResult.
Variable urlparse_error : string -> string.
Variable urlunparse : ParseResult -> string.
Variable session_get : string -> PyExc + Response.t.
Variable urljoin : string -> string -> string.
Variable repr : string -> string.
Variable parse_page : PageData.t -> string -> PyExc + PageData.t.
Variable config : AuditConfig.t.
Variable robots_data : RobotsData.

Local Abbreviation harvest := (harvest_link urlparse urlunparse config).
Local Abbreviation result :=
  (fun f : string * Z =>
     future_result urlparse urlparse_error session_get urljoin repr parse_page
       (fst f) (snd f) config robots_data).
Local Abbreviation complete :=
  (complete urlparse urlparse_error urlunparse session_get urljoin repr parse_page
     config robots_data).
Local Abbreviation collect :=
  (collect urlparse urlparse_error urlunparse session_get urljoin repr parse_page
     config robots_data).
Local Abbreviation iteration :=
  (iteration urlparse urlparse_error urlunparse session_get urljoin repr parse_page
     config robots_data).
Local Abbreviation run :=
  (run urlparse urlparse_error urlunparse session_get urljoin repr parse_page
     config robots_data).
Local Abbreviation step :=
  (step urlparse urlparse_error urlunparse session_get urljoin repr parse_page
     config robots_data).
Local Abbreviation cap_ok := (cap_ok config).

Lemma set_pending_same (st : State) : set_pending (pending_futures st) st = st.
Proof. now destruct st. Qed.

Lemma complete_keeps (f : string * Z) (st : State) :
  pending_futures (complete f st) = pending_futures st
  /\ pages (complete f st) = <[PageData.url (result f) := result f]> (pages st).
Proof.
  unfold Crawler.complete. simpl.
  match goal with |- pending_futures (fold_left _ ?ls ?s) = _ /\ _ =>
    destruct (harvest_keeps urlparse urlparse_error urlunparse session_get urljoin
                repr parse_page config robots_data
                (PageData.depth (result f)) ls s) as (P & F & _) end.
  now rewrite P, F.
Qed.

Lemma submit_work_steps (l : list (string * Z)) (st : State) :
  todo st = l -> rtc step st (submit_work config l st).
Proof.
  revert st. induction l as [| f l IH]; intros st Ht; simpl; [apply rtc_refl |].
  destruct (_ <? _)%Z eqn:Hw; [| apply rtc_refl].
  destruct (_ <=? _)%Z eqn:Hc; [apply rtc_refl |].
  apply Z.ltb_lt in Hw. apply Z.leb_gt in Hc.
  eapply rtc_l; [apply (step_submit _ _ _ _ _ _ _ _ _ st f l Ht Hw Hc) |].
  now apply IH.
Qed.

Lemma collect_steps (done : list bool) (kept rest : list (string * Z)) (st : State) :
  pending_futures st = kept ++ rest -> rtc step st (collect done kept rest st).
Proof.
  revert done kept st. induction rest as [| f rest IH]; intros done kept st Hp; simpl.
  - rewrite app_nil_r in Hp. rewrite <- Hp, set_pending_same. apply rtc_refl.
  - assert (Hp' : pending_futures st = (kept ++ [f]) ++ rest)
      by (now rewrite <- app_assoc).
    destruct done as [| [] done]; [now apply IH | | now apply IH].
    eapply rtc_l; [apply (step_complete _ _ _ _ _ _ _ _ _ st kept rest f Hp) |].
    apply IH. now destruct (complete_keeps f (set_pending (kept ++ rest) st)) as [-> _].
Qed.

Lemma submit_steps (st : State) : rtc step st (submit config st).
Proof. now apply submit_work_steps. Qed.

Lemma iteration_steps (done : list bool) (st : State) :
  rtc step st (fst (iteration done st)).
Proof.
  unfold Crawler.iteration.
  destruct (bool_decide (pending_futures (submit config st) = [])); [apply submit_steps |].
  etransitivity; [apply submit_steps |].
  match goal with |- rtc _ _ (fst (if ?b then _ else _)) => destruct b end; simpl;
    now apply collect_steps.
Qed.

Lemma run_steps (schedule : list (list bool)) (st st' : State) :
  run schedule st = Some st' -> rtc step st st'.
Proof.
  revert st. induction schedule as [| done schedule IH]; intros st; simpl; [discriminate |].
  pose proof (iteration_steps done st) as S.
  destruct (iteration done st) as [st1 fin]. simpl in S.
  destruct fin; [now intros [= <-] |].
  intros R. etransitivity; [exact S | now apply IH].
Qed.

(** *** How the loop ends *)

Lemma submit_work_stops (l : list (string * Z)) (st : State) :
  todo st = l ->
  let st' := submit_work config l st in
  todo st' = []
  \/ (AuditConfig.max_pages config <= in_flight st')%Z
  \/ (AuditConfig.max_workers config * 2 <= Z.of_nat (length (pending_futures st')))%Z.
Proof.
  revert st. induction l as [| f l IH]; intros st Ht; simpl; [now left |].
  destruct (_ <? _)%Z eqn:Hw; [| right; right; now apply Z.ltb_ge in Hw].
  destruct (_ <=? _)%Z eqn:Hc; [right; left; now apply Z.leb_le in Hc |].
  now apply IH.
Qed.

Lemma iteration_finished (done : list bool) (st st' : State) :
  (1 <= AuditConfig.max_workers config)%Z ->
  iteration done st = (st', true) ->
  pending_futures st' = []
  /\ (todo st' = [] \/ (AuditConfig.max_pages config <= in_flight st')%Z).
Proof.
  intros Hw. unfold Crawler.iteration.
  destruct (bool_decide (pending_futures (submit config st) = [])) eqn:E.
  - intros [= <-]. apply bool_decide_eq_true in E. split; [exact E |].
    destruct (submit_work_stops (todo st) st eq_refl) as [H | [H | H]];
      [now left | now right |].
    unfold submit in E. rewrite E in H. simpl in H. lia.
  - match goal with |- (if ?b then _ else _) = _ -> _ => destruct b eqn:B end;
      [| discriminate].
    intros [= <-]. apply andb_true_iff in B as [B1 B2].
    apply bool_decide_eq_true in B1. apply bool_decide_eq_true in B2.
    split; [exact B2 | now left].
Qed.

(** *** Progress *)

Lemma size_insert_ge (m : gmap string PageData.t) (k : string) (v : PageData.t) :
  size m <= size (<[k := v]> m).
Proof.
  destruct (m !! k) eqn:E.
  - rewrite map_size_insert_Some by eauto. lia.
  - rewrite map_size_insert_None by assumption. lia.
Qed.

Lemma collect_pages_mono (done : list bool) (kept rest : list (string * Z)) (st : State) :
  size (pages st) <= size (pages (collect done kept rest st)).
Proof.
  revert done kept st. induction rest as [| f rest IH]; intros done kept st; simpl.
  - reflexivity.
  - destruct done as [| [] done]; [apply IH | | apply IH].
    etransitivity; [| apply IH].
    destruct (complete_keeps f (set_pending (kept ++ rest) st)) as [_ ->]. simpl.
    apply size_insert_ge.
Qed.

Lemma submit_work_pages (l : list (string * Z)) (st : State) :
  pages (submit_work config l st) = pages st.
Proof.
  revert st. induction l as [| f l IH]; intros st; simpl; [reflexivity |].
  destruct (_ <? _)%Z; [| reflexivity].
  destruct (_ <=? _)%Z; [reflexivity |]. now rewrite IH.
Qed.

Local Abbreviation idle_polls :=
  (idle_polls urlparse urlparse_error urlunparse session_get urljoin repr parse_page
     config robots_data).

(** A poll that finds one of the fetches finished adds a page. *)
Lemma collect_progress (done : list bool) (kept rest : list (string * Z)) (st : State) :
  keeps_url parse_page ->
  (forall f, f ∈ rest -> fst f ∉ dom (pages st)) ->
  true ∈ take (length rest) done ->
  size (pages st) < size (pages (collect done kept rest st)).
Proof.
  intros Hk. revert done kept.
  induction rest as [| f rest IH]; intros done kept Hfresh Hd; simpl in *.
  - now apply elem_of_nil in Hd.
  - destruct done as [| [] done]; simpl in Hd.
    + now apply elem_of_nil in Hd.
    + eapply Nat.lt_le_trans;
        [| apply collect_pages_mono].
      destruct (complete_keeps f (set_pending (kept ++ rest) st))
        as [_ ->].
      simpl. rewrite (WorkerFacts.future_result_url _ _ _ _ _ _ _ _ _ _ Hk).
      rewrite map_size_insert_None; [lia |].
      apply not_elem_of_dom. apply Hfresh. left.
    + apply elem_of_cons in Hd as [Hd | Hd]; [discriminate |].
      apply IH; [| exact Hd]. intros g Hg. apply Hfresh. now right.
Qed.

Lemma iteration_pages_mono (done : list bool) (st : State) :
  size (pages st) <= size (pages (fst (iteration done st))).
Proof.
  unfold Crawler.iteration.
  pose proof (submit_work_pages (todo st) st) as Hpages.
  fold (submit config st) in Hpages.
  destruct (bool_decide (pending_futures (submit config st) = [])); simpl;
    [now rewrite Hpages |].
  match goal with |- _ <= size (pages (fst (if ?b then _ else _))) => destruct b end;
    simpl; rewrite <- Hpages;
    apply collect_pages_mono.
Qed.

Lemma iteration_finds_done (done : list bool) (st : State) :
  keeps_url parse_page -> at_most_once st ->
  finds_done config done st = true ->
  size (pages st) < size (pages (fst (iteration done st))).
Proof.
  intros Hk Hinv Hd. unfold finds_done in Hd. apply bool_decide_eq_true in Hd.
  unfold Crawler.iteration.
  pose proof (rtc_at_most_once _ _ _ _ _ _ _ _ _ _ _ Hk
                (submit_steps st) Hinv)
    as (ND & V & P).
  pose proof (submit_work_pages (todo st) st) as Hpages.
  fold (submit config st) in Hpages.
  assert (Hc : size (pages st)
               < size (pages (collect done [] (pending_futures (submit config st))
                                (submit config st)))).
  { rewrite <- Hpages. apply collect_progress; [exact Hk | | exact Hd].
    intros f Hf. apply P. unfold frontier_urls. apply elem_of_app. right.
    apply list_elem_of_fmap. eauto. }
  destruct (bool_decide (pending_futures (submit config st) = [])) eqn:E.
  - apply bool_decide_eq_true in E. rewrite E in Hd. simpl in Hd.
    now apply elem_of_nil in Hd.
  - match goal with |- _ < size (pages (fst (if ?b then _ else _))) => destruct b end;
      exact Hc.
Qed.

(** A run that the schedule does not see to its end has passed through
    idle polls only, but for one pass for each page below the cap. *)
Lemma run_unfinished (schedule : list (list bool)) (st : State) :
  keeps_url parse_page -> at_most_once st -> cap_ok st ->
  run schedule st = None ->
  (Z.of_nat (length schedule)
   <= Z.of_nat (idle_polls schedule st)
      + (AuditConfig.max_pages config - Z.of_nat (size (pages st))))%Z.
Proof.
  intros Hk. revert st.
  induction schedule as [| done schedule IH]; intros st Hinv Hcap; simpl.
  - intros _. unfold CrawlerSpec.cap_ok, in_flight in Hcap. lia.
  - pose proof (iteration_steps done st) as S.
    pose proof (iteration_pages_mono done st) as M.
    pose proof (iteration_finds_done done st Hk Hinv) as Pr.
    destruct (iteration done st) as [st1 fin]. simpl in S, M, Pr.
    destruct fin; [discriminate |].
    intros R. apply IH in R.
    + destruct (finds_done config done st); [specialize (Pr eq_refl) |]; lia.
    + eapply rtc_at_most_once; eassumption.
    + eapply rtc_cap; eassumption.
Qed.

(** The loop ends as soon as the polls that were not idle outnumber
    the pages below the cap. *)
Lemma run_ends (schedule : list (list bool)) (st : State) :
  keeps_url parse_page -> at_most_once st -> cap_ok st ->
  (Z.of_nat (idle_polls schedule st)
   + (AuditConfig.max_pages config - Z.of_nat (size (pages st)))
   < Z.of_nat (length schedule))%Z ->
  is_Some (run schedule st).
Proof.
  intros Hk Hinv Hcap Hlen.
  destruct (run schedule st) as [st' |] eqn:R; [eauto |].
  pose proof (run_unfinished schedule st Hk Hinv Hcap R). lia.
Qed.

(** A poll at which the oldest pending fetch has finished is not
    idle. *)
Lemma run_unfinished_oldest (schedule : list (list bool)) (st : State) :
  run schedule st = None ->
  idle_polls schedule st + oldest_done_polls schedule <= length schedule.
Proof.
  revert st. induction schedule as [| done schedule IH]; intros st; simpl.
  { intros _. unfold oldest_done_polls. rewrite filter_nil. simpl. lia. }
  unfold oldest_done_polls in *.
  pose proof (eq_refl (iteration done st)) as E. revert E.
  unfold Crawler.iteration at 2.
  destruct (iteration done st) as [st1 fin]. destruct fin; [discriminate |].
  intros E R. specialize (IH _ R).
  destruct (bool_decide (pending_futures (submit config st) = [])) eqn:B;
    [discriminate |].
  apply bool_decide_eq_false in B.
  destruct (decide (head done = Some true)) as [Hd | Hd].
  - rewrite filter_cons_True by exact Hd. simpl.
    assert (F : finds_done config done st = true).
    { unfold finds_done. apply bool_decide_eq_true.
      destruct (pending_futures (submit config st)); [contradiction |].
      destruct done as [| b done]; [discriminate |].
      injection Hd as ->. simpl. left. }
    rewrite F. lia.
  - rewrite filter_cons_False by exact Hd.
    destruct (finds_done config done st); lia.
Qed.

Lemma run_ends_oldest (schedule : list (list bool)) (st : State) :
  keeps_url parse_page -> at_most_once st -> cap_ok st ->
  (AuditConfig.max_pages config - Z.of_nat (size (pages st))
   < Z.of_nat (oldest_done_polls schedule))%Z ->
  is_Some (run schedule st).
Proof.
  intros Hk Hinv Hcap Hlen.
  destruct (run schedule st) as [st' |] eqn:R; [eauto |].
  pose proof (run_unfinished schedule st Hk Hinv Hcap R).
  pose proof (run_unfinished_oldest schedule st R). lia.
Qed.
End facts.
End CrawlerRun.

(** ** Crawler: seeding, and a start page with more links than the cap *)

Module CrawlerScenario.
Import Crawler CrawlerSpec CrawlerFacts CrawlerRun.

Section seeding.
Variable urlparse : string -> option ParseResult.
Variable urlunparse : ParseResult -> string.
Variable config : AuditConfig.t.

Local Abbreviation normalize := (_normalize_url urlparse urlunparse).
Local Abbreviation seed := (seed urlparse urlunparse).

Local Abbreviation seeded := (seeded urlparse urlunparse).

Lemma seed_from (seeds : list string) (st : State) :
  fold_left (seed_step urlparse urlunparse) seeds st
  = mkState (visited st ∪ list_to_set (seeded seeds))
      (todo st ++ ((fun u => (u, 0%Z)) <$> seeded seeds))
      (pages st) (external_urls st) (pending_futures st) (done_count st).
Proof.
  revert st. induction seeds as [| s seeds IH]; intros st.
  - destruct st. simpl. f_equal; [set_solver | now rewrite app_nil_r].
  - simpl. rewrite IH. unfold seed_step, seeded. rewrite fmap_cons.
    destruct (bool_decide (normalize s = "")) eqn:E.
    + apply bool_decide_eq_true in E. rewrite filter_cons_False by tauto.
      reflexivity.
    + apply bool_decide_eq_false in E. rewrite filter_cons_True by assumption.
      simpl. f_equal; [set_solver | now rewrite <- app_assoc].
Qed.

Lemma seed_state (seeds : list string) :
  seed seeds
  = mkState (list_to_set (seeded seeds)) ((fun u => (u, 0%Z)) <$> seeded seeds) ∅ ∅ [] 0.
Proof.
  unfold Crawler.seed. rewrite seed_from. simpl. f_equal. set_solver.
Qed.

Lemma seed_cap (seeds : list string) :
  (0 <= AuditConfig.max_pages config)%Z -> cap_ok config (seed seeds).
Proof.
  intros H. rewrite seed_state. unfold cap_ok, in_flight. simpl.
  rewrite map_size_empty. lia.
Qed.

(** Seeds that normalise to distinct URLs start the loop with a
    duplicate-free frontier. *)
Lemma seed_at_most_once (seeds : list string) :
  NoDup (seeded seeds) -> at_most_once (seed seeds).
Proof.
  intros ND. rewrite seed_state. unfold at_most_once, frontier_urls. simpl.
  rewrite app_nil_r, <- list_fmap_compose.
  rewrite (list_fmap_ext _ id (seeded seeds)), list_fmap_id by done.
  repeat split; [assumption | set_solver | set_solver].
Qed.
End seeding.

Section scenario.
Variable urlparse : string -> option ParseResult.
Variable urlparse_error : string -> string.
Variable urlunparse : ParseResult -> string.
Variable session_get : string -> PyExc + Response.t.
Variable urljoin : string -> string -> string.
Variable repr : string -> string.
Variable parse_page : PageData.t -> string -> PyExc + PageData.t.
Variable config : AuditConfig.t.
Variable robots_data : RobotsData.
Variable start : string.

Local Abbreviation normalize := (_normalize_url urlparse urlunparse).
Local Abbreviation harvest := (harvest_link urlparse urlunparse config).
Local Abbreviation result :=
  (fun f : string * Z =>
     future_result urlparse urlparse_error session_get urljoin repr parse_page
       (fst f) (snd f) config robots_data).
Local Abbreviation complete :=
  (complete urlparse urlparse_error urlunparse session_get urljoin repr parse_page
     config robots_data).
Local Abbreviation collect :=
  (collect urlparse urlparse_error urlunparse session_get urljoin repr parse_page
     config robots_data).
Local Abbreviation iteration :=
  (iteration urlparse urlparse_error urlunparse session_get urljoin repr parse_page
     config robots_data).
Local Abbreviation run :=
  (run urlparse urlparse_error urlunparse session_get urljoin repr parse_page
     config robots_data).
Local Abbreviation step :=
  (step urlparse urlparse_error urlunparse session_get urljoin repr parse_page
     config robots_data).
Local Abbreviation seed := (Crawler.seed urlparse urlunparse).
Local Abbreviation s0 := (normalize start).
Local Abbreviation links :=
  (links_of urlparse urlparse_error urlunparse session_get urljoin repr parse_page
     config robots_data s0 0).

Hypothesis cap3 : AuditConfig.max_pages config = 3%Z.
Hypothesis workers : (1 <= AuditConfig.max_workers config)%Z.
Hypothesis keeps : keeps_url parse_page.
Hypothesis start_ok : s0 <> "".
Hypothesis distinct : NoDup (s0 :: links).
Hypothesis links_ok : "" ∉ links.
Hypothesis five : length links = 5.

(** While the cap is not reached, a harvest leaves every link of the
    page visited. *)
Lemma harvest_visits_all (depth : Z) (ls : list LinkData.t) (st : State) :
  (in_flight st < AuditConfig.max_pages config)%Z ->
  forall l, l ∈ ls -> normalize (LinkData.url l) <> "" ->
            normalize (LinkData.url l) ∈ visited (fold_left (harvest depth) ls st).
Proof.
  revert st. induction ls as [| l0 ls IH]; intros st Hc l Hl Hn; [inversion Hl |].
  simpl.
  assert (Hc' : (in_flight (harvest depth st l0) < AuditConfig.max_pages config)%Z).
  { unfold harvest_link. destruct (bool_decide _); [assumption |].
    destruct (_ && _); [| assumption]. exact Hc. }
  apply elem_of_cons in Hl as [-> | Hl]; [| now apply IH].
  destruct (harvest_keeps urlparse urlparse_error urlunparse session_get urljoin repr
              parse_page config robots_data depth ls (harvest depth st l0))
    as (_ & _ & _ & _ & V).
  apply V. unfold harvest_link.
  rewrite bool_decide_eq_false_2 by assumption.
  destruct (bool_decide (normalize (LinkData.url l0) ∉ visited st)) eqn:Hv.
  - apply Z.ltb_lt in Hc. rewrite Hc. simpl. set_solver.
  - apply bool_decide_eq_false in Hv. simpl. apply dec_stable in Hv. exact Hv.
Qed.

Local Abbreviation waiting :=
  (waiting urlparse urlunparse start).
Local Abbreviation discovered :=
  (discovered urlparse urlparse_error urlunparse session_get urljoin repr parse_page
     config robots_data start).

Lemma submit_waiting (st : State) :
  waiting st ->
  pages (submit config st) = ∅
  /\ visited (submit config st) = visited st
  /\ todo (submit config st) = []
  /\ pending_futures (submit config st) = [(s0, 0%Z)].
Proof.
  intros (Hp & _ & [[Ht Hf] | [Ht Hf]]); unfold submit; rewrite Ht; simpl.
  - assert (E : (Z.of_nat 0 <? AuditConfig.max_workers config * 2)%Z = true)
      by (apply Z.ltb_lt; simpl; lia).
    unfold in_flight. rewrite Hf, Hp, map_size_empty, cap3. simpl.
    rewrite E. simpl. auto.
  - auto.
Qed.

Lemma complete_start (st : State) :
  pages st = ∅ -> pending_futures st = [] -> s0 ∈ visited st ->
  discovered (complete (s0, 0%Z) st).
Proof.
  intros Hp Hf Hs. unfold CrawlerSpec.discovered, Crawler.complete. simpl.
  set (page := future_result urlparse urlparse_error session_get urljoin repr
                 parse_page s0 0 config robots_data).
  set (st1 := mkState _ _ _ _ _ _).
  assert (Hc : (in_flight st1 < AuditConfig.max_pages config)%Z).
  { unfold in_flight, st1. simpl. rewrite Hf, Hp, cap3. simpl.
    rewrite map_size_insert_None, map_size_empty by apply lookup_empty. lia. }
  destruct (harvest_keeps urlparse urlparse_error urlunparse session_get urljoin repr
              parse_page config robots_data (PageData.depth page)
              (PageData.internal_links page) st1) as (_ & _ & _ & _ & V).
  intros u Hin. apply elem_of_union in Hin as [Hin | Hin].
  - apply elem_of_singleton in Hin as ->. apply V. exact Hs.
  - apply elem_of_list_to_set in Hin. unfold links_of in Hin. apply list_elem_of_fmap in Hin as (l & -> & Hl).
    fold page in Hl.
    apply (harvest_visits_all (PageData.depth page) _ st1 Hc l Hl).
    intros E. apply links_ok. unfold links_of. apply list_elem_of_fmap.
    exists l. split; [now symmetry | exact Hl].
Qed.

Lemma iteration_unfold (done : list bool) (st : State) :
  iteration done st
  = if bool_decide (pending_futures (submit config st) = [])
    then (submit config st, true)
    else
      (collect done [] (pending_futures (submit config st)) (submit config st),
       bool_decide (todo (collect done [] (pending_futures (submit config st))
                            (submit config st)) = [])
       && bool_decide (pending_futures
                         (collect done [] (pending_futures (submit config st))
                            (submit config st)) = [])).
Proof.
  unfold Crawler.iteration.
  destruct (bool_decide (pending_futures (submit config st) = [])); [reflexivity |].
  now destruct (_ && _).
Qed.

Lemma collect_single (done : list bool) (f : string * Z) (st : State) :
  collect done [] [f] st
  = match done with
    | true :: _ => set_pending [] (complete f (set_pending [] st))
    | _ => set_pending [f] st
    end.
Proof. destruct done as [| [] done]; reflexivity. Qed.

Lemma iteration_phase (done : list bool) (st : State) :
  waiting st \/ discovered st ->
  (waiting (fst (iteration done st)) /\ snd (iteration done st) = false)
  \/ discovered (fst (iteration done st)).
Proof.
  intros [W | D].
  - destruct (submit_waiting st W) as (Hp & Hv & Ht & Hf).
    destruct W as (_ & Hs & _).
    rewrite iteration_unfold, Hf, bool_decide_eq_false_2 by discriminate.
    rewrite collect_single. cbn [fst snd].
    assert (Wait : waiting (set_pending [(s0, 0%Z)] (submit config st))
                   /\ bool_decide (todo (set_pending [(s0, 0%Z)] (submit config st)) = [])
                      && bool_decide (pending_futures
                                        (set_pending [(s0, 0%Z)] (submit config st)) = [])
                      = false).
    { unfold CrawlerSpec.waiting, set_pending. cbn [todo pending_futures visited pages].
      rewrite Hp, Hv, Ht.
      repeat split; try assumption; try (right; now split);
        try (now rewrite andb_false_r). }
    destruct done as [| [] done]; [now left | | now left].
    right. unfold CrawlerSpec.discovered, set_pending. cbn [visited].
    apply complete_start; cbn [pages pending_futures visited set_pending];
      [assumption | reflexivity | now rewrite Hv].
  - right. unfold CrawlerSpec.discovered in *.
    pose proof (rtc_visited urlparse urlparse_error urlunparse session_get urljoin repr
                  parse_page config robots_data _ _
                  (iteration_steps urlparse urlparse_error urlunparse session_get urljoin
                     repr parse_page config robots_data done st)) as V.
    set_solver.
Qed.

Lemma run_discovered (schedule : list (list bool)) (st st' : State) :
  waiting st \/ discovered st -> run schedule st = Some st' -> discovered st'.
Proof.
  revert st. induction schedule as [| done schedule IH]; intros st H; simpl; [discriminate |].
  pose proof (iteration_phase done st H) as Ph.
  destruct (iteration done st) as [st1 fin]. simpl in Ph.
  destruct fin.
  - intros [= <-]. destruct Ph as [[_ ?] | D]; [discriminate | exact D].
  - apply IH. destruct Ph as [[W _] | D]; [now left | now right].
Qed.

(** The pass that ends a run. *)
Lemma run_last (schedule : list (list bool)) (st st' : State) :
  run schedule st = Some st' ->
  exists done st1, rtc step st st1 /\ iteration done st1 = (st', true).
Proof.
  revert st. induction schedule as [| done schedule IH]; intros st; simpl; [discriminate |].
  pose proof (iteration_steps urlparse urlparse_error urlunparse session_get urljoin
                repr parse_page config robots_data done st) as S.
  destruct (iteration done st) as [st1 fin] eqn:E. simpl in S.
  destruct fin.
  - intros [= <-]. exists done, st. split; [apply rtc_refl | exact E].
  - intros R. destruct (IH st1 R) as (d & st2 & S2 & E2).
    exists d, st2. split; [etransitivity; eassumption | exact E2].
Qed.

Lemma seeded_start : seeded urlparse urlunparse [start] = [s0].
Proof.
  unfold CrawlerSpec.seeded. simpl. now rewrite filter_cons_True, filter_nil.
Qed.

Lemma seed_waiting : waiting (seed [start]).
Proof.
  rewrite (seed_state urlparse urlunparse config), seeded_start.
  unfold CrawlerSpec.waiting. simpl.
  repeat split; [set_solver | now left].
Qed.

Lemma seed_invariants :
  at_most_once (seed [start]) /\ cap_ok config (seed [start]).
Proof.
  split.
  - apply (seed_at_most_once urlparse urlunparse config).
    rewrite seeded_start. apply NoDup_singleton.
  - apply seed_cap. rewrite cap3. lia.
Qed.

(** With a cap of 3 and a start page that links to 5 other pages, a run
    that ends has exactly 3 pages; the frontier is not empty and none
    of its URLs has a page. *)
Lemma run_three_pages (schedule : list (list bool)) (st : State) :
  run schedule (seed [start]) = Some st ->
  size (pages st) = 3
  /\ pending_futures st = []
  /\ todo st <> []
  /\ (forall u, u ∈ fst <$> todo st -> u ∈ visited st /\ u ∉ dom (pages st))
  /\ discovered st.
Proof.
  intros R.
  pose proof (run_discovered schedule _ _ (or_introl seed_waiting) R) as D.
  destruct seed_invariants as [I0 C0].
  pose proof (run_steps urlparse urlparse_error urlunparse session_get urljoin repr
                parse_page config robots_data schedule _ _ R) as S.
  pose proof (rtc_at_most_once urlparse urlparse_error urlunparse session_get urljoin
                repr parse_page config robots_data _ _ keeps S I0) as (ND & V & P).
  pose proof (rtc_cap urlparse urlparse_error urlunparse session_get urljoin
                repr parse_page config robots_data _ _ S C0) as C.
  destruct (run_last schedule _ _ R) as (done & st1 & _ & E).
  destruct (iteration_finished urlparse urlparse_error urlunparse session_get urljoin
              repr parse_page config robots_data done st1 st workers E) as [Hf Hend].
  unfold CrawlerSpec.cap_ok, in_flight in C. rewrite Hf, cap3 in C. simpl in C.
  unfold in_flight in Hend. rewrite Hf, cap3 in Hend. simpl in Hend.
  unfold frontier_urls in *. rewrite Hf in *. simpl in *. rewrite app_nil_r in *.
  assert (Hsize : size (visited st) = length (todo st) + size (pages st)).
  { rewrite V, size_union.
    - rewrite size_list_to_set, length_fmap, size_dom by assumption. reflexivity.
    - intros u Hu Hd. apply elem_of_list_to_set in Hu. exact (P u Hu Hd). }
  assert (H6 : 6 <= size (visited st)).
  { etransitivity; [| apply subseteq_size; exact D].
    rewrite size_list_to_set by exact distinct. simpl. rewrite five. lia. }
  assert (Ht : todo st <> []) by (intros Ht; rewrite Ht in Hsize; simpl in Hsize; lia).
  repeat split.
  - destruct Hend as [? | ?]; [contradiction | lia].
  - exact Ht.
  - rewrite V. set_solver.
  - now apply P.
  - exact D.
Qed.

(** And such a run does end: the loop is left once four polls were not
    idle, and so once four polls found the oldest pending fetch
    finished. *)
Lemma run_three_ends (schedule : list (list bool)) :
  idle_polls urlparse urlparse_error urlunparse session_get urljoin repr parse_page
    config robots_data schedule (seed [start]) + 3 < length schedule
  \/ 4 <= oldest_done_polls schedule ->
  is_Some (run schedule (seed [start])).
Proof.
  destruct seed_invariants as [I0 C0].
  assert (Hsize : size (pages (seed [start])) = 0).
  { rewrite (seed_state urlparse urlunparse config). simpl. apply map_size_empty. }
  intros [Hs | Hs].
  - apply run_ends; try assumption. rewrite cap3, Hsize. lia.
  - apply run_ends_oldest; try assumption. rewrite cap3, Hsize. lia.
Qed.

End scenario.
End CrawlerScenario.

(** ** Crawler: the claims *)

Module CrawlerClaims.
Import Crawler CrawlerSpec CrawlerFacts CrawlerRun CrawlerScenario.

(** C2.  At every step of [_crawl_internal] the number of completed
    pages plus in-flight fetches is at most [config.max_pages] (a page
    count, so not negative), and every pass of the main loop is made of
    such steps.  In particular, with [max_pages = 3] and a start page
    that links to 5 distinct internal pages, the crawl returns, with
    exactly 3 entries in its page map: whatever the order in which the
    fetches finish and however many polls find none of them finished,
    the loop is left once four of its polls were not idle (the schedule
    is longer than its idle polls plus three), and in particular once
    four polls found the oldest pending fetch finished.  Every crawl
    that returns has exactly 3 pages, the frontier still holds
    discovered URLs and none of them was fetched. *)
Theorem page_cap_enforced
    (urlparse : string -> option ParseResult) (urlparse_error : string -> string)
    (urlunparse : ParseResult -> string)
    (session_get : string -> PyExc + Response.t) (urljoin : string -> string -> string)
    (repr : string -> string)
    (parse_page : PageData.t -> string -> PyExc + PageData.t)
    (config : AuditConfig.t) (robots_data : RobotsData) :
  let reachable :=
    reachable urlparse urlparse_error urlunparse session_get urljoin repr parse_page
      config robots_data in
  let iteration :=
    iteration urlparse urlparse_error urlunparse session_get urljoin repr parse_page
      config robots_data in
  let run :=
    run urlparse urlparse_error urlunparse session_get urljoin repr parse_page
      config robots_data in
  let _crawl_internal :=
    _crawl_internal urlparse urlparse_error urlunparse session_get urljoin repr
      parse_page config robots_data in
  let seed := seed urlparse urlunparse in
  ((0 <= AuditConfig.max_pages config)%Z ->
   forall seeds st,
     reachable seeds st ->
     (Z.of_nat (size (pages st)) + Z.of_nat (length (pending_futures st))
      <= AuditConfig.max_pages config)%Z)
  /\ (forall seeds st done,
        reachable seeds st -> reachable seeds (fst (iteration done st)))
  /\ (forall start : string,
        let s0 := _normalize_url urlparse urlunparse start in
        let links :=
          links_of urlparse urlparse_error urlunparse session_get urljoin repr
            parse_page config robots_data s0 0 in
        AuditConfig.max_pages config = 3%Z ->
        (1 <= AuditConfig.max_workers config)%Z ->
        keeps_url parse_page ->
        s0 <> "" -> NoDup (s0 :: links) -> "" ∉ links -> length links = 5 ->
        (forall schedule st,
           run schedule (seed [start]) = Some st ->
           _crawl_internal [start] schedule = Returned (pages st, external_urls st)
           /\ size (pages st) = 3
           /\ todo st <> []
           /\ (forall u, u ∈ fst <$> todo st -> u ∈ visited st /\ u ∉ dom (pages st))
           /\ list_to_set (s0 :: links) ⊆ visited st)
        /\ (forall schedule,
              idle_polls urlparse urlparse_error urlunparse session_get urljoin repr
                parse_page config robots_data schedule (seed [start]) + 3
              < length schedule
              \/ 4 <= oldest_done_polls schedule ->
              exists st,
                run schedule (seed [start]) = Some st
                /\ _crawl_internal [start] schedule
                   = Returned (pages st, external_urls st)
                /\ size (pages st) = 3
                /\ todo st <> [])).
Proof.
  intros reachable iteration run _crawl_internal seed. split; [| split].
  - intros H0 seeds st R.
    apply (rtc_cap urlparse urlparse_error urlunparse session_get urljoin repr
             parse_page config robots_data _ _ R).
    now apply seed_cap.
  - intros seeds st done R. unfold reachable, CrawlerSpec.reachable in *.
    etransitivity; [exact R | apply iteration_steps].
  - intros start s0 links cap3 workers keeps start_ok distinct links_ok five.
    assert (Three : forall schedule st,
               run schedule (seed [start]) = Some st ->
               _crawl_internal [start] schedule = Returned (pages st, external_urls st)
               /\ size (pages st) = 3
               /\ todo st <> []
               /\ (forall u, u ∈ fst <$> todo st ->
                             u ∈ visited st /\ u ∉ dom (pages st))
               /\ list_to_set (s0 :: links) ⊆ visited st).
    { intros schedule st R.
      destruct (run_three_pages urlparse urlparse_error urlunparse session_get urljoin
                  repr parse_page config robots_data start cap3 workers keeps start_ok
                  distinct links_ok five schedule st R) as (S3 & _ & Ht & Hu & D).
      split; [| auto].
      subst run seed _crawl_internal. unfold Crawler._crawl_internal.
      destruct (_ <=? 0)%Z eqn:E; [apply Z.leb_le in E; lia |].
      now rewrite R. }
    split; [exact Three |].
    intros schedule Hs.
    destruct (run_three_ends urlparse urlparse_error urlunparse session_get
                urljoin repr parse_page config robots_data start cap3 workers keeps
                start_ok distinct links_ok five schedule Hs) as [st R].
    exists st. destruct (Three schedule st R) as (E & S3 & Ht & _).
    auto.
Qed.

Lemma sample_keeps_url : keeps_url CrawlerSamples.parse_page.
Proof.
  intros page d page'. unfold CrawlerSamples.parse_page.
  destruct (decide _); intros [= <-]; [| reflexivity]. now destruct page.
Qed.

Lemma page_cap_enforced_witness :
  exists pages_ ext,
    CrawlerSamples._crawl_internal 3 [CrawlerSamples.home]
      [[false]; [true]; []; [false; true]; [true]; []]
    = Returned (pages_, ext)
    /\ size pages_ = 3.
Proof.
  destruct (page_cap_enforced UrlSamples.urlparse CrawlerSamples.no_message
              UrlSamples.urlunparse CrawlerSamples.session_get
              CrawlerSamples.join_absolute CrawlerSamples.quote
              CrawlerSamples.parse_page (CrawlerSamples.config 3)
              CrawlerSamples.no_robots) as (_ & _ & Scen).
  destruct (Scen CrawlerSamples.home) as [_ Term].
  - reflexivity.
  - vm_compute. discriminate.
  - exact sample_keeps_url.
  - vm_compute. discriminate.
  - apply (bool_decide_unpack _). vm_compute. exact I.
  - apply (bool_decide_unpack _). vm_compute. exact I.
  - vm_compute. reflexivity.
  - destruct (Term [[false]; [true]; []; [false; true]; [true]; []])
      as (st & _ & E & S3 & _).
    + left. vm_compute. lia.
    + exists (pages st), (external_urls st). split; [exact E | exact S3].
Defined.

(** C1: what the code does on a sitemap that lists [http://h/a;x/] and
    [http://h/a].  [crawl] normalises them to two different seeds,
    [_crawl_internal] normalises the seeds again, to the same URL, and
    appends both to the frontier without looking at the visited set: the
    URL is in the visited set and on the frontier twice, is in flight
    twice, and is fetched twice (7 fetches for 6 pages). *)
Theorem duplicate_seed_fetched_twice :
  let seeds := CrawlerSamples.seed_urls (CrawlerSamples.config 100)
                 CrawlerSamples.sitemap in
  let st0 := CrawlerSamples.seed seeds in
  seeds = ["http://h/"; "http://h/a;x"; "http://h/a"]
  /\ todo st0 = [("http://h/", 0%Z); ("http://h/a", 0%Z); ("http://h/a", 0%Z)]
  /\ pending_futures (CrawlerSamples.submit 100 st0)
     = [("http://h/", 0%Z); ("http://h/a", 0%Z); ("http://h/a", 0%Z)]
  /\ ~ at_most_once st0
  /\ exists st,
       CrawlerSamples.run 100 [[true; true; true]; [true; true; true; true]] st0 = Some st
       /\ done_count st = 7%Z
       /\ size (pages st) = 6.
Proof.
  split; [vm_compute; reflexivity |].
  split; [vm_compute; reflexivity |].
  split; [vm_compute; reflexivity |].
  split.
  - intros [ND _]. vm_compute in ND.
    inversion ND as [| ? ? _ ND1]. inversion ND1 as [| ? ? Hn _].
    apply Hn. left.
  - eexists. split; [vm_compute; reflexivity |].
    split; vm_compute; reflexivity.
Qed.

End CrawlerClaims.

(** ** The scorer over binary64: the rounding error *)

Module Scorer64Near.
Import Float64 Float64Facts Float64Order Float64Near Scorer64 Scorer64Spec Scorer64Facts.
Local Open Scope Q_scope.
#[local] Arguments pow2 : simpl never.
#[local] Arguments rnd : simpl never.
#[local] Arguments of_Q : simpl never.

(** The double made of a number between 0 and 100. *)
Lemma of_Q_100_near (x : Q) :
  0 <= x <= 100 ->
  of_Q x = Finite (rnd x)
  /\ 0 <= rnd x <= 100
  /\ x - (1 # 140737488355328) <= rnd x <= x + (1 # 140737488355328).
Proof.
  intros H. destruct (of_Q_within x 0 100) as (y & E & B); [lia | lia | exact H |].
  assert (R0 : 0 <= rnd x) by (apply rnd_nonneg; tauto).
  assert (R1 : rnd x <= 100).
  { change 100 with (inject_Z 100). rewrite <- (rnd_int 100) by lia.
    apply rnd_le; tauto. }
  split; [| split; [split; assumption | now apply rnd_near_100]].
  apply of_Q_finite; [exact R0 |].
  apply Qle_lt_trans with 100; [exact R1 | reflexivity].
Qed.

Lemma sub_near (t c : Q) :
  0 <= c <= t -> t <= 100 ->
  exists d, sub (Finite t) (Finite c) = Finite d
            /\ 0 <= d <= 100
            /\ t - c - (1 # 140737488355328) <= d <= t - c + (1 # 140737488355328).
Proof.
  intros Hc Ht. rewrite sub_finite.
  assert (E : t + Qred (- c) == t - c) by (rewrite Qred_correct; ring).
  destruct (of_Q_100_near (t + Qred (- c))) as (F & B & N); [rewrite E; lra |].
  exists (rnd (t + Qred (- c))). split; [exact F | split; [exact B |]].
  set (y := rnd _) in *. clearbody y. set (z := Qred _) in *. clearbody z. lra.
Qed.

Lemma round_near (x : Q) (n : nat) (delta : Q) :
  0 <= x <= 100 ->
  x - delta <= PyNum.round x n <= x + delta ->
  exists s, round (Finite x) n = Finite s
            /\ 0 <= s <= 100
            /\ x - delta - (1 # 140737488355328) <= s <= x + delta + (1 # 140737488355328).
Proof.
  intros Hx Hd. cbn [round].
  assert (B : 0 <= PyNum.round x n <= 100).
  { split; [apply PyNumFacts.round_nonneg; tauto |].
    rewrite <- (round_int 100 n). apply PyNumFacts.round_le. tauto. }
  destruct (of_Q_100_near _ B) as (F & B' & N).
  eexists. split; [exact F | split; [exact B' | lra]].
Qed.

(** A category score is within 0.005, and two roundings to a double,
    of the weight minus the capped deduction. *)
Lemma category_score_near (n : Z) (issues : list Issue) (cw : string * Z) :
  (1 <= n)%Z -> (0 <= snd cw <= 100)%Z ->
  exists c s,
    capped n issues cw = Finite c
    /\ 0 <= c <= inject_Z (snd cw)
    /\ snd (category_score n issues cw) = Finite s
    /\ inject_Z (snd cw) - c - (1 # 200) - (2 # 140737488355328) <= s
       <= inject_Z (snd cw) - c + (1 # 200) + (2 # 140737488355328).
Proof.
  intros Hn Hw.
  destruct (capped_within n issues cw Hn ltac:(lia)) as (c & Ec & Bc).
  change (inject_Z 0) with 0 in Bc.
  assert (W : inject_Z (snd cw) <= 100)
    by (change 100 with (inject_Z 100); rewrite <- Zle_Qle; lia).
  exists c. unfold category_score. cbn [snd]. rewrite Ec, of_int_small by lia.
  destruct (sub_near (inject_Z (snd cw)) c Bc W) as (d & Ed & Bd & Nd).
  rewrite Ed.
  destruct (round_near d 2 (1 # 200) Bd (PyNumNear.round_2_near d)) as (s & Es & Bs & Ns).
  exists s. repeat split; try tauto; lra.
Qed.

(** The total is within one rounding to a double for each category of
    the starting value minus the capped deductions. *)
Lemma total_fold_near (n : Z) (issues : list Issue) (ws : ODict.t Z) (t : Q) :
  (1 <= n)%Z ->
  Forall (fun cw : string * Z => (0 <= snd cw)%Z) ws ->
  let rest := fold_right Z.add 0%Z (snd <$> ws) in
  inject_Z rest <= t <= 100 ->
  let exact := t - ScorerSpec.Qsum ((fun cw => to_Q (capped n issues cw)) <$> ws) in
  exists t',
    fold_left (fun total cw => sub total (capped n issues cw)) ws (Finite t) = Finite t'
    /\ 0 <= t' <= 100
    /\ exact - inject_Z (Z.of_nat (length ws)) * (1 # 140737488355328) <= t'
       <= exact + inject_Z (Z.of_nat (length ws)) * (1 # 140737488355328).
Proof.
  intros Hn. revert t. induction ws as [| cw ws IH]; intros t Hw rest Ht exact.
  - subst exact rest. cbn [fmap list_fmap ScorerSpec.Qsum fold_right fold_left length] in *.
    change (inject_Z 0) with 0 in *. exists t. split; [reflexivity |].
    change (inject_Z (Z.of_nat 0)) with 0. lra.
  - apply Forall_cons in Hw as [Hw0 Hw]. cbn [fold_left].
    subst rest exact. cbn [fmap list_fmap fold_right ScorerSpec.Qsum length] in *.
    set (rest := fold_right Z.add 0%Z (snd <$> ws)) in *.
    assert (Hrest : (0 <= rest)%Z).
    { clear -Hw. subst rest. induction Hw; cbn [fmap list_fmap fold_right]; lia. }
    assert (Hr : 0 <= inject_Z rest)
      by (change 0 with (inject_Z 0); rewrite <- Zle_Qle; lia).
    rewrite inject_Z_plus in Ht.
    assert (Hcw : (snd cw <= 2 ^ 53)%Z).
    { assert (inject_Z (snd cw) <= inject_Z 100) by (change (inject_Z 100) with 100; lra).
      rewrite <- Zle_Qle in H. lia. }
    destruct (capped_within n issues cw Hn ltac:(lia)) as (c & Ec & Bc).
    change (inject_Z 0) with 0 in Bc. rewrite Ec. cbn [to_Q].
    assert (Hct : 0 <= c <= t /\ t <= 100).
    { set (w := inject_Z (snd cw)) in *. set (r := inject_Z rest) in *.
      clearbody w r. lra. }
    destruct (sub_near t c (proj1 Hct) (proj2 Hct)) as (d & Ed & Bd & Nd).
    rewrite Ed.
    assert (Hd : inject_Z rest <= d <= 100).
    { split; [| tauto].
      assert (R : inject_Z rest <= rnd (t + Qred (- c))).
      { assert (Hr100 : (rest <= 100)%Z).
        { rewrite Zle_Qle. change (inject_Z 100) with 100.
          set (w := inject_Z (snd cw)) in *. set (r := inject_Z rest) in *.
          assert (0 <= w) by (subst w; change 0 with (inject_Z 0); rewrite <- Zle_Qle; lia).
          clearbody w r. lra. }
        rewrite <- (rnd_int rest) at 1 by lia. apply rnd_le; [exact Hr |].
        rewrite Qred_correct.
        set (w := inject_Z (snd cw)) in *. set (r := inject_Z rest) in *.
        clearbody w r. lra. }
      rewrite sub_finite in Ed.
      destruct (of_Q_100_near (t + Qred (- c))) as (F & _).
      { rewrite Qred_correct. lra. }
      rewrite F in Ed. injection Ed as <-. exact R. }
    destruct (IH d Hw Hd) as (t' & Et & Bt & Nt).
    exists t'. split; [exact Et | split; [exact Bt |]].
    fold (ScorerSpec.Qsum ((fun cw => to_Q (capped n issues cw)) <$> ws)) in *.
    set (S := ScorerSpec.Qsum _) in *. clearbody S.
    rewrite Nat2Z.inj_succ. unfold Z.succ. rewrite inject_Z_plus.
    set (k := inject_Z (Z.of_nat (length ws))) in *. clearbody k.
    change (inject_Z 1) with 1. lra.
Qed.

Lemma clamp_value (t : Q) :
  0 <= t <= 100 -> exists v, clamp (Finite t) = Finite v /\ v == t.
Proof.
  intros [L U]. unfold clamp. rewrite of_Q_0, of_Q_100. unfold min, max.
  destruct (ltb (Finite t) (Finite 100)) eqn:E1;
    [apply ltb_finite in E1 | apply ltb_finite_false in E1].
  - destruct (ltb (Finite 0) (Finite t)) eqn:E2;
      [apply ltb_finite in E2 | apply ltb_finite_false in E2];
      eexists; (split; [reflexivity | lra]).
  - destruct (ltb (Finite 0) (Finite 100)) eqn:E2;
      [apply ltb_finite in E2 | apply ltb_finite_false in E2];
      eexists; (split; [reflexivity | lra]).
Qed.
End Scorer64Near.

(** ** The scorer: totals, growth of the issue list, labels *)

Module ScorerTotals.
Import Scorer ScorerSpec ScorerFacts ScorerOrder ScorerAppend.
Local Open Scope Q_scope.






(** X2.  The category scores add up to the overall score: the
    returned overall score and the returned category scores are finite
    numbers, and the difference between the overall score and the sum
    of the category scores is at most 0.1 (one rounding to one decimal,
    ten roundings to two decimals) and the double-precision rounding
    error of the 31 operations involved, which is below [10^-9]. *)
Theorem category_scores_add_up (issues : list Issue) (total_pages : Z) :
  let r := Scorer64.compute_health_score issues total_pages in
  exists (overall : Q) (scores : list Q),
    fst r = Float64.Finite overall
    /\ snd <$> snd r = Float64.Finite <$> scores
    /\ overall - (1 # 10) - (1 # 1000000000) <= Qsum scores
       <= overall + (1 # 10) + (1 # 1000000000).
Proof.
  intros r. subst r. rewrite Scorer64Facts.compute_health_score_unfold. cbn [fst snd].
  set (n := Z.max total_pages 1).
  assert (Hn : (1 <= n)%Z) by (unfold n; lia).
  assert (P : Forall (fun cw => exists c s,
                        Scorer64Spec.capped n issues cw = Float64.Finite c
                        /\ 0 <= c <= inject_Z (snd cw)
                        /\ snd (Scorer64Spec.category_score n issues cw) = Float64.Finite s
                        /\ inject_Z (snd cw) - c - (1 # 200) - (2 # 140737488355328) <= s
                           <= inject_Z (snd cw) - c + (1 # 200) + (2 # 140737488355328))
                Scorer64.SCORING_WEIGHTS).
  { eapply Forall_impl; [apply Scorer64Facts.weights_small |]. intros cw Hw. simpl in Hw.
    apply Scorer64Near.category_score_near; [exact Hn | lia]. }
  destruct (Scorer64Near.total_fold_near n issues Scorer64.SCORING_WEIGHTS 100 Hn)
    as (t & Et & Bt & Nt).
  { eapply Forall_impl; [apply Scorer64Facts.weights_small |].
    intros cw Hw. simpl in Hw. lia. }
  { vm_compute. split; discriminate. }
  assert (Et' : Scorer64Spec.raw_total n issues = Float64.Finite t).
  { rewrite <- Et. unfold Scorer64Spec.raw_total. now rewrite Scorer64Facts.of_Q_100. }
  rewrite Et'.
  destruct (Scorer64Near.clamp_value t Bt) as (v & Ev & Hv). rewrite Ev.
  destruct (Scorer64Near.round_near v 1 (1 # 20) ltac:(lra) (PyNumNear.round_1_near v))
    as (o & Eo & Bo & No).
  rewrite Eo. exists o.
  unfold Scorer64.SCORING_WEIGHTS in *.
  repeat (apply Forall_cons in P as [? P]). clear P.
  repeat match goal with
    | H : exists c s, _ |- _ =>
        let c := fresh "c" in let s := fresh "s" in
        let E := fresh "E" in let B := fresh "B" in
        let F := fresh "F" in let N := fresh "N" in
        destruct H as (c & s & E & B & F & N)
    end.
  cbn [fmap list_fmap Qsum fold_right fst snd length] in *.
  repeat match goal with
    | H : Scorer64Spec.capped _ _ _ = Float64.Finite _ |- _ => rewrite H in Nt; clear H
    end.
  cbn [Float64.to_Q] in Nt.
  repeat match goal with
    | H : snd (Scorer64Spec.category_score _ _ _) = Float64.Finite _ |- _ =>
        rewrite H; clear H
    end.
  eexists [_; _; _; _; _; _; _; _; _; _]. split; [reflexivity |].
  split; [reflexivity |].
  cbn [Qsum fold_right].
  change (inject_Z (Z.of_nat 10)) with 10 in Nt.
  repeat match goal with
    | H : context [inject_Z ?z] |- _ =>
        let q := eval vm_compute in (inject_Z z) in change (inject_Z z) with q in H
    end.
  lra.
Qed.




Lemma score_label_rank (s : Q) :
  label_rank (score_label s)
  = if Qle_bool 90 s then 3%nat else if Qle_bool 75 s then 2%nat
    else if Qle_bool 50 s then 1%nat else 0%nat.
Proof. unfold score_label. now repeat destruct (Qle_bool _ s). Qed.

Lemma score_label_mono (s1 s2 : Q) :
  s1 <= s2 -> (label_rank (score_label s1) <= label_rank (score_label s2))%nat.
Proof.
  intros L. rewrite !score_label_rank.
  repeat match goal with
    | |- context [Qle_bool ?a ?b] =>
        let E := fresh "E" in
        destruct (Qle_bool a b) eqn:E;
        [apply Qle_bool_iff in E
        | assert (~ a <= b) by (rewrite <- Qle_bool_iff; congruence); clear E]
    end; try lia; exfalso; lra.
Qed.

(** X4.  The label and the colour of a score always belong together
    (Excellent is green, Good yellow, Needs Work orange, Poor red), for
    every score, and a higher score never gets a worse label. *)
Theorem score_color_matches_label (s1 s2 : Q) :
  (score_label s1, score_color s1) ∈ label_colors
  /\ (s1 <= s2 -> (label_rank (score_label s1) <= label_rank (score_label s2))%nat).
Proof.
  split; [| apply score_label_mono].
  unfold score_label, score_color, label_colors.
  repeat destruct (Qle_bool _ s1); set_solver.
Qed.

Lemma score_color_matches_label_witness :
  (score_label 80, score_color 80) ∈ label_colors
  /\ (label_rank (score_label 80) <= label_rank (score_label 95))%nat.
Proof.
  destruct (score_color_matches_label 80 95) as [A B].
  split; [exact A | apply B; unfold Qle; simpl; lia].
Defined.


End ScorerTotals.

(** ** The status check of external links *)

Module FetcherStatus.
Import Fetcher FetcherSpec FetcherFacts.

Section facts.
Variable urljoin : string -> string -> string.
Variable session_head : string -> PyExc + Response.t.
Variable session_get_stream : string -> PyExc + Response.t.

Local Abbreviation check := (check urljoin session_head session_get_stream).
Local Abbreviation probe := (probe session_head session_get_stream).

Lemma check_bounded (fuel : nat) (current : string) (chain : list string) :
  let r := check fuel current chain in
  length (snd r) <= length chain + fuel
  /\ (length (snd r) = length chain + fuel -> fst r = 0%Z)
  /\ (snd r = chain \/ (chain ++ [current]) `prefix_of` snd r).
Proof.
  revert current chain.
  induction fuel as [| fuel IH]; intros current chain; simpl.
  { split; [lia | split; [reflexivity | now left]]. }
  destruct (probe current) as [exc | resp]; simpl.
  { split; [lia | split; [lia | now left]]. }
  destruct (_ || _); simpl; [| split; [lia | split; [lia | now left]]].
  destruct (decide _); simpl; [split; [lia | split; [lia | now left]] |].
  destruct (IH (urljoin current (Response.header_or_empty "location" resp))
              (chain ++ [current])) as (L & Z0 & P).
  rewrite length_app in L, Z0. simpl in L, Z0.
  split; [lia | split].
  - intros E. apply Z0. lia.
  - right. destruct P as [-> | P]; [reflexivity |].
    etransitivity; [| exact P]. now apply prefix_app_r.
Qed.

Lemma check_redirects (walk : nat -> string) (fuel i : nat) (chain : list string) :
  (forall j, i <= j < i + fuel ->
     probe_redirects_to session_head session_get_stream urljoin (walk j) (walk (S j))) ->
  check fuel (walk i) chain = (0%Z, chain ++ (walk <$> seq i fuel)).
Proof.
  revert i chain. induction fuel as [| fuel IH]; intros i chain H; simpl.
  { now rewrite app_nil_r. }
  destruct (H i ltac:(lia)) as (resp & Hp & Hs & Hl & Hn).
  rewrite Hp, (redirect_status session_head urljoin resp Hs).
  destruct (decide _) as [E | _]; [contradiction |].
  rewrite Hn, IH; [now rewrite <- app_assoc |].
  intros j Hj. apply H. lia.
Qed.

Lemma check_answer (current : string) (resp : Response.t) (fuel : nat)
    (chain : list string) :
  probe_answers session_head session_get_stream current resp ->
  check (S fuel) current chain = (Response.status_code resp, chain).
Proof.
  intros [Hp Hs]. simpl. rewrite Hp.
  destruct (_ || _) eqn:E; [| reflexivity].
  exfalso. apply Hs. apply orb_true_iff in E as [E | E].
  - unfold Response.is_redirect in E. apply andb_true_iff in E as [_ E].
    now apply bool_decide_eq_true in E.
  - now apply bool_decide_eq_true in E.
Qed.
End facts.

(** X6.  The status check of an external link never follows more than
    ten redirects: the redirect chain it returns has at most 10 entries
    and starts with the checked URL, and a chain of 10 entries always
    comes with status 0. *)
Theorem check_url_status_bounded
    (urljoin : string -> string -> string)
    (session_head session_get_stream : string -> PyExc + Response.t) (url : string) :
  let r := check_url_status urljoin session_head session_get_stream url in
  length (snd r) <= 10
  /\ (length (snd r) = 10 -> fst r = 0%Z)
  /\ (snd r = [] \/ head (snd r) = Some url).
Proof.
  intros r. subst r. unfold check_url_status.
  destruct (check_bounded urljoin session_head session_get_stream _MAX_REDIRECTS url [])
    as (L & Z0 & P).
  split; [exact L | split; [exact Z0 |]].
  destruct P as [P | [k P]]; [now left | right].
  rewrite P. reflexivity.
Qed.

(** X7.  The status check has no loop detection.  Along any sequence of
    URLs in which each of the first ten redirects to the next (the
    sequence may repeat URLs, as in A -> B -> A -> ...), it makes all ten
    passes and returns status 0 with the ten URLs as redirect chain. *)
Theorem check_url_status_follows_cycles
    (urljoin : string -> string -> string)
    (session_head session_get_stream : string -> PyExc + Response.t)
    (walk : nat -> string) :
  (forall i, i < 10 ->
     probe_redirects_to session_head session_get_stream urljoin (walk i) (walk (S i))) ->
  check_url_status urljoin session_head session_get_stream (walk 0)
  = (0%Z, walk <$> seq 0 10).
Proof.
  intros H. unfold check_url_status.
  rewrite (check_redirects urljoin session_head session_get_stream walk _MAX_REDIRECTS 0 []);
    [reflexivity |].
  intros j Hj. apply H. unfold _MAX_REDIRECTS in Hj. lia.
Qed.

Lemma check_url_status_follows_cycles_witness :
  check_url_status FetcherSamples.join_absolute (FetcherSamples.ping_pong "0")
    FetcherSamples.get_ok (FetcherSamples.cycle 0)
  = (0%Z, FetcherSamples.cycle <$> seq 0 10).
Proof.
  apply (check_url_status_follows_cycles FetcherSamples.join_absolute
           (FetcherSamples.ping_pong "0") FetcherSamples.get_ok FetcherSamples.cycle).
  intros i Hi.
  do 10 (destruct i as [| i];
         [eexists; repeat split; [set_solver | discriminate] |]).
  lia.
Defined.

End FetcherStatus.

(** ** The external link check *)

Module ExternalLinks.
Import Fetcher FetcherSpec Crawler.

Lemma update_link_url (m : gmap string (Z * list string)) (link : LinkData.t) :
  LinkData.url (update_link m link) = LinkData.url link.
Proof. unfold update_link. destruct (m !! _) as [[] |]; reflexivity. Qed.

Section facts.
Variable session_head : string -> PyExc + Response.t.
Variable session_get_stream : string -> PyExc + Response.t.
Variable urljoin : string -> string -> string.

Local Abbreviation status_of := (check_url_status urljoin session_head session_get_stream).
Local Abbreviation url_status_of := (url_status_of session_head session_get_stream urljoin).

Lemma url_status_fold (sampled : list string) (m : gmap string (Z * list string))
    (u : string) :
  fold_left (fun url_status url => <[url := status_of url]> url_status) sampled m !! u
  = if decide (u ∈ sampled) then Some (status_of u) else m !! u.
Proof.
  revert m. induction sampled as [| a sampled IH]; intros m; simpl.
  { destruct (decide (u ∈ [])) as [I | _]; [set_solver | reflexivity]. }
  rewrite IH.
  destruct (decide (u ∈ sampled)) as [I | I].
  - rewrite decide_True by set_solver. reflexivity.
  - destruct (decide (u = a)) as [-> | N].
    + rewrite decide_True by set_solver. apply lookup_insert_eq.
    + rewrite decide_False by set_solver. now apply lookup_insert_ne.
Qed.

Lemma url_status_lookup (sampled : list string) (u : string) :
  url_status_of sampled !! u
  = if decide (u ∈ sampled) then Some (status_of u) else None.
Proof. unfold Crawler.url_status_of. now rewrite url_status_fold, lookup_empty. Qed.

Lemma update_link_sampled (sampled : list string) (link : LinkData.t) :
  LinkData.url link ∈ sampled ->
  update_link (url_status_of sampled) link
  = LinkData.mk (LinkData.url link) (LinkData.anchor_text link) (LinkData.rel link)
      (LinkData.nofollow link) (fst (status_of (LinkData.url link)))
      (bool_decide (400 <= fst (status_of (LinkData.url link)) < 600)%Z
       || bool_decide (fst (status_of (LinkData.url link)) = 0%Z))
      (snd (status_of (LinkData.url link))).
Proof.
  intros I. unfold update_link. rewrite url_status_lookup, decide_True by assumption.
  now destruct (status_of _).
Qed.

Lemma update_link_other (sampled : list string) (link : LinkData.t) :
  LinkData.url link ∉ sampled -> update_link (url_status_of sampled) link = link.
Proof.
  intros I. unfold update_link. now rewrite url_status_lookup, decide_False by assumption.
Qed.
End facts.

Lemma checked_link
    (session_head session_get_stream : string -> PyExc + Response.t)
    (urljoin : string -> string -> string)
    (listed : list string) (pages pages' : gmap string PageData.t)
    (config : AuditConfig.t) (k : string) (page' : PageData.t) (link' : LinkData.t) :
  _check_external_links session_head session_get_stream urljoin listed pages config
  = inr pages' ->
  pages' !! k = Some page' ->
  link' ∈ PageData.external_links page' ->
  exists link,
    link' = update_link
              (url_status_of session_head session_get_stream urljoin (take 500 listed))
              link.
Proof.
  unfold _check_external_links. destruct (_ <=? 0)%Z; [discriminate |].
  intros [= <-] Hk Hl.
  rewrite lookup_fmap in Hk. destruct (pages !! k) as [page |]; [| discriminate].
  injection Hk as <-. unfold update_page in Hl.
  destruct page. simpl in Hl.
  apply list_elem_of_fmap in Hl as (link & -> & _). eauto.
Qed.

(** X8.  After the external link check, every external link whose URL
    is among the first 500 listed carries the result of the status check
    of its URL: its status code and redirect chain, and [is_broken]
    exactly when that status is 0 or in 400..599.  This holds on every
    page that links to the URL, so two links to one URL always agree. *)
Theorem external_links_backfilled
    (session_head session_get_stream : string -> PyExc + Response.t)
    (urljoin : string -> string -> string)
    (listed : list string) (pages pages' : gmap string PageData.t)
    (config : AuditConfig.t) (k : string) (page' : PageData.t) (link' : LinkData.t) :
  _check_external_links session_head session_get_stream urljoin listed pages config
  = inr pages' ->
  pages' !! k = Some page' ->
  link' ∈ PageData.external_links page' ->
  LinkData.url link' ∈ take 500 listed ->
  let r := check_url_status urljoin session_head session_get_stream (LinkData.url link') in
  LinkData.status_code link' = fst r
  /\ LinkData.redirect_chain link' = snd r
  /\ (LinkData.is_broken link' = true <-> (400 <= fst r < 600)%Z \/ fst r = 0%Z).
Proof.
  intros H Hk Hl Hs.
  destruct (checked_link _ _ _ _ _ _ _ _ _ _ H Hk Hl) as [link ->].
  rewrite update_link_url in Hs. rewrite update_link_url.
  rewrite (update_link_sampled session_head session_get_stream urljoin) by assumption.
  simpl.
  split; [reflexivity | split; [reflexivity |]].
  rewrite orb_true_iff, !bool_decide_eq_true. reflexivity.
Qed.

Lemma external_links_backfilled_witness :
  let r :=
    check_url_status FetcherSamples.join_absolute LinkSamples.session_head
      FetcherSamples.get_ok LinkSamples.dead in
  LinkData.status_code LinkSamples.dead_link = fst r
  /\ LinkData.redirect_chain LinkSamples.dead_link = snd r
  /\ (LinkData.is_broken LinkSamples.dead_link = true
      <-> (400 <= fst r < 600)%Z \/ fst r = 0%Z).
Proof.
  apply (external_links_backfilled LinkSamples.session_head FetcherSamples.get_ok
           FetcherSamples.join_absolute [LinkSamples.dead; LinkSamples.alive]
           LinkSamples.pages LinkSamples.checked_pages (CrawlerSamples.config 100)
           "http://h/" LinkSamples.checked_page LinkSamples.dead_link).
  - reflexivity.
  - vm_compute. reflexivity.
  - vm_compute. set_solver.
  - vm_compute. set_solver.
Defined.

(** X9.  A link to a server that answers the status check at the first
    attempt, if need be by GET after HEAD was refused with 405, gets
    the status of that answer and an empty redirect chain; it is marked
    broken only if that status is 0 or in 400..599. *)
Theorem answered_link_status
    (session_head session_get_stream : string -> PyExc + Response.t)
    (urljoin : string -> string -> string)
    (listed : list string) (pages pages' : gmap string PageData.t)
    (config : AuditConfig.t) (k : string) (page' : PageData.t) (link' : LinkData.t)
    (resp : Response.t) :
  _check_external_links session_head session_get_stream urljoin listed pages config
  = inr pages' ->
  pages' !! k = Some page' ->
  link' ∈ PageData.external_links page' ->
  LinkData.url link' ∈ take 500 listed ->
  probe_answers session_head session_get_stream (LinkData.url link') resp ->
  LinkData.status_code link' = Response.status_code resp
  /\ LinkData.redirect_chain link' = []
  /\ (LinkData.is_broken link' = true
      <-> (400 <= Response.status_code resp < 600)%Z \/ Response.status_code resp = 0%Z).
Proof.
  intros H Hk Hl Hs Ha.
  destruct (checked_link _ _ _ _ _ _ _ _ _ _ H Hk Hl) as [link ->].
  rewrite update_link_url in Hs, Ha.
  rewrite (update_link_sampled session_head session_get_stream urljoin) by assumption.
  unfold check_url_status, _MAX_REDIRECTS.
  rewrite (FetcherStatus.check_answer urljoin session_head session_get_stream
             _ resp 9 [] Ha).
  simpl.
  split; [reflexivity | split; [reflexivity |]].
  rewrite orb_true_iff, !bool_decide_eq_true. reflexivity.
Qed.

Lemma answered_link_status_witness :
  LinkData.status_code LinkSamples.alive_link = 200%Z
  /\ LinkData.redirect_chain LinkSamples.alive_link = []
  /\ (LinkData.is_broken LinkSamples.alive_link = true
      <-> (400 <= 200 < 600)%Z \/ 200%Z = 0%Z).
Proof.
  apply (answered_link_status LinkSamples.session_head FetcherSamples.get_ok
           FetcherSamples.join_absolute [LinkSamples.dead; LinkSamples.alive]
           LinkSamples.pages LinkSamples.checked_pages (CrawlerSamples.config 100)
           "http://h/" LinkSamples.checked_page LinkSamples.alive_link
           (Response.mk 200 LinkSamples.alive [("Content-Type", "text/html")] "" "")).
  - reflexivity.
  - vm_compute. reflexivity.
  - vm_compute. set_solver.
  - vm_compute. set_solver.
  - split; [reflexivity | vm_compute; set_solver].
Defined.

(** X10.  The external link check changes nothing but the three result
    fields of the checked links: the page map keeps its keys, every page
    keeps all its other fields and the number and order of its external
    links, every link keeps its URL, anchor text and [rel] data, and a
    link whose URL is not among the first 500 listed is left exactly as
    it was (never marked broken). *)
Theorem external_check_frame
    (session_head session_get_stream : string -> PyExc + Response.t)
    (urljoin : string -> string -> string)
    (listed : list string) (pages pages' : gmap string PageData.t)
    (config : AuditConfig.t) :
  _check_external_links session_head session_get_stream urljoin listed pages config
  = inr pages' ->
  dom pages' = dom pages
  /\ (forall k page', pages' !! k = Some page' ->
        exists page,
          pages !! k = Some page
          /\ PageData.set_external_links (PageData.external_links page) page' = page
          /\ Forall2
               (fun link link' =>
                  LinkData.url link' = LinkData.url link
                  /\ LinkData.anchor_text link' = LinkData.anchor_text link
                  /\ LinkData.rel link' = LinkData.rel link
                  /\ LinkData.nofollow link' = LinkData.nofollow link
                  /\ (LinkData.url link ∉ take 500 listed -> link' = link))
               (PageData.external_links page) (PageData.external_links page')).
Proof.
  unfold _check_external_links. destruct (_ <=? 0)%Z; [discriminate |].
  intros [= <-]. split; [apply dom_fmap_L |].
  intros k page' Hk. rewrite lookup_fmap in Hk.
  destruct (pages !! k) as [page |]; [| discriminate].
  injection Hk as <-. exists page. split; [reflexivity |].
  unfold update_page. destruct page. simpl. split; [reflexivity |].
  apply Forall2_fmap_r, Forall_Forall2_diag, Forall_forall. intros link _.
  split; [apply update_link_url |].
  repeat split;
    try (unfold update_link; destruct (_ !! _) as [[] |]; reflexivity).
  apply update_link_other.
Qed.

Lemma external_check_frame_witness :
  dom LinkSamples.checked_pages = dom LinkSamples.pages
  /\ (forall k page', LinkSamples.checked_pages !! k = Some page' ->
        exists page,
          LinkSamples.pages !! k = Some page
          /\ PageData.set_external_links (PageData.external_links page) page' = page
          /\ Forall2
               (fun link link' =>
                  LinkData.url link' = LinkData.url link
                  /\ LinkData.anchor_text link' = LinkData.anchor_text link
                  /\ LinkData.rel link' = LinkData.rel link
                  /\ LinkData.nofollow link' = LinkData.nofollow link
                  /\ (LinkData.url link ∉ take 500 [LinkSamples.dead; LinkSamples.alive] ->
                      link' = link))
               (PageData.external_links page) (PageData.external_links page')).
Proof.
  apply (external_check_frame LinkSamples.session_head FetcherSamples.get_ok
           FetcherSamples.join_absolute [LinkSamples.dead; LinkSamples.alive]
           LinkSamples.pages LinkSamples.checked_pages (CrawlerSamples.config 100)).
  reflexivity.
Defined.

End ExternalLinks.

(** ** What a fetch records *)

Module FetcherRecords.
Import Fetcher FetcherSpec FetcherFacts.

Section facts.
Variable session_get : string -> PyExc + Response.t.
Variable urljoin : string -> string -> string.

Local Abbreviation follow := (follow session_get urljoin).

Lemma not_redirect (resp : Response.t) :
  Response.status_code resp ∉ Response.REDIRECT_STATI ->
  Response.is_redirect resp
  || bool_decide (Response.status_code resp ∈ [301; 302; 303; 307; 308]%Z) = false.
Proof.
  intros H. apply orb_false_iff. split.
  - unfold Response.is_redirect. apply andb_false_iff. right.
    now apply bool_decide_eq_false.
  - now apply bool_decide_eq_false.
Qed.

Lemma follow_answer (fuel : nat) (current : string) (seen : gset string)
    (page : PageData.t) (requested : list string) (resp : Response.t) :
  session_get current = inr resp ->
  Response.status_code resp ∉ Response.REDIRECT_STATI ->
  follow (S fuel) current seen page requested = (Some resp, page, requested ++ [current]).
Proof. intros E H. simpl. now rewrite E, (not_redirect resp H). Qed.

(** The loop invariant behind a failed request: the requests made so
    far were all answered, and they are the redirect chain. *)
Lemma follow_failure (fuel : nat) (current : string) (seen : gset string)
    (page : PageData.t) (requested : list string) (u : string) (exc : PyExc) :
  (forall v, last requested = Some v -> exists r, session_get v = inr r) ->
  PageData.redirect_chain page = requested ->
  let r := follow fuel current seen page requested in
  last (snd r) = Some u -> session_get u = inl exc ->
  fst (fst r) = None
  /\ PageData.crawl_error (snd (fst r)) = Some (exc_str exc)
  /\ PageData.status_code (snd (fst r)) = 0%Z
  /\ PageData.final_url (snd (fst r)) = PageData.final_url page
  /\ snd r = PageData.redirect_chain (snd (fst r)) ++ [u].
Proof.
  revert current seen page requested.
  induction fuel as [| fuel IH]; intros current seen page requested Hreq Hchain; simpl.
  { intros Hl He. destruct (Hreq u Hl) as [r Hr]. congruence. }
  destruct (session_get current) as [exc0 | resp] eqn:E; simpl.
  { rewrite last_snoc. intros [= <-] He.
    assert (exc0 = exc) as -> by congruence.
    destruct page. simpl in *. now rewrite Hchain. }
  destruct (_ || _); simpl;
    [| rewrite last_snoc; intros [= <-] He; congruence].
  destruct (decide _); simpl; [rewrite last_snoc; intros [= <-] He; congruence |].
  destruct (_ || _); simpl; [rewrite last_snoc; intros [= <-] He; congruence |].
  intros Hl He.
  specialize (IH (urljoin current (Response.header_or_empty "location" resp))
                (seen ∪ {[current]})
                (PageData.set_redirect_chain (PageData.redirect_chain page ++ [current]) page)
                (requested ++ [current])).
  destruct IH as (R & C & S0 & F & Q); try assumption.
  - intros v. rewrite last_snoc. intros [= <-]. eauto.
  - destruct page. simpl in *. now rewrite Hchain.
  - repeat split; try assumption. rewrite F. now destruct page.
Qed.
End facts.

(** X11.  When a request of a fetch raises, whichever exception it is,
    the page records [status_code = 0] and the exception's own message
    as [crawl_error] (with no prefix such as "Connection Error: "), keeps
    the fetched URL as [final_url], and its redirect chain is the list
    of the URLs requested before the failing one. *)
Theorem request_failure_recorded
    (session_get : string -> PyExc + Response.t)
    (urljoin : string -> string -> string) (repr : string -> string)
    (url : string) (depth : Z) (head_only : bool) (u : string) (exc : PyExc) :
  let r := fetch_page session_get urljoin repr url depth head_only in
  last (snd r) = Some u ->
  session_get u = inl exc ->
  PageData.crawl_error (fst r) = Some (exc_str exc)
  /\ PageData.status_code (fst r) = 0%Z
  /\ PageData.final_url (fst r) = url
  /\ snd r = PageData.redirect_chain (fst r) ++ [u].
Proof.
  intros r. subst r. unfold fetch_page, _follow_redirects.
  pose proof (follow_failure session_get urljoin _MAX_REDIRECTS url ∅
                (PageData.new url url depth) [] u exc) as F.
  destruct (Fetcher.follow _ _ _ _ _ _ _) as [[resp page] requested].
  simpl in F. intros Hl He.
  assert (Hl' : last requested = Some u) by (now destruct resp).
  destruct F as (R & C & S0 & F & Q); try assumption; try reflexivity.
  { intros v [=]. }
  subst resp. simpl. auto.
Qed.

Lemma request_failure_recorded_witness :
  let r :=
    fetch_page (FetcherSamples.ping_pong "0") FetcherSamples.join_absolute
      FetcherSamples.quote "http://nowhere.test/" 0 false in
  PageData.crawl_error (fst r) = Some "unknown host"
  /\ PageData.status_code (fst r) = 0%Z
  /\ PageData.final_url (fst r) = "http://nowhere.test/"
  /\ snd r = PageData.redirect_chain (fst r) ++ ["http://nowhere.test/"].
Proof.
  apply (request_failure_recorded (FetcherSamples.ping_pong "0")
           FetcherSamples.join_absolute FetcherSamples.quote "http://nowhere.test/"
           0 false "http://nowhere.test/" (ConnectionError "unknown host"));
    reflexivity.
Defined.

(** X12.  For a URL that is answered without a redirect, the fetched
    page is indexable exactly when the response's [X-Robots-Tag] header
    does not contain "noindex" in any letter case; this also holds when
    reading the response's [Content-Length] fails afterwards. *)
Theorem x_robots_tag_decides_indexable
    (session_get : string -> PyExc + Response.t)
    (urljoin : string -> string -> string) (repr : string -> string)
    (url : string) (depth : Z) (head_only : bool) (resp : Response.t) :
  session_get url = inr resp ->
  Response.status_code resp ∉ Response.REDIRECT_STATI ->
  PageData.is_indexable (fst (fetch_page session_get urljoin repr url depth head_only))
  = negb (PyStr.contains "noindex"
            (PyStr.lower (Response.header_or_empty "x-robots-tag" resp))).
Proof.
  intros E H. unfold fetch_page, _follow_redirects, _MAX_REDIRECTS.
  rewrite (follow_answer session_get urljoin 9 url ∅ _ [] resp E H).
  unfold record_response, handle. cbn [fst].
  destruct (decide (Response.header_or_empty "x-robots-tag" resp = "")) as [-> | _].
  - repeat match goal with
      | |- context [if ?b then _ else _] => destruct b
      | |- context [match ?o with Some _ => _ | None => _ end] => destruct o
      end; reflexivity.
  - destruct (PyStr.contains "noindex" _);
      repeat match goal with
        | |- context [if ?b then _ else _] => destruct b
        | |- context [match ?o with Some _ => _ | None => _ end] => destruct o
        end; reflexivity.
Qed.

Lemma x_robots_tag_decides_indexable_witness :
  PageData.is_indexable
    (fst (fetch_page FetcherSamples.hidden FetcherSamples.join_absolute
            FetcherSamples.quote "http://site.test/" 0 false))
  = negb (PyStr.contains "noindex" (PyStr.lower "NoIndex, nofollow")).
Proof.
  apply (x_robots_tag_decides_indexable FetcherSamples.hidden
           FetcherSamples.join_absolute FetcherSamples.quote "http://site.test/" 0 false
           (Response.mk 200 "http://site.test/"
              [("Content-Type", "text/html"); ("X-Robots-Tag", "NoIndex, nofollow")]
              "<html></html>" "<html></html>")).
  - reflexivity.
  - vm_compute. set_solver.
Defined.

End FetcherRecords.

(** ** The robots file: what parsing keeps, what fetching reports *)

Module RobotsFrame.
Import Robots RobotsSpec RobotsFacts.
Local Open Scope Z_scope.

Lemma extends_refl (d : RobotsData) : extends d d.
Proof. unfold extends. repeat split; reflexivity. Qed.

Lemma extends_trans (d1 d2 d3 : RobotsData) :
  extends d1 d2 -> extends d2 d3 -> extends d1 d3.
Proof.
  unfold extends.
  intros (U1 & E1 & S1 & T1 & M1 & D1 & A1 & P1) (U2 & E2 & S2 & T2 & M2 & D2 & A2 & P2).
  repeat split; try congruence; etransitivity; eassumption.
Qed.

Section parser.
Variable pyfloat : string -> option Q.
Variable repr : string -> string.

Lemma parse_line_extends (st : ParseState) (l : string) :
  extends (data st) (data (parse_line pyfloat repr st l))
  /\ (length (parse_errors (data (parse_line pyfloat repr st l)))
      <= S (length (parse_errors (data st))))%nat.
Proof.
  unfold parse_line. destruct st as [ags blk d]. simpl.
  repeat match goal with
    | |- context [if ?b then _ else _] => destruct b; simpl
    | |- context [let '(_, _) := ?p in _] => destruct p
    | |- context [match pyfloat ?v with _ => _ end] => destruct (pyfloat v); simpl
    end;
    (split; [| try rewrite length_app; simpl; lia]);
    destruct d; unfold extends; simpl;
    repeat split; try reflexivity; now apply prefix_app_r.
Qed.

Lemma parse_lines_extends (st : ParseState) (ls : list string) :
  extends (data st) (data (parse_lines pyfloat repr st ls))
  /\ (length (parse_errors (data (parse_lines pyfloat repr st ls)))
      <= length (parse_errors (data st)) + length ls)%nat.
Proof.
  revert st. induction ls as [| l ls IH]; intros st; simpl.
  { split; [apply extends_refl | lia]. }
  destruct (parse_line_extends st l) as [E1 L1].
  destruct (IH (parse_line pyfloat repr st l)) as [E2 L2].
  split; [eapply extends_trans; eassumption | lia].
Qed.

Lemma parse_line_skipped (st : ParseState) (l : string) :
  skipped l -> data (parse_line pyfloat repr st l) = data st.
Proof.
  unfold skipped, parse_line. intros H.
  assert (E : bool_decide (PyStr.strip l = "") || PyStr.startswith (PyStr.strip l) "#"
              = true).
  { apply orb_true_iff. destruct H as [H | H]; [left | right; exact H].
    now apply bool_decide_eq_true. }
  rewrite E. now destruct (_ && _).
Qed.

Lemma parse_lines_skipped (st : ParseState) (ls : list string) :
  Forall skipped ls -> data (parse_lines pyfloat repr st ls) = data st.
Proof.
  intros H. revert st. induction H as [| l ls Hl _ IH]; intros st; [reflexivity |].
  simpl. rewrite IH. now apply parse_line_skipped.
Qed.
End parser.

Lemma parse_robots_only_appends_core
    (pyfloat : string -> option Q) (repr : string -> string) (d : RobotsData) :
  extends d (_parse_robots pyfloat repr d).
Proof.
  unfold _parse_robots.
  apply (parse_lines_extends pyfloat repr (mkParseState [] false d)).
Qed.

(** X13.  Parsing a robots.txt only adds to the record: the URL, the
    [exists] flag, the status code and the raw text are unchanged, the
    lists of sitemaps, Disallow rules, Allow rules and parse errors keep
    what they held and grow at their end, and at most one parse error is
    recorded per line of the file. *)
Theorem parse_robots_only_appends
    (pyfloat : string -> option Q) (repr : string -> string) (d : RobotsData) :
  let d' := _parse_robots pyfloat repr d in
  extends d d'
  /\ (length (parse_errors d')
      <= length (parse_errors d) + length (PyStr.splitlines (raw_text d)))%nat.
Proof.
  intros d'. subst d'. unfold _parse_robots.
  apply (parse_lines_extends pyfloat repr (mkParseState [] false d)).
Qed.

(** X14.  A robots.txt that holds only blank lines and comment lines
    yields no rule, no sitemap, no crawl delay and no parse error:
    parsing it returns the record as it was. *)
Theorem comments_only_robots
    (pyfloat : string -> option Q) (repr : string -> string) (d : RobotsData) :
  Forall skipped (PyStr.splitlines (raw_text d)) ->
  _parse_robots pyfloat repr d = d.
Proof.
  intros H. unfold _parse_robots.
  now rewrite (parse_lines_skipped pyfloat repr (mkParseState [] false d)).
Qed.

Lemma comments_only_robots_witness :
  _parse_robots RobotsSamples.no_float RobotsSamples.quote RobotsSamples.comments_data
  = RobotsSamples.comments_data.
Proof.
  apply (comments_only_robots RobotsSamples.no_float RobotsSamples.quote
           RobotsSamples.comments_data).
  vm_compute.
  repeat (constructor; [first [left; reflexivity | right; reflexivity] |]).
  constructor.
Defined.

End RobotsFrame.

(** ** The robots gate: how rules combine *)

Module RobotsRules.
Import Robots RobotsSpec RobotsFacts.
Local Open Scope Z_scope.

Lemma longest_app (l1 l2 : list string) :
  longest (l1 ++ l2) = Z.max (longest l1) (longest l2).
Proof.
  pose proof (longest_ge_m1 l2) as G. unfold longest in *. rewrite fmap_app.
  set (f := fun rp : string => Z.of_nat (String.length rp)) in *.
  induction (f <$> l1) as [| a m IH]; simpl; lia.
Qed.

Lemma matching_app (b : bool) (ua p : string) (r1 r2 : list Rule) :
  matching b ua p (r1 ++ r2) = matching b ua p r1 ++ matching b ua p r2.
Proof. unfold matching. now rewrite filter_app, fmap_app, filter_app. Qed.

Lemma matching_empty_paths (ua p : string) (rules : list Rule) :
  Forall (fun r => relevant ua r -> path r = "") rules ->
  matching true ua p rules = [].
Proof.
  intros H. unfold matching. apply ListFacts.filter_none.
  intros rp Hrp [_ Hne].
  apply list_elem_of_fmap in Hrp as (r & -> & Hr).
  apply list_elem_of_filter in Hr as [Hrel Hin].
  rewrite Forall_forall in H. apply (Hne eq_refl). now apply H.
Qed.

(** X15.  Rules only act in their own direction.  Adding Allow rules
    to a robots record never blocks a URL that was allowed, and adding
    Disallow rules never opens a URL that was blocked. *)
Theorem rules_act_one_way
    (urlparse : string -> option ParseResult)
    (url : string) (rd : RobotsData) (ua : string) (extra : list Rule) :
  (is_url_allowed urlparse url rd ua = Some true ->
   is_url_allowed urlparse url (add_allow extra rd) ua = Some true)
  /\ (is_url_allowed urlparse url rd ua = Some false ->
      is_url_allowed urlparse url (add_disallow extra rd) ua = Some false).
Proof.
  destruct (robots_exists rd) eqn:E.
  2: { unfold is_url_allowed. simpl. rewrite E. simpl. split; [done | discriminate]. }
  destruct (urlparse url) as [parsed |] eqn:P.
  2: { unfold is_url_allowed. simpl. rewrite E, P. simpl. split; discriminate. }
  rewrite (is_url_allowed_longest urlparse url rd ua parsed E P).
  rewrite (is_url_allowed_longest urlparse url (add_allow extra rd) ua parsed E P).
  rewrite (is_url_allowed_longest urlparse url (add_disallow extra rd) ua parsed E P).
  simpl. rewrite !matching_app, !longest_app.
  pose proof (longest_ge_m1 (matching false ua (path_of parsed) extra)) as G1.
  pose proof (longest_ge_m1 (matching true ua (path_of parsed) extra)) as G2.
  split; intros [= H]; f_equal;
    repeat match goal with
      | H : context [(?a <? ?b)] |- _ => destruct (Z.ltb_spec a b)
      | |- context [(?a <? ?b)] => destruct (Z.ltb_spec a b)
      | H : context [(?a <=? ?b)] |- _ => destruct (Z.leb_spec a b)
      | |- context [(?a <=? ?b)] => destruct (Z.leb_spec a b)
      end; try reflexivity; try discriminate; lia.
Qed.

Lemma rules_act_one_way_witness :
  is_url_allowed UrlSamples.urlparse "http://example.com/public"
    (add_allow [mkRule "*" "/pub"] RobotsSamples.private_public) "SiteAuditBot/1.0"
  = Some true
  /\ is_url_allowed UrlSamples.urlparse "http://example.com/private/secret"
       (add_disallow [mkRule "*" "/"] RobotsSamples.private_public) "SiteAuditBot/1.0"
     = Some false.
Proof.
  split.
  - apply (proj1 (rules_act_one_way UrlSamples.urlparse "http://example.com/public"
                    RobotsSamples.private_public "SiteAuditBot/1.0" [mkRule "*" "/pub"])).
    reflexivity.
  - apply (proj2 (rules_act_one_way UrlSamples.urlparse
                    "http://example.com/private/secret"
                    RobotsSamples.private_public "SiteAuditBot/1.0" [mkRule "*" "/"])).
    reflexivity.
Defined.

(** X16.  [Disallow:] with an empty path blocks nothing: when every
    Disallow rule that applies to the user agent has an empty path, every
    URL is allowed, whatever the Allow rules are. *)
Theorem empty_disallow_allows_all
    (urlparse : string -> option ParseResult)
    (url : string) (rd : RobotsData) (ua : string) (parsed : ParseResult) :
  urlparse url = Some parsed ->
  Forall (fun r => relevant ua r -> path r = "") (disallow_rules rd) ->
  is_url_allowed urlparse url rd ua = Some true.
Proof.
  intros P H. destruct (robots_exists rd) eqn:E.
  - rewrite (is_url_allowed_longest urlparse url rd ua parsed E P).
    now rewrite matching_empty_paths.
  - unfold is_url_allowed. now rewrite E.
Qed.

Lemma empty_disallow_allows_all_witness :
  is_url_allowed UrlSamples.urlparse "http://example.com/private/secret"
    RobotsSamples.allow_all "SiteAuditBot/1.0" = Some true.
Proof.
  apply (empty_disallow_allows_all UrlSamples.urlparse "http://example.com/private/secret"
           RobotsSamples.allow_all "SiteAuditBot/1.0"
           (mkParseResult "http" "example.com" "/private/secret" "" "" "")).
  - reflexivity.
  - repeat constructor.
Defined.

End RobotsRules.

(** ** Fetching the robots file *)

Module RobotsFetched.
Import Robots RobotsSpec Requests RobotsFetch.

(** X17.  The robots gate fails open.  Whatever
    [fetch_and_parse_robots] returns for a robots.txt that was not
    answered with status 200 (a 404, a server error, a failed request),
    the record says that the file does not exist, holds no rule, and
    allows every URL for every user agent; and the record says that the
    file exists only when the status was 200. *)
Theorem robots_gate_fails_open
    (pyfloat : string -> option Q) (repr : string -> string)
    (urlparse : string -> option ParseResult) (urlparse_error : string -> string)
    (session_get_follow : string -> reply) (domain_url : string) (d : RobotsData) :
  fetch_and_parse_robots pyfloat repr urlparse urlparse_error session_get_follow domain_url
  = inr d ->
  (robots_exists d = true <-> robots_status_code d = 200%Z)
  /\ (robots_status_code d <> 200%Z ->
      disallow_rules d = [] /\ allow_rules d = []
      /\ forall url ua, is_url_allowed urlparse url d ua = Some true).
Proof.
  unfold fetch_and_parse_robots.
  destruct (_build_robots_url urlparse domain_url) as [robots_url |]; [| discriminate].
  destruct (session_get_follow robots_url) as [resp | msg | exc]; [| | discriminate].
  - destruct (decide (Response.status_code resp = 200%Z)) as [E | N].
    + intros [= <-].
      destruct (RobotsFrame.parse_robots_only_appends_core pyfloat repr
                  (mkRobotsData robots_url true (Response.status_code resp)
                     (Response.text resp) [] [] [] None []))
        as (_ & Ex & St & _).
      simpl in Ex, St. rewrite Ex, St. split; [tauto | contradiction].
    + destruct (decide _); intros [= <-]; simpl;
        (split; [split; [discriminate | contradiction] | now intros _]).
  - intros [= <-]. simpl. split; [split; discriminate | now intros _].
Qed.

Lemma robots_gate_fails_open_witness :
  (robots_exists RobotsFetchSamples.fetched_data = true
   <-> robots_status_code RobotsFetchSamples.fetched_data = 200%Z)
  /\ (robots_status_code RobotsFetchSamples.fetched_data <> 200%Z ->
      disallow_rules RobotsFetchSamples.fetched_data = []
      /\ allow_rules RobotsFetchSamples.fetched_data = []
      /\ forall url ua,
           is_url_allowed UrlSamples.urlparse url RobotsFetchSamples.fetched_data ua
           = Some true).
Proof.
  apply (robots_gate_fails_open RobotsSamples.no_float RobotsSamples.quote
           UrlSamples.urlparse CrawlerSamples.no_message RobotsFetchSamples.unavailable
           "http://h/" RobotsFetchSamples.fetched_data).
  reflexivity.
Defined.

End RobotsFetched.

(** ** The content step: the shape of the extracted text *)

Module ParserText.
Import PyStr Parser ParserSpec ParserFacts.

Lemma lstrip_head (s : string) :
  match lstrip s with
  | EmptyString => True
  | String c _ => is_space c = false
  end.
Proof.
  induction s as [| c s IH]; simpl; [exact I |].
  destruct (is_space c) eqn:E; [exact IH | exact E].
Qed.

Lemma rstrip_keeps_head (c : ascii) (t : string) :
  is_space c = false -> exists r, rstrip (String c t) = String c r.
Proof.
  intros E. simpl. destruct (rstrip t); [rewrite E |]; eauto.
Qed.

Lemma rstrip_rstrip (s : string) : rstrip (rstrip s) = rstrip s.
Proof.
  induction s as [| c s IH]; simpl; [reflexivity |].
  destruct (rstrip s) as [| c' r] eqn:R.
  - destruct (is_space c) eqn:E; simpl; [reflexivity | now rewrite E].
  - change (rstrip (String c (String c' r))) with
      (match rstrip (String c' r) with
       | EmptyString => if is_space c then EmptyString else String c EmptyString
       | String a b => String c (String a b)
       end).
    now rewrite IH.
Qed.

(** A stripped string is empty or starts with a character that is not
    whitespace. *)
Lemma strip_head (s : string) :
  match strip s with
  | EmptyString => True
  | String c _ => is_space c = false
  end.
Proof.
  unfold strip. pose proof (lstrip_head s) as H.
  destruct (lstrip s) as [| c t]; [exact I |].
  destruct (rstrip_keeps_head c t H) as [r ->]. exact H.
Qed.

Lemma strip_strip (s : string) : strip (strip s) = strip s.
Proof.
  pose proof (strip_head s) as H. unfold strip in *.
  destruct (rstrip (lstrip s)) as [| c r] eqn:E; [reflexivity |].
  change (lstrip (String c r)) with (if is_space c then lstrip r else String c r).
  rewrite H, <- E. apply rstrip_rstrip.
Qed.

Lemma split_from_nonempty (cur s : string) :
  cur <> EmptyString -> split_from cur s <> [].
Proof.
  revert cur. induction s as [| c s IH]; intros cur H; simpl.
  - now destruct (decide _).
  - destruct (is_space c).
    + now destruct (decide _).
    + apply IH. now destruct cur.
Qed.

Lemma split_stripped (s : string) : strip s <> "" -> split (strip s) <> [].
Proof.
  pose proof (strip_head s) as H. destruct (strip s) as [| c r]; [done |].
  intros _. unfold split. simpl. rewrite H. now apply split_from_nonempty.
Qed.

Section content.
Variable Soup : Type.
Variable visible_text : Soup -> string.
Variable md5_hexdigest : string -> string.

Local Abbreviation parse := (_parse_content Soup visible_text md5_hexdigest).

Lemma parse_fields (soup : Soup) (page : PageData.t) :
  let text := strip (sub_ws (visible_text soup)) in
  PageData.text_content (parse soup page) = text
  /\ PageData.word_count (parse soup page)
     = (if decide (text = "") then 0%Z else Z.of_nat (length (split text)))
  /\ PageData.content_hash (parse soup page) = md5_hexdigest (lower text).
Proof. unfold _parse_content. now destruct page. Qed.
End content.

(** X18.  The text that the content step stores is in normal form: its
    only whitespace characters are single spaces between words, it has
    no leading or trailing whitespace (stripping or collapsing it again
    changes nothing), and the stored word count is 0 exactly when the
    text is empty.  The step changes no field of the page other than
    [text_content], [word_count] and [content_hash]. *)
Theorem text_content_normal_form
    (Soup : Type) (visible_text : Soup -> string) (md5_hexdigest : string -> string)
    (soup : Soup) (page : PageData.t) :
  let page' := _parse_content Soup visible_text md5_hexdigest soup page in
  let text := PageData.text_content page' in
  collapsed true text = true
  /\ strip text = text
  /\ sub_ws text = text
  /\ (PageData.word_count page' = 0%Z <-> text = "")
  /\ PageData.set_text_content (PageData.text_content page)
       (PageData.set_word_count (PageData.word_count page)
          (PageData.set_content_hash (PageData.content_hash page) page')) = page.
Proof.
  intros page' text. subst text page'.
  destruct (parse_fields Soup visible_text md5_hexdigest soup page) as (T & W & _).
  rewrite W, T. clear T W.
  set (t := visible_text soup).
  assert (C : collapsed false (strip (sub_ws t)) = true).
  { unfold strip. apply rstrip_collapsed, (lstrip_collapsed false), sub_ws_from_collapsed. }
  split; [| split; [apply strip_strip | split; [apply sub_ws_strip_sub_ws | split]]].
  - pose proof (strip_head (sub_ws t)) as H.
    destruct (strip (sub_ws t)) as [| c r]; [reflexivity |].
    simpl in *. now rewrite H in *.
  - destruct (decide (strip (sub_ws t) = "")) as [E | N]; [tauto |].
    pose proof (split_stripped (sub_ws t) N) as S.
    destruct (split (strip (sub_ws t))); [done |]. simpl. split; [lia | tauto].
  - unfold _parse_content. now destruct page.
Qed.

(** X19.  The content step is idempotent on its own output: a document
    whose visible text is the [text_content] already stored for another
    page gets the same [text_content], the same [word_count] and the same
    [content_hash] as that page. *)
Theorem parse_content_idempotent
    (Soup : Type) (visible_text : Soup -> string) (md5_hexdigest : string -> string)
    (soup1 soup2 : Soup) (page1 page2 : PageData.t) :
  let q1 := _parse_content Soup visible_text md5_hexdigest soup1 page1 in
  let q2 := _parse_content Soup visible_text md5_hexdigest soup2 page2 in
  visible_text soup2 = PageData.text_content q1 ->
  PageData.text_content q2 = PageData.text_content q1
  /\ PageData.word_count q2 = PageData.word_count q1
  /\ PageData.content_hash q2 = PageData.content_hash q1.
Proof.
  intros q1 q2. subst q1 q2.
  destruct (parse_fields Soup visible_text md5_hexdigest soup1 page1) as (T1 & W1 & H1).
  destruct (parse_fields Soup visible_text md5_hexdigest soup2 page2) as (T2 & W2 & H2).
  rewrite T1, T2, W1, W2, H1, H2. intros ->.
  now rewrite sub_ws_strip_sub_ws, strip_strip.
Qed.

Lemma parse_content_idempotent_witness :
  let parse := _parse_content string id ParserSamples.digest in
  let q1 := parse ParserSamples.doc1 (PageData.new "http://h/a" "http://h/a" 0) in
  let q2 := parse "Hello World" (PageData.new "http://h/b" "http://h/b" 1) in
  PageData.text_content q2 = PageData.text_content q1
  /\ PageData.word_count q2 = PageData.word_count q1
  /\ PageData.content_hash q2 = PageData.content_hash q1.
Proof.
  apply (parse_content_idempotent string id ParserSamples.digest ParserSamples.doc1
           "Hello World" (PageData.new "http://h/a" "http://h/a" 0)
           (PageData.new "http://h/b" "http://h/b" 1)).
  reflexivity.
Defined.

End ParserText.

(** ** URL normal forms *)

Module NormalForms.
Import PyStr Crawler UrlSpec.

Lemma lower_char_twice (c : ascii) : lower_char (lower_char c) = lower_char c.
Proof. destruct c as [[] [] [] [] [] [] [] []]; reflexivity. Qed.

Lemma lower_twice (s : string) : lower (lower s) = lower s.
Proof.
  induction s as [| c s IH]; simpl; [reflexivity |].
  now rewrite lower_char_twice, IH.
Qed.

Lemma lower_length (s : string) : String.length (lower s) = String.length s.
Proof. induction s as [| c s IH]; simpl; [reflexivity | now rewrite IH]. Qed.

Lemma lower_substring (n m : nat) (s : string) :
  lower (String.substring n m s) = String.substring n m (lower s).
Proof.
  revert n m. induction s as [| c s IH]; intros n m; simpl.
  - now destruct n, m.
  - destruct n as [| n]; [destruct m as [| m]; simpl; [reflexivity | now rewrite IH] |].
    apply IH.
Qed.

Lemma lower_drop_last (k : nat) (s : string) :
  lower (drop_last k s) = drop_last k (lower s).
Proof. unfold drop_last. now rewrite lower_substring, lower_length. Qed.

Lemma lower_app (a b : string) : lower (a +:+ b) = lower a +:+ lower b.
Proof. induction a as [| c a IH]; simpl; [reflexivity | now rewrite IH]. Qed.

Lemma substring_all (b : string) : String.substring 0 (String.length b) b = b.
Proof. induction b as [| c b IH]; simpl; [reflexivity | now rewrite IH]. Qed.

Lemma substring_suffix (a b : string) :
  String.substring (String.length a) (String.length b) (a +:+ b) = b.
Proof. induction a as [| c a IH]; simpl; [apply substring_all | exact IH]. Qed.

Lemma substring_prefix (a b : string) :
  String.substring 0 (String.length a) (a +:+ b) = a.
Proof.
  induction a as [| c a IH]; simpl; [now destruct b | now rewrite IH].
Qed.

Lemma app_length (a b : string) :
  String.length (a +:+ b) = String.length a + String.length b.
Proof. induction a as [| c a IH]; simpl; [reflexivity | now rewrite IH]. Qed.

Lemma endswith_app (a b : string) : endswith (a +:+ b) b = true.
Proof.
  unfold endswith. rewrite app_length.
  replace (String.length a + String.length b - String.length b)
    with (String.length a) by lia.
  rewrite substring_suffix, String.eqb_refl, andb_true_r.
  apply Nat.leb_le. lia.
Qed.

Lemma drop_last_app (a b : string) : drop_last (String.length b) (a +:+ b) = a.
Proof.
  unfold drop_last. rewrite app_length.
  replace (String.length a + String.length b - String.length b)
    with (String.length a) by lia.
  apply substring_prefix.
Qed.

(** The last character of a string. *)
Lemma endswith_char (ch c : ascii) (s : string) :
  endswith (String c s) (String ch EmptyString)
  = match s with
    | EmptyString => Ascii.eqb c ch
    | _ => endswith s (String ch EmptyString)
    end.
Proof.
  unfold endswith. simpl String.length.
  destruct s as [| c' s']; simpl.
  - now destruct (Ascii.eqb c ch).
  - rewrite Nat.sub_0_r. reflexivity.
Qed.

Lemma rstrip_char_end (ch : ascii) (s : string) :
  endswith (rstrip_char ch s) (String ch EmptyString) = false.
Proof.
  induction s as [| c s IH]; [reflexivity |].
  simpl rstrip_char. destruct (rstrip_char ch s) as [| c' r] eqn:R.
  - destruct (Ascii.eqb c ch) eqn:E; [reflexivity |].
    rewrite endswith_char. exact E.
  - rewrite endswith_char. exact IH.
Qed.


Lemma path_shape (path : string) :
  let path' :=
    if negb (bool_decide (path = "/")) && endswith path "/"
    then rstrip_char "/" path else path in
  (path' = "/" \/ endswith path' "/" = false)
  /\ (path' = path \/ path' = rstrip_char "/" path).
Proof.
  simpl. destruct (bool_decide (path = "/")) eqn:E1; simpl.
  { apply bool_decide_eq_true in E1. auto. }
  destruct (endswith path "/") eqn:E2; [| auto].
  split; [right; apply rstrip_char_end | now right].
Qed.

Lemma host_shape (scheme netloc : string) :
  let host := lower netloc in
  let host :=
    if endswith host ":80" && bool_decide (scheme = "http")
    then drop_last 3 host else host in
  let host :=
    if endswith host ":443" && bool_decide (scheme = "https")
    then drop_last 4 host else host in
  lower host = host.
Proof.
  simpl.
  repeat match goal with
    | |- context [if ?b then _ else _] => destruct b
    end;
    rewrite <- ?lower_drop_last; apply lower_twice.
Qed.

(** X20.  A URL normal form is either the empty string (the URL is
    rejected) or the composition of the URL's scheme, a lower-case host,
    a path that is "/" or does not end with "/", no params, the query,
    and no fragment; the path is the URL's path or that path without
    its trailing slashes. *)
Theorem normalize_url_shape
    (urlparse : string -> option ParseResult) (urlunparse : ParseResult -> string)
    (url : string) :
  let n := _normalize_url urlparse urlunparse url in
  n = ""
  \/ exists p host path,
       urlparse (strip url) = Some p
       /\ pr_scheme p ∈ ["http"; "https"]
       /\ pr_netloc p <> ""
       /\ n = urlunparse (mkParseResult (pr_scheme p) host path "" (pr_query p) "")
       /\ lower host = host
       /\ (path = "/" \/ endswith path "/" = false)
       /\ (path = pr_path p \/ path = rstrip_char "/" (pr_path p)).
Proof.
  intros n. subst n. unfold _normalize_url.
  destruct (urlparse (strip url)) as [p |]; [| now left].
  destruct (bool_decide (pr_scheme p ∈ ["http"; "https"])) eqn:Es; [| now left].
  destruct (bool_decide (pr_netloc p = "")) eqn:En; [now left |].
  apply bool_decide_eq_true in Es. apply bool_decide_eq_false in En.
  right. simpl. eexists p, _, _.
  split; [reflexivity | split; [exact Es | split; [exact En | split; [reflexivity |]]]].
  split; [apply host_shape |]. apply path_shape.
Qed.

(** X21.  Default ports are removed: for an http URL whose host part
    ends with ":80", and for an https URL whose host part ends with
    ":443", the host of the normal form is the lower-cased host part
    without that port. *)
Theorem default_port_removed
    (urlparse : string -> option ParseResult) (urlunparse : ParseResult -> string)
    (url : string) (p : ParseResult) (h : string) :
  urlparse (strip url) = Some p ->
  pr_scheme p ∈ ["http"; "https"] ->
  pr_netloc p = h +:+ default_port (pr_scheme p) ->
  exists path,
    _normalize_url urlparse urlunparse url
    = urlunparse (mkParseResult (pr_scheme p) (lower h) path "" (pr_query p) "")
    /\ (path = "/" \/ endswith path "/" = false).
Proof.
  intros Hp Hs Hn. unfold _normalize_url. rewrite Hp.
  rewrite (bool_decide_eq_true_2 _ Hs). simpl.
  assert (Hne : bool_decide (pr_netloc p = "") = false).
  { apply bool_decide_eq_false. rewrite Hn. unfold default_port.
    destruct h; [now destruct (decide _) | discriminate]. }
  rewrite Hne, Hn, lower_app.
  eexists. split; [| apply path_shape]. do 2 f_equal.
  unfold default_port.
  apply elem_of_cons in Hs as [E | Hs]; [| apply list_elem_of_singleton in Hs as E].
  - rewrite E.
    change (lower (if decide ("http" = "http") then ":80" else ":443")) with ":80".
    change (bool_decide ("http" = "http")) with true.
    change (bool_decide ("http" = "https")) with false.
    rewrite (endswith_app (lower h) ":80"). simpl andb.
    rewrite (drop_last_app (lower h) ":80"
             : drop_last 3 (lower h +:+ ":80") = lower h).
    now rewrite andb_false_r.
  - rewrite E.
    change (lower (if decide ("https" = "http") then ":80" else ":443")) with ":443".
    change (bool_decide ("https" = "http")) with false.
    change (bool_decide ("https" = "https")) with true.
    rewrite andb_false_r.
    rewrite (endswith_app (lower h) ":443"). simpl andb.
    exact (drop_last_app (lower h) ":443").
Qed.

Lemma default_port_removed_witness :
  exists path,
    _normalize_url PortSamples.urlparse UrlSamples.urlunparse "http://Example.COM:80/a/"
    = UrlSamples.urlunparse (mkParseResult "http" (lower "Example.COM") path "" "" "")
    /\ (path = "/" \/ endswith path "/" = false).
Proof.
  apply (default_port_removed PortSamples.urlparse UrlSamples.urlunparse
           "http://Example.COM:80/a/"
           (mkParseResult "http" "Example.COM:80" "/a/" "" "" "") "Example.COM").
  - reflexivity.
  - set_solver.
  - reflexivity.
Defined.

End NormalForms.

(** ** The seed list of a crawl *)

Module SeedList.
Import Crawler.

Section seeds.
Variable urlparse : string -> option ParseResult.
Variable urlunparse : ParseResult -> string.

Local Abbreviation normalize := (_normalize_url urlparse urlunparse).

Lemma seed_fold (l seeds : list string) :
  let step := fun (seeds : list string) (u : string) =>
    if negb (bool_decide (normalize u = ""))
       && negb (bool_decide (normalize u ∈ seeds))
    then seeds ++ [normalize u] else seeds in
  NoDup seeds ->
  exists new,
    fold_left step l seeds = seeds ++ new
    /\ NoDup (seeds ++ new)
    /\ Forall (fun s => s <> "" /\ exists u, u ∈ l /\ s = normalize u) new
    /\ (forall u, u ∈ l -> normalize u <> "" -> normalize u ∈ seeds ++ new)
    /\ length new <= length l.
Proof.
  intros step. revert seeds. induction l as [| a l IH]; intros seeds ND; simpl.
  { exists []. rewrite app_nil_r.
    split; [reflexivity | split; [assumption | split; [constructor | split]]].
    - intros u Hu. set_solver.
    - simpl. lia. }
  unfold step at 2.
  destruct (bool_decide (normalize a = "")) eqn:E1; simpl.
  { apply bool_decide_eq_true in E1.
    destruct (IH seeds ND) as (new & F & N & A & C & L).
    exists new. repeat split; try assumption; try lia.
    - eapply Forall_impl; [exact A |]. intros s (? & u & ? & ?).
      split; [assumption |]. exists u. split; [now right | assumption].
    - intros u Hu Hn. apply elem_of_cons in Hu as [-> | Hu]; [contradiction |].
      now apply C. }
  apply bool_decide_eq_false in E1.
  destruct (bool_decide (normalize a ∈ seeds)) eqn:E2; simpl.
  { apply bool_decide_eq_true in E2.
    destruct (IH seeds ND) as (new & F & N & A & C & L).
    exists new. repeat split; try assumption; try lia.
    - eapply Forall_impl; [exact A |]. intros s (? & u & ? & ?).
      split; [assumption |]. exists u. split; [now right | assumption].
    - intros u Hu Hn. apply elem_of_cons in Hu as [-> | Hu]; [| now apply C].
      apply elem_of_app. now left. }
  apply bool_decide_eq_false in E2.
  assert (ND' : NoDup (seeds ++ [normalize a])).
  { apply NoDup_app. repeat split; [assumption | | apply NoDup_singleton].
    intros x Hx Hx'. apply list_elem_of_singleton in Hx'. now subst x. }
  destruct (IH (seeds ++ [normalize a]) ND') as (new & F & N & A & C & L).
  exists (normalize a :: new). rewrite F, <- app_assoc. simpl.
  rewrite <- app_assoc in N. simpl in N.
  repeat split; try assumption; try lia.
  - constructor.
    + split; [assumption |]. exists a. split; [now left | reflexivity].
    + eapply Forall_impl; [exact A |]. intros s (? & u & ? & ?).
      split; [assumption |]. exists u. split; [now right | assumption].
  - intros u Hu Hn. apply elem_of_cons in Hu as [-> | Hu].
    + set_solver.
    + specialize (C u Hu Hn). rewrite <- app_assoc in C. exact C.
Qed.
End seeds.

(** X22.  The seed list that [crawl] builds has no duplicates.  It
    starts with the normal form of the start URL; every further entry is
    the non-empty normal form of one of the first 10000 sitemap URLs,
    every such normal form is in the list, and the list has at most
    10001 entries. *)
Theorem seed_urls_distinct
    (urlparse : string -> option ParseResult) (urlunparse : ParseResult -> string)
    (config : AuditConfig.t) (sitemap_urls : list string) :
  let normalize := _normalize_url urlparse urlunparse in
  let listed := take (Z.to_nat 10000) sitemap_urls in
  let seeds := seed_urls urlparse urlunparse config sitemap_urls in
  NoDup seeds
  /\ (exists rest,
        seeds = normalize (AuditConfig.start_url config) :: rest
        /\ Forall (fun s => s <> "" /\ exists u, u ∈ listed /\ s = normalize u) rest)
  /\ (forall u, u ∈ listed -> normalize u <> "" -> normalize u ∈ seeds)
  /\ (Z.of_nat (length seeds) <= 10001)%Z.
Proof.
  cbv zeta. unfold seed_urls.
  destruct (seed_fold urlparse urlunparse (take (Z.to_nat 10000) sitemap_urls)
              [_normalize_url urlparse urlunparse (AuditConfig.start_url config)])
    as (new & F & N & A & C & L); [apply NoDup_singleton |].
  rewrite F.
  split; [exact N | split; [| split]].
  - exists new. split; [reflexivity | exact A].
  - exact C.
  - rewrite length_app. cbn [length].
    pose proof (length_take sitemap_urls (Z.to_nat 10000)).
    lia.
Qed.

End SeedList.

(** ** The crawl: what the page map and the external set hold *)

Module CrawlInvariants.
Import Crawler CrawlerSpec CrawlerFacts CrawlerRun.

Section facts.
Variable urlparse : string -> option ParseResult.
Variable urlparse_error : string -> string.
Variable urlunparse : ParseResult -> string.
Variable session_get : string -> PyExc + Response.t.
Variable urljoin : string -> string -> string.
Variable repr : string -> string.
Variable parse_page : PageData.t -> string -> PyExc + PageData.t.
Variable config : AuditConfig.t.
Variable robots_data : RobotsData.

Local Abbreviation normalize := (_normalize_url urlparse urlunparse).
Local Abbreviation harvest := (harvest_link urlparse urlunparse config).
Local Abbreviation result :=
  (fun f : string * Z =>
     future_result urlparse urlparse_error session_get urljoin repr parse_page
       (fst f) (snd f) config robots_data).
Local Abbreviation complete :=
  (complete urlparse urlparse_error urlunparse session_get urljoin repr parse_page
     config robots_data).
Local Abbreviation step :=
  (step urlparse urlparse_error urlunparse session_get urljoin repr parse_page
     config robots_data).
Local Abbreviation run :=
  (run urlparse urlparse_error urlunparse session_get urljoin repr parse_page
     config robots_data).
Local Abbreviation iteration :=
  (iteration urlparse urlparse_error urlunparse session_get urljoin repr parse_page
     config robots_data).
Local Abbreviation seed := (seed urlparse urlunparse).
Local Abbreviation normal := (normal urlparse urlunparse).
Local Abbreviation all_normal := (all_normal urlparse urlunparse).
Local Abbreviation harvest_keeps :=
  (harvest_keeps urlparse urlparse_error urlunparse session_get urljoin repr
     parse_page config robots_data).

Lemma complete_fields (f : string * Z) (st : State) :
  let st0 :=
    mkState (visited st) (todo st) (<[PageData.url (result f) := result f]> (pages st))
      (external_urls st) (pending_futures st) (done_count st + 1)%Z in
  let st1 :=
    fold_left (harvest (PageData.depth (result f)))
      (PageData.internal_links (result f)) st0 in
  pages (complete f st) = <[PageData.url (result f) := result f]> (pages st)
  /\ pending_futures (complete f st) = pending_futures st
  /\ external_urls (complete f st)
     = external_urls st
       ∪ list_to_set (LinkData.url <$> PageData.external_links (result f))
  /\ todo (complete f st) = todo st1
  /\ visited (complete f st) = visited st1.
Proof.
  intros st0 st1. unfold Crawler.complete. simpl. fold st0. fold st1.
  destruct (harvest_keeps (PageData.depth (result f))
              (PageData.internal_links (result f)) st0) as (P & F & E & _).
  fold st1 in P, F, E. rewrite P, F, E. auto.
Qed.

Lemma step_keyed (st st' : State) : step st st' -> keyed st -> keyed st'.
Proof.
  intros [st0 f todo' Ht Hw Hc | st0 kept rest f Hp] K; [exact K |].
  destruct (complete_fields f (set_pending (kept ++ rest) st0)) as (P & _).
  intros k p. rewrite P. simpl.
  destruct (decide (PageData.url (result f) = k)) as [<- | N].
  - rewrite lookup_insert_eq. now intros [= <-].
  - rewrite lookup_insert_ne by assumption. apply K.
Qed.

Lemma step_externals (st st' : State) :
  step st st' -> externals_kept st -> externals_kept st'.
Proof.
  intros [st0 f todo' Ht Hw Hc | st0 kept rest f Hp] K; [exact K |].
  destruct (complete_fields f (set_pending (kept ++ rest) st0)) as (P & _ & E & _).
  intros k p l. rewrite P, E. simpl.
  destruct (decide (PageData.url (result f) = k)) as [<- | N].
  - rewrite lookup_insert_eq. intros [= <-] Hl.
    apply elem_of_union_r, elem_of_list_to_set, list_elem_of_fmap. eauto.
  - rewrite lookup_insert_ne by assumption. intros Hk Hl.
    apply elem_of_union_l. eapply K; eassumption.
Qed.

Lemma harvest_normal (depth : Z) (links : list LinkData.t) (st : State) (u : string) :
  u ∈ fst <$> todo (fold_left (harvest depth) links st) ->
  u ∈ fst <$> todo st \/ normal u.
Proof.
  revert st. induction links as [| l links IH]; intros st; simpl; [now left |].
  intros H. apply IH in H as [H | H]; [| now right].
  unfold harvest_link in H.
  destruct (bool_decide (normalize (LinkData.url l) = "")) eqn:E; [now left |].
  destruct (_ && _); [| now left].
  simpl in H. rewrite fmap_app in H. apply elem_of_app in H as [H | H]; [now left |].
  right. apply list_elem_of_singleton in H. subst u.
  apply bool_decide_eq_false in E. split; [exact E | eauto].
Qed.

Lemma step_normal (st st' : State) :
  keeps_url parse_page -> step st st' -> all_normal st -> all_normal st'.
Proof.
  intros Hk [st0 f todo' Ht Hw Hc | st0 kept rest f Hp] [F D].
  - split; [| exact D]. intros u Hu. apply F.
    unfold frontier_urls in *. simpl in Hu. rewrite Ht.
    rewrite fmap_app, fmap_cons in *. set_solver.
  - destruct (complete_fields f (set_pending (kept ++ rest) st0))
      as (P & Pe & _ & T & _).
    assert (Hf : normal (fst f)).
    { apply F. unfold frontier_urls. rewrite Hp, fmap_app, fmap_cons. set_solver. }
    assert (Hu : PageData.url (result f) = fst f)
      by (apply WorkerFacts.future_result_url; assumption).
    split.
    + intros u. unfold frontier_urls. rewrite Pe, T. simpl.
      intros H. apply elem_of_app in H as [H | H].
      * apply harvest_normal in H as [H | H]; [| exact H].
        simpl in H. apply F. unfold frontier_urls. set_solver.
      * apply F. unfold frontier_urls. rewrite Hp.
        rewrite !fmap_app, fmap_cons in *. set_solver.
    + intros k. rewrite P, Hu. simpl. rewrite dom_insert_L.
      intros H. apply elem_of_union in H as [H | H]; [| now apply D].
      apply elem_of_singleton in H. now subst k.
Qed.

Lemma rtc_keyed (st st' : State) : rtc step st st' -> keyed st -> keyed st'.
Proof. induction 1; eauto using step_keyed. Qed.

Lemma rtc_externals (st st' : State) :
  rtc step st st' -> externals_kept st -> externals_kept st'.
Proof. induction 1; eauto using step_externals. Qed.

Lemma rtc_normal (st st' : State) :
  keeps_url parse_page -> rtc step st st' -> all_normal st -> all_normal st'.
Proof. intros Hk. induction 1; eauto using step_normal. Qed.

Lemma seed_normal (seeds : list string) : all_normal (seed seeds).
Proof.
  rewrite (CrawlerScenario.seed_state urlparse urlunparse config).
  split; [| intros k; simpl; set_solver].
  unfold frontier_urls. simpl. rewrite app_nil_r, <- list_fmap_compose.
  rewrite (list_fmap_ext _ id (seeded urlparse urlunparse seeds)), list_fmap_id by done.
  intros u Hu. unfold seeded in Hu.
  apply list_elem_of_filter in Hu as [Hne Hu].
  apply list_elem_of_fmap in Hu as (v & -> & _). split; eauto.
Qed.

Lemma seed_empty (seeds : list string) :
  pages (seed seeds) = ∅ /\ external_urls (seed seeds) = ∅
  /\ pending_futures (seed seeds) = [].
Proof. now rewrite (CrawlerScenario.seed_state urlparse urlunparse config). Qed.

Lemma returned_state (seeds : list string) (schedule : list (list bool))
    (ps : gmap string PageData.t) (ext : gset string) :
  _crawl_internal urlparse urlparse_error urlunparse session_get urljoin repr
    parse_page config robots_data seeds schedule = Returned (ps, ext) ->
  exists st, run schedule (seed seeds) = Some st /\ pages st = ps /\ external_urls st = ext.
Proof.
  unfold _crawl_internal. destruct (_ <=? 0)%Z; [discriminate |].
  destruct (Crawler.run _ _ _ _ _ _ _ _ _ _ _) as [st |]; [| discriminate].
  intros [= <- <-]. eauto.
Qed.

Lemma submit_work_full (l : list (string * Z)) (st : State) :
  (AuditConfig.max_pages config <= in_flight st)%Z -> submit_work config l st = st.
Proof.
  intros H. destruct l as [| f l]; simpl; [reflexivity |].
  destruct (_ <? _)%Z; [| reflexivity].
  now rewrite (proj2 (Z.leb_le _ _) H).
Qed.

(** The loop ends in a pass that leaves it. *)
Lemma run_final (schedule : list (list bool)) (st st' : State) :
  run schedule st = Some st' ->
  exists done st0, rtc step st st0 /\ iteration done st0 = (st', true).
Proof.
  revert st. induction schedule as [| done schedule IH]; intros st; simpl; [discriminate |].
  destruct (iteration done st) as [st1 fin] eqn:E.
  destruct fin.
  - intros [= <-]. exists done, st. split; [apply rtc_refl | exact E].
  - intros R. destruct (IH st1 R) as (done' & st0 & S & I).
    exists done', st0. split; [| exact I].
    etransitivity; [| exact S].
    pose proof (iteration_steps urlparse urlparse_error urlunparse session_get urljoin
                  repr parse_page config robots_data done st) as S1.
    now rewrite E in S1.
Qed.
End facts.

End CrawlInvariants.

(** ** The crawl: what it returns *)

Module CrawlResults.
Import Crawler CrawlerSpec CrawlerFacts CrawlerRun CrawlInvariants.

Lemma sample_parser_keeps_url : keeps_url CrawlerSamples.parse_page.
Proof.
  intros page d page'. unfold CrawlerSamples.parse_page.
  destruct (decide _); intros [= <-]; [now destruct page | reflexivity].
Qed.

(** X23.  The page map that a crawl returns is keyed by the pages' own
    URLs, and (when parsing a page does not change its URL) every key is
    a non-empty URL normal form. *)
Theorem page_map_keyed_by_url
    (urlparse : string -> option ParseResult) (urlparse_error : string -> string)
    (urlunparse : ParseResult -> string)
    (session_get : string -> PyExc + Response.t) (urljoin : string -> string -> string)
    (repr : string -> string)
    (parse_page : PageData.t -> string -> PyExc + PageData.t)
    (config : AuditConfig.t) (robots_data : RobotsData)
    (seeds : list string) (schedule : list (list bool))
    (ps : gmap string PageData.t) (ext : gset string)
    (k : string) (p : PageData.t) :
  _crawl_internal urlparse urlparse_error urlunparse session_get urljoin repr
    parse_page config robots_data seeds schedule = Returned (ps, ext) ->
  ps !! k = Some p ->
  PageData.url p = k
  /\ (keeps_url parse_page ->
      k <> "" /\ exists v, _normalize_url urlparse urlunparse v = k).
Proof.
  intros R Hk.
  apply returned_state in R as (st & R & <- & <-).
  apply run_steps in R.
  destruct (seed_empty urlparse urlparse_error urlunparse session_get urljoin repr
              parse_page config robots_data seeds) as (P0 & _).
  split.
  - eapply (rtc_keyed _ _ _ _ _ _ _ _ _ _ _ R); [| exact Hk].
    intros k' p'. rewrite P0, lookup_empty. discriminate.
  - intros Hkeeps.
    destruct (rtc_normal _ _ _ _ _ _ _ _ _ _ _ Hkeeps R
                (seed_normal urlparse urlparse_error urlunparse session_get urljoin
                   repr parse_page config robots_data seeds)) as [_ D].
    apply D. apply elem_of_dom. eauto.
Qed.

Lemma page_map_keyed_by_url_witness :
  PageData.url CrawlSamples.home_page = CrawlerSamples.home
  /\ (keeps_url CrawlSamples.parse_outward ->
      CrawlerSamples.home <> ""
      /\ exists v, CrawlerSamples._normalize_url v = CrawlerSamples.home).
Proof.
  apply (page_map_keyed_by_url UrlSamples.urlparse CrawlerSamples.no_message
           UrlSamples.urlunparse CrawlerSamples.session_get CrawlerSamples.join_absolute
           CrawlerSamples.quote CrawlSamples.parse_outward (CrawlerSamples.config 100)
           CrawlerSamples.no_robots [CrawlerSamples.home] CrawlSamples.patient
           CrawlSamples.outward_pages CrawlSamples.outward_urls
           CrawlerSamples.home CrawlSamples.home_page).
  - vm_compute. reflexivity.
  - vm_compute. reflexivity.
Defined.

(** X24.  Every external link of every page in the returned page map
    is in the set of external URLs that the crawl returns with it (the
    set that the external link check then works through). *)
Theorem external_links_collected
    (urlparse : string -> option ParseResult) (urlparse_error : string -> string)
    (urlunparse : ParseResult -> string)
    (session_get : string -> PyExc + Response.t) (urljoin : string -> string -> string)
    (repr : string -> string)
    (parse_page : PageData.t -> string -> PyExc + PageData.t)
    (config : AuditConfig.t) (robots_data : RobotsData)
    (seeds : list string) (schedule : list (list bool))
    (ps : gmap string PageData.t) (ext : gset string)
    (k : string) (p : PageData.t) (l : LinkData.t) :
  _crawl_internal urlparse urlparse_error urlunparse session_get urljoin repr
    parse_page config robots_data seeds schedule = Returned (ps, ext) ->
  ps !! k = Some p ->
  l ∈ PageData.external_links p ->
  LinkData.url l ∈ ext.
Proof.
  intros R Hk Hl.
  apply returned_state in R as (st & R & <- & <-).
  apply run_steps in R.
  destruct (seed_empty urlparse urlparse_error urlunparse session_get urljoin repr
              parse_page config robots_data seeds) as (P0 & _).
  eapply (rtc_externals _ _ _ _ _ _ _ _ _ _ _ R); [| exact Hk | exact Hl].
  intros k' p' l'. rewrite P0, lookup_empty. discriminate.
Qed.

Lemma external_links_collected_witness :
  LinkData.url CrawlSamples.outward ∈ CrawlSamples.outward_urls.
Proof.
  apply (external_links_collected UrlSamples.urlparse CrawlerSamples.no_message
           UrlSamples.urlunparse CrawlerSamples.session_get CrawlerSamples.join_absolute
           CrawlerSamples.quote CrawlSamples.parse_outward (CrawlerSamples.config 100)
           CrawlerSamples.no_robots [CrawlerSamples.home] CrawlSamples.patient
           CrawlSamples.outward_pages CrawlSamples.outward_urls
           CrawlerSamples.home CrawlSamples.home_page CrawlSamples.outward).
  - vm_compute. reflexivity.
  - vm_compute. reflexivity.
  - vm_compute. set_solver.
Defined.

(** X25.  With a page budget of zero (or less) nothing is fetched: the
    crawl returns at its first pass with an empty page map and an empty
    set of external URLs, whatever the seeds are. *)
Theorem no_budget_no_fetch
    (urlparse : string -> option ParseResult) (urlparse_error : string -> string)
    (urlunparse : ParseResult -> string)
    (session_get : string -> PyExc + Response.t) (urljoin : string -> string -> string)
    (repr : string -> string)
    (parse_page : PageData.t -> string -> PyExc + PageData.t)
    (config : AuditConfig.t) (robots_data : RobotsData)
    (seeds : list string) (done : list bool) (schedule : list (list bool)) :
  (AuditConfig.max_pages config <= 0)%Z ->
  (1 <= AuditConfig.max_workers config)%Z ->
  _crawl_internal urlparse urlparse_error urlunparse session_get urljoin repr
    parse_page config robots_data seeds (done :: schedule) = Returned (∅, ∅).
Proof.
  intros Hcap Hw. unfold _crawl_internal.
  destruct (_ <=? 0)%Z eqn:E; [apply Z.leb_le in E; lia |].
  destruct (seed_empty urlparse urlparse_error urlunparse session_get urljoin repr
              parse_page config robots_data seeds) as (P0 & E0 & F0).
  simpl. unfold iteration, submit.
  rewrite (submit_work_full urlparse urlparse_error urlunparse session_get urljoin repr
             parse_page config robots_data).
  - rewrite F0. simpl. now rewrite P0, E0.
  - unfold in_flight. rewrite P0, F0, map_size_empty. simpl. lia.
Qed.

Lemma no_budget_no_fetch_witness :
  CrawlerSamples._crawl_internal 0 [CrawlerSamples.home] CrawlSamples.patient
  = Returned (∅, ∅).
Proof.
  apply (no_budget_no_fetch UrlSamples.urlparse CrawlerSamples.no_message
           UrlSamples.urlunparse CrawlerSamples.session_get CrawlerSamples.join_absolute
           CrawlerSamples.quote CrawlerSamples.parse_page (CrawlerSamples.config 0)
           CrawlerSamples.no_robots [CrawlerSamples.home]
           (replicate 20 true) (replicate 9 (replicate 20 true)));
    simpl; lia.
Defined.

(** X26.  A URL that robots.txt disallows is never requested: with
    [respect_robots] on, the page recorded for it is the same for every
    HTTP session and every page parser, namely a page with
    [crawl_error = "Blocked by robots.txt"], [is_indexable = False],
    status 0 and no links, and completing it adds nothing to the
    frontier, the visited set or the external URLs. *)
Theorem blocked_url_not_fetched
    (urlparse : string -> option ParseResult) (urlparse_error : string -> string)
    (urlunparse : ParseResult -> string)
    (session_get : string -> PyExc + Response.t) (urljoin : string -> string -> string)
    (repr : string -> string)
    (parse_page : PageData.t -> string -> PyExc + PageData.t)
    (config : AuditConfig.t) (robots_data : RobotsData)
    (url : string) (depth : Z) (st : State) :
  AuditConfig.respect_robots config = true ->
  Robots.is_url_allowed urlparse url robots_data (AuditConfig.user_agent config)
  = Some false ->
  let st' :=
    complete urlparse urlparse_error urlunparse session_get urljoin repr parse_page
      config robots_data (url, depth) st in
  _fetch_and_parse urlparse urlparse_error session_get urljoin repr parse_page
    url depth config robots_data = inr (blocked_page url depth)
  /\ pages st' = <[url := blocked_page url depth]> (pages st)
  /\ todo st' = todo st
  /\ visited st' = visited st
  /\ external_urls st' = external_urls st.
Proof.
  intros Hr Ha st'.
  assert (F : _fetch_and_parse urlparse urlparse_error session_get urljoin repr
                parse_page url depth config robots_data = inr (blocked_page url depth)).
  { unfold _fetch_and_parse. now rewrite Hr, Ha. }
  split; [exact F |].
  destruct (complete_fields urlparse urlparse_error urlunparse session_get urljoin
              repr parse_page config robots_data (url, depth) st) as (P & _ & E & T & V).
  fold st' in P, E, T, V. rewrite P, E, T, V.
  unfold future_result. simpl fst. simpl snd. rewrite F. simpl.
  repeat split. set_solver.
Qed.

Lemma blocked_url_not_fetched_witness :
  let config := CrawlerSamples.config 100 in
  let st := CrawlerSamples.seed [CrawlerSamples.home] in
  let st' :=
    complete UrlSamples.urlparse CrawlerSamples.no_message UrlSamples.urlunparse
      CrawlerSamples.session_get CrawlerSamples.join_absolute CrawlerSamples.quote
      CrawlerSamples.parse_page config CrawlSamples.closed ("http://h/a", 1%Z) st in
  _fetch_and_parse UrlSamples.urlparse CrawlerSamples.no_message
    CrawlerSamples.session_get CrawlerSamples.join_absolute CrawlerSamples.quote
    CrawlerSamples.parse_page "http://h/a" 1 config CrawlSamples.closed
  = inr (blocked_page "http://h/a" 1)
  /\ pages st' = <["http://h/a" := blocked_page "http://h/a" 1]> (pages st)
  /\ todo st' = todo st
  /\ visited st' = visited st
  /\ external_urls st' = external_urls st.
Proof.
  apply (blocked_url_not_fetched UrlSamples.urlparse CrawlerSamples.no_message
           UrlSamples.urlunparse CrawlerSamples.session_get CrawlerSamples.join_absolute
           CrawlerSamples.quote CrawlerSamples.parse_page (CrawlerSamples.config 100)
           CrawlSamples.closed "http://h/a" 1
           (CrawlerSamples.seed [CrawlerSamples.home]));
    reflexivity.
Defined.

(** X27.  A crawl that ends below the page cap is complete: when the
    seeds normalise to distinct URLs and the loop ends with fewer pages
    than [max_pages], the frontier is empty, nothing is pending, and the
    page map holds a page for every URL that was ever discovered. *)
Theorem crawl_below_cap_is_complete
    (urlparse : string -> option ParseResult) (urlparse_error : string -> string)
    (urlunparse : ParseResult -> string)
    (session_get : string -> PyExc + Response.t) (urljoin : string -> string -> string)
    (repr : string -> string)
    (parse_page : PageData.t -> string -> PyExc + PageData.t)
    (config : AuditConfig.t) (robots_data : RobotsData)
    (seeds : list string) (schedule : list (list bool)) (st : State) :
  keeps_url parse_page ->
  (1 <= AuditConfig.max_workers config)%Z ->
  NoDup (seeded urlparse urlunparse seeds) ->
  run urlparse urlparse_error urlunparse session_get urljoin repr parse_page
    config robots_data schedule (seed urlparse urlunparse seeds) = Some st ->
  (Z.of_nat (size (pages st)) < AuditConfig.max_pages config)%Z ->
  todo st = [] /\ pending_futures st = [] /\ dom (pages st) = visited st.
Proof.
  intros Hk Hw ND R Hcap.
  pose proof (run_steps _ _ _ _ _ _ _ _ _ _ _ _ R) as S.
  pose proof (rtc_at_most_once _ _ _ _ _ _ _ _ _ _ _ Hk S
                (CrawlerScenario.seed_at_most_once urlparse urlunparse config seeds ND))
    as (_ & V & _).
  destruct (run_final _ _ _ _ _ _ _ _ _ _ _ _ R) as (done & st0 & _ & I).
  destruct (iteration_finished _ _ _ _ _ _ _ _ _ _ _ _ Hw I) as (Hp & Ht).
  assert (T : todo st = []).
  { destruct Ht as [Ht | Ht]; [exact Ht |].
    unfold in_flight in Ht. rewrite Hp in Ht. simpl in Ht. lia. }
  split; [exact T | split; [exact Hp |]].
  rewrite V. unfold frontier_urls. rewrite T, Hp. simpl. set_solver.
Qed.

Lemma crawl_below_cap_is_complete_witness :
  todo CrawlSamples.whole_site = []
  /\ pending_futures CrawlSamples.whole_site = []
  /\ dom (pages CrawlSamples.whole_site) = visited CrawlSamples.whole_site.
Proof.
  apply (crawl_below_cap_is_complete UrlSamples.urlparse CrawlerSamples.no_message
           UrlSamples.urlunparse CrawlerSamples.session_get CrawlerSamples.join_absolute
           CrawlerSamples.quote CrawlerSamples.parse_page (CrawlerSamples.config 100)
           CrawlerSamples.no_robots [CrawlerSamples.home] CrawlSamples.patient
           CrawlSamples.whole_site).
  - exact sample_parser_keeps_url.
  - simpl. lia.
  - vm_compute. repeat constructor. set_solver.
  - vm_compute. reflexivity.
  - vm_compute. reflexivity.
Defined.

End CrawlResults.

(** ** Sitemaps *)

Module SitemapFacts.
Import Requests Sitemap SitemapSpec.

Section facts.
Variable session_get_follow : string -> reply.
Variable repr : string -> string.
Variable gzip_decompress : string -> option string.
Variable parse_xml : string -> Xml.

Local Abbreviation fetch :=
  (_fetch_recursive session_get_follow repr gzip_decompress parse_xml).
Local Abbreviation found := (found session_get_follow).
Local Abbreviation inv u0 w :=
  (SitemapData.url (fst (fst w)) = u0
   /\ walk_ok w /\ exists_iff_found session_get_follow w).

Lemma collect_urls_cap (locs : list string) (data : SitemapData.t) :
  (Z.of_nat (length (SitemapData.urls data)) <= _MAX_URLS)%Z ->
  (Z.of_nat (length (SitemapData.urls (collect_urls locs data))) <= _MAX_URLS)%Z
  /\ SitemapData.url (collect_urls locs data) = SitemapData.url data
  /\ SitemapData.exists_ (collect_urls locs data) = SitemapData.exists_ data
  /\ SitemapData.child_sitemaps (collect_urls locs data) = SitemapData.child_sitemaps data.
Proof.
  unfold collect_urls. revert data.
  induction locs as [| loc locs IH]; intros data H; simpl; [done |].
  destruct (_ <? _)%Z eqn:E; [| now apply IH].
  apply Z.ltb_lt in E.
  destruct (IH (SitemapData.add_url (PyStr.strip loc) data)) as (C & U & X & Ch).
  - simpl. rewrite length_app. simpl. lia.
  - auto.
Qed.

(** The state after the request of a URL that was not seen before. *)
Lemma request_step (u0 url : string) (data d' : SitemapData.t) (seen : gset string)
    (req : list string) :
  inv u0 (data, seen, req) ->
  url ∉ seen ->
  SitemapData.url d' = SitemapData.url data ->
  (Z.of_nat (length (SitemapData.urls d')) <= _MAX_URLS)%Z ->
  (SitemapData.exists_ d' = true <-> SitemapData.exists_ data = true \/ found url) ->
  inv u0 (d', seen ∪ {[url]}, req ++ [url]).
Proof.
  intros (U & (C & ND & S) & X) Hn Hu Hc Hx. simpl in *.
  split; [congruence | split; [split; [exact Hc | split] |]]; simpl.
  - apply NoDup_app. repeat split; [exact ND | | apply NoDup_singleton].
    intros x Hx1 Hx2. apply list_elem_of_singleton in Hx2. subst x.
    apply Hn. now apply S.
  - intros u Hu'. apply elem_of_app in Hu' as [Hu' | Hu']; [| set_solver].
    apply elem_of_union_l. now apply S.
  - unfold exists_iff_found in *. simpl in *. rewrite Hx, X. split.
    + intros [(u & Hu' & F) | F].
      * exists u. split; [apply elem_of_app; now left | exact F].
      * exists url. split; [apply elem_of_app; right; set_solver | exact F].
    + intros (u & Hu' & F). apply elem_of_app in Hu' as [Hu' | Hu']; [left; eauto |].
      apply list_elem_of_singleton in Hu'. subst u. now right.
Qed.

Lemma fold_inv (levels : nat) (u0 : string) (locs : list string) (w : Walk) :
  (forall url w, inv u0 w -> inv u0 (fetch levels url w)) ->
  inv u0 w ->
  inv u0
    (fold_left
       (fun (w : Walk) loc =>
          let '(data, seen_sitemaps, requested) := w in
          fetch levels (PyStr.strip loc)
            (SitemapData.add_child (PyStr.strip loc) data, seen_sitemaps, requested))
       locs w).
Proof.
  intros IH. revert w. induction locs as [| loc locs IHl]; intros w H; simpl; [exact H |].
  apply IHl. destruct w as [[data seen] req]. apply IH. exact H.
Qed.

Lemma fetch_inv (levels : nat) (u0 url : string) (w : Walk) :
  inv u0 w -> inv u0 (fetch levels url w).
Proof.
  revert url w. induction levels as [| levels IH]; intros url w H; [exact H |].
  destruct w as [[data seen] req]. simpl.
  destruct (bool_decide (url ∈ seen)) eqn:E; [exact H |].
  apply bool_decide_eq_false in E.
  pose proof H as (U & (C & ND & S) & X). simpl in U, C.
  destruct (session_get_follow url) as [resp | msg | exc] eqn:R.
  2, 3: apply (request_step u0 url data _ seen req H E); try assumption; try reflexivity;
        simpl; split; [tauto | intros [? | (r & ? & _)]; [assumption | congruence]].
  destruct (bool_decide (Response.status_code resp = 200%Z)) eqn:E2; cbn [negb].
  2: { apply bool_decide_eq_false in E2.
       apply (request_step u0 url data _ seen req H E); try assumption; try reflexivity.
       simpl. split; [tauto | intros [? | (r & Hr & ?)]; [assumption |]].
       rewrite R in Hr. injection Hr as <-. contradiction. }
  apply bool_decide_eq_true in E2.
  assert (F : found url) by (exists resp; auto).
  destruct (parse_xml _) as [tag sitemap_locs url_locs | msg].
  2: { apply (request_step u0 url data _ seen req H E); try assumption; try reflexivity.
       simpl. tauto. }
  destruct (decide (_local_tag tag = "sitemapindex")).
  { apply fold_inv; [exact IH |].
    apply (request_step u0 url data _ seen req H E); try assumption; try reflexivity.
    simpl. tauto. }
  destruct (decide (_local_tag tag = "urlset")).
  2: { apply (request_step u0 url data _ seen req H E); try assumption; try reflexivity.
       simpl. tauto. }
  match goal with |- context [collect_urls ?l ?d] =>
    destruct (collect_urls_cap l d) as (C' & U' & X' & _); [exact C |] end.
  apply (request_step u0 url data _ seen req H E); try assumption.
  rewrite X'. simpl. tauto.
Qed.

Lemma start_inv (url : string) :
  inv url ((SitemapData.new url, ∅, []) : Walk).
Proof.
  split; [reflexivity | split].
  - split; [simpl; unfold _MAX_URLS; lia | split; [constructor | simpl; set_solver]].
  - unfold exists_iff_found. simpl. split; [discriminate | set_solver].
Qed.

Lemma fetch_sitemap_inv (url : string) :
  let r := fetch_sitemap session_get_follow repr gzip_decompress parse_xml url in
  SitemapData.url (fst r) = url
  /\ (Z.of_nat (length (SitemapData.urls (fst r))) <= _MAX_URLS)%Z
  /\ SitemapData.url_count (fst r) = Z.of_nat (length (SitemapData.urls (fst r)))
  /\ NoDup (snd r)
  /\ (SitemapData.exists_ (fst r) = true <-> exists u, u ∈ snd r /\ found u).
Proof.
  unfold fetch_sitemap.
  pose proof (fetch_inv (S _MAX_RECURSION) url url _ (start_inv url)) as H.
  destruct (fetch _ _ _) as [[data seen] req].
  destruct H as (U & (C & ND & S) & X). simpl in *. auto.
Qed.

(** A chain of sitemap indexes, each listing the next. *)
Lemma chain_walk (chain : nat -> string) (levels i : nat) (data : SitemapData.t)
    (seen : gset string) (req : list string) :
  (forall j, i <= j < i + levels ->
     index_of session_get_follow gzip_decompress parse_xml (chain j) (chain (S j))) ->
  NoDup (chain <$> seq i levels) ->
  (forall j, i <= j < i + levels -> chain j ∉ seen) ->
  exists data',
    fetch levels (chain i) (data, seen, req)
    = (data', seen ∪ list_to_set (chain <$> seq i levels), req ++ (chain <$> seq i levels))
    /\ SitemapData.child_sitemaps data'
       = SitemapData.child_sitemaps data ++ (chain <$> seq (S i) levels)
    /\ SitemapData.urls data' = SitemapData.urls data.
Proof.
  revert i data seen req.
  induction levels as [| levels IH]; intros i data seen req Hidx ND Hseen.
  { exists data. simpl. rewrite !app_nil_r. split; [f_equal; f_equal; set_solver | auto]. }
  cbn [seq fmap list_fmap] in ND. apply NoDup_cons in ND as [Hi ND].
  destruct (Hidx i ltac:(lia)) as (resp & tag & loc & R & St & P & T & L).
  cbn [_fetch_recursive].
  rewrite bool_decide_eq_false_2 by (apply Hseen; lia).
  rewrite R, St. simpl negb. cbv iota. rewrite P.
  destruct (decide (_local_tag tag = "sitemapindex")) as [_ | N]; [| contradiction].
  cbn [fold_left]. rewrite L.
  edestruct (IH (S i)) as (data' & E & Ch & Us); [| exact ND | | rewrite E].
  - intros j Hj. apply Hidx. lia.
  - intros j Hj. apply not_elem_of_union. split; [apply Hseen; lia |].
    intros Hin. apply elem_of_singleton in Hin. apply Hi.
    rewrite <- Hin. apply list_elem_of_fmap. exists j. split; [reflexivity |].
    apply elem_of_seq. lia.
  - exists data'. split; [| split].
    + cbn [seq fmap list_fmap]. rewrite <- app_assoc. simpl.
      f_equal. f_equal. set_solver.
    + rewrite Ch. simpl. rewrite <- app_assoc. reflexivity.
    + rewrite Us. reflexivity.
Qed.
End facts.

End SitemapFacts.

(** ** Sitemaps: what a fetch returns *)

Module SitemapResults.
Import Requests Sitemap SitemapSpec SitemapFacts.

(** X28.  A fetched sitemap holds at most 10000 URLs, its [url_count]
    is the number of URLs it holds, and it keeps the URL it was asked
    for.  No sitemap URL is requested twice while it is fetched (so a
    sitemap index that lists itself, or two indexes that list each
    other, are each requested once), and the record is marked as
    existing exactly when one of the requested sitemap URLs (the sitemap
    itself or a child sitemap of an index) was answered with status
    200. *)
Theorem fetch_sitemap_bounded
    (session_get_follow : string -> reply) (repr : string -> string)
    (gzip_decompress : string -> option string) (parse_xml : string -> Xml)
    (url : string) :
  let r := fetch_sitemap session_get_follow repr gzip_decompress parse_xml url in
  (Z.of_nat (length (SitemapData.urls (fst r))) <= 10000)%Z
  /\ SitemapData.url_count (fst r) = Z.of_nat (length (SitemapData.urls (fst r)))
  /\ SitemapData.url (fst r) = url
  /\ NoDup (snd r)
  /\ (SitemapData.exists_ (fst r) = true
      <-> exists u, u ∈ snd r /\ found session_get_follow u).
Proof.
  destruct (fetch_sitemap_inv session_get_follow repr gzip_decompress parse_xml url)
    as (U & C & N & ND & X).
  cbv zeta. auto.
Qed.

(** X29.  Sitemap indexes are followed five levels deep and no
    further.  Along a chain of distinct sitemap indexes, each listing
    the next, the fetch of the first one requests the first six of
    them; the seventh is recorded as a child sitemap and never
    requested. *)
Theorem nested_indexes_five_deep
    (session_get_follow : string -> reply) (repr : string -> string)
    (gzip_decompress : string -> option string) (parse_xml : string -> Xml)
    (chain : nat -> string) :
  (forall i, i < 6 ->
     index_of session_get_follow gzip_decompress parse_xml (chain i) (chain (S i))) ->
  NoDup (chain <$> seq 0 6) ->
  let r := fetch_sitemap session_get_follow repr gzip_decompress parse_xml (chain 0) in
  snd r = chain <$> seq 0 6
  /\ SitemapData.child_sitemaps (fst r) = chain <$> seq 1 6
  /\ SitemapData.urls (fst r) = [].
Proof.
  intros Hidx ND. unfold fetch_sitemap.
  destruct (chain_walk session_get_follow repr gzip_decompress parse_xml chain
              (S _MAX_RECURSION) 0 (SitemapData.new (chain 0)) ∅ [])
    as (data' & E & Ch & U).
  - intros j Hj. apply Hidx. unfold _MAX_RECURSION in Hj. lia.
  - exact ND.
  - intros j _. set_solver.
  - rewrite E. cbv zeta. simpl fst. simpl snd. auto.
Qed.

Lemma nested_indexes_five_deep_witness :
  snd SitemapSamples.fetched = SitemapSamples.chain <$> seq 0 6
  /\ SitemapData.child_sitemaps (fst SitemapSamples.fetched)
     = SitemapSamples.chain <$> seq 1 6
  /\ SitemapData.urls (fst SitemapSamples.fetched) = [].
Proof.
  apply (nested_indexes_five_deep SitemapSamples.nested CrawlerSamples.quote
           SitemapSamples.no_gzip SitemapSamples.as_index SitemapSamples.chain).
  - intros i Hi.
    do 6 (destruct i as [| i];
          [eexists _, _, _; repeat split; reflexivity |]).
    lia.
  - apply (bool_decide_unpack _). vm_compute. exact I.
Defined.

Section discovery.
Variable session_get_follow : string -> reply.
Variable repr : string -> string.
Variable gzip_decompress : string -> option string.
Variable parse_xml : string -> Xml.

Local Abbreviation fetched :=
  (fun u => fst (fetch_sitemap session_get_follow repr gzip_decompress parse_xml u)).

(** The loop over the candidates returns the record of the first
    candidate whose record exists. *)
Lemma first_existing_spec (candidates : list string) :
  let data :=
    first_existing session_get_follow repr gzip_decompress parse_xml candidates in
  (exists i u,
     candidates !! i = Some u
     /\ SitemapData.exists_ (fetched u) = true
     /\ (forall j v, j < i -> candidates !! j = Some v ->
                     SitemapData.exists_ (fetched v) = false)
     /\ data = fetched u)
  \/ ((forall v, v ∈ candidates -> SitemapData.exists_ (fetched v) = false)
      /\ data = SitemapData.mk "" false 0 false [] [] 0 ["No sitemap found"] "").
Proof.
  induction candidates as [| c rest IH]; simpl.
  - right. split; [| reflexivity]. intros v Hv. now apply elem_of_nil in Hv.
  - destruct (SitemapData.exists_ (fetched c)) eqn:E.
    + left. exists 0, c. repeat split; [assumption | lia].
    + destruct IH as [(i & u & Hi & Hu & Hbefore & Hd) | [Hnone Hd]].
      * left. exists (S i), u. repeat split; try assumption.
        intros [| j] v Hj Hv; simpl in Hv.
        -- now injection Hv as <-.
        -- apply (Hbefore j); [lia | exact Hv].
      * right. split; [| exact Hd].
        intros v Hv. apply elem_of_cons in Hv as [-> | Hv]; [exact E | now apply Hnone].
Qed.
End discovery.

(** X30.  [_get_sitemap] with a configured sitemap URL returns the
    record that [fetch_sitemap] makes for that URL, found or not.
    Without one it tries four locations under the scheme and host of
    the start URL, in this order: [/sitemap.xml], [/sitemap_index.xml],
    [/sitemap-index.xml], [/sitemaps/sitemap.xml]; it returns the record
    of the first location whose record exists (every location before it
    has a record that does not), and when no location has one it
    returns an empty record that holds the single error "No sitemap
    found" (the errors met at the four locations are not reported).  A
    start URL on which [urlparse] raises makes it raise. *)
Theorem sitemap_autodiscovery
    (session_get_follow : string -> reply) (repr : string -> string)
    (gzip_decompress : string -> option string) (parse_xml : string -> Xml)
    (urlparse : string -> option ParseResult) (urlparse_error : string -> string)
    (config : AuditConfig.t) :
  let fetched u :=
    fst (fetch_sitemap session_get_follow repr gzip_decompress parse_xml u) in
  let result :=
    _get_sitemap session_get_follow repr gzip_decompress parse_xml urlparse
      urlparse_error config in
  (AuditConfig.sitemap_url config <> ""
   /\ result = inr (fetched (AuditConfig.sitemap_url config)))
  \/ (AuditConfig.sitemap_url config = ""
      /\ match urlparse (AuditConfig.start_url config) with
         | None =>
             result = inl (ValueError (urlparse_error (AuditConfig.start_url config)))
         | Some parsed =>
             let base := pr_scheme parsed +:+ "://" +:+ pr_netloc parsed in
             let locations :=
               [ base +:+ "/sitemap.xml"; base +:+ "/sitemap_index.xml";
                 base +:+ "/sitemap-index.xml"; base +:+ "/sitemaps/sitemap.xml" ] in
             (exists i u,
                locations !! i = Some u
                /\ SitemapData.exists_ (fetched u) = true
                /\ (forall j v, j < i -> locations !! j = Some v ->
                                SitemapData.exists_ (fetched v) = false)
                /\ result = inr (fetched u))
             \/ ((forall v, v ∈ locations -> SitemapData.exists_ (fetched v) = false)
                 /\ result
                    = inr (SitemapData.mk "" false 0 false [] [] 0
                             ["No sitemap found"] ""))
         end).
Proof.
  intros fetched result. subst result. unfold _get_sitemap.
  destruct (bool_decide (AuditConfig.sitemap_url config = "")) eqn:E; simpl.
  - apply bool_decide_eq_true in E. right. split; [exact E |].
    unfold guess_sitemap_url.
    destruct (urlparse (AuditConfig.start_url config)) as [parsed |]; simpl;
      [| reflexivity].
    destruct (first_existing_spec session_get_follow repr gzip_decompress parse_xml
                [ (pr_scheme parsed +:+ "://" +:+ pr_netloc parsed) +:+ "/sitemap.xml";
                  (pr_scheme parsed +:+ "://" +:+ pr_netloc parsed) +:+ "/sitemap_index.xml";
                  (pr_scheme parsed +:+ "://" +:+ pr_netloc parsed) +:+ "/sitemap-index.xml";
                  (pr_scheme parsed +:+ "://" +:+ pr_netloc parsed)
                  +:+ "/sitemaps/sitemap.xml" ])
      as [(i & u & Hi & Hu & Hbefore & Hd) | [Hnone Hd]].
    + left. exists i, u. repeat split; try assumption. now f_equal.
    + right. split; [exact Hnone | now f_equal].
  - apply bool_decide_eq_false in E. left. split; [exact E | reflexivity].
Qed.

(** On a site whose only sitemap is at [/sitemap-index.xml], the third
    location, that sitemap is the one returned. *)
Lemma sitemap_autodiscovery_witness :
  exists data,
    SitemapSamples.discovered = inr data
    /\ SitemapData.url data = "http://h/sitemap-index.xml"
    /\ SitemapData.exists_ data = true
    /\ SitemapData.urls data = ["http://h/a"].
Proof.
  destruct (sitemap_autodiscovery SitemapSamples.third_only CrawlerSamples.quote
              SitemapSamples.no_gzip SitemapSamples.as_urlset UrlSamples.urlparse
              CrawlerSamples.no_message (CrawlerSamples.config 100))
    as [[N _] | [_ H]].
  - exfalso. apply N. reflexivity.
  - change (UrlSamples.urlparse (AuditConfig.start_url (CrawlerSamples.config 100)))
      with (Some (mkParseResult "http" "h" "/" "" "" "")) in H.
    cbv zeta in H.
    destruct H as [(i & u & Hi & Hu & Hbefore & Hd) | [Hnone _]].
    + exists (fst (fetch_sitemap SitemapSamples.third_only CrawlerSamples.quote
                     SitemapSamples.no_gzip SitemapSamples.as_urlset u)).
      split; [exact Hd |].
      destruct i as [| [| [| [| i]]]]; simpl in Hi; try discriminate;
        injection Hi as <-;
        solve [ vm_compute in Hu; discriminate Hu
              | vm_compute; repeat split ].
    + exfalso.
      specialize (Hnone "http://h/sitemap-index.xml").
      assert (Hin : "http://h/sitemap-index.xml"
                    ∈ [ "http://h/sitemap.xml"; "http://h/sitemap_index.xml";
                        "http://h/sitemap-index.xml"; "http://h/sitemaps/sitemap.xml" ])
        by (apply list_elem_of_In; simpl; tauto).
      specialize (Hnone Hin). vm_compute in Hnone. discriminate Hnone.
Defined.

End SitemapResults.
